(** * MatrixRPGClient: the message-synchronisation core, embedded in Rocq

    The development follows the cached client of the repository
    (the first [MatrixRPGClient] class: the one that owns [messageCache]).
    JavaScript objects used as dictionaries are finite maps, arrays are
    lists, [null]/[undefined] is [None], and every method that can throw or
    touch the network lives in a small state-and-exception monad that also
    records the observable effects (listener calls, SDK requests, timers).

    An awaited call is answered on the spot, so a method runs to its end
    before another one starts; the answers come from a record of the
    environment. A call of a listener is recorded as an effect: what the
    listener then does is its own business (it returns normally and does
    not call back into the client). Console output is left out. *)

From Stdlib Require Import ZArith NArith Ascii String List Bool Lia.
From stdpp Require Import base option list gmap strings pretty fin_maps.

Local Open Scope string_scope.
Local Open Scope list_scope.

(** ** JavaScript primitives used by the client *)

Module Js.

(** Truthiness of a string value: only the empty string is falsy. *)
Definition truthy (s : string) : bool :=
  match s with EmptyString => false | _ => true end.

(** Truthiness of a possibly absent ([null]/[undefined]) string. *)
Definition truthy_opt (o : option string) : bool :=
  match o with Some s => truthy s | None => false end.

(** [a || b] on strings, [a] possibly absent. *)
Definition or_else (o : option string) (d : string) : string :=
  match o with
  | Some s => if truthy s then s else d
  | None => d
  end.

(** [s.startsWith(p)] *)
Fixpoint startsWith (p s : string) : bool :=
  match p, s with
  | EmptyString, _ => true
  | String a p', String b s' => if Ascii.eqb a b then startsWith p' s' else false
  | String _ _, EmptyString => false
  end.

(** [s.substring(n)] for [n] within the string or past its end. *)
Fixpoint substring_from (n : nat) (s : string) : string :=
  match n, s with
  | O, _ => s
  | S n', String _ s' => substring_from n' s'
  | S _, EmptyString => EmptyString
  end.

(** [s.split(c)] for a one-character separator: every separator cuts,
    so consecutive separators give empty pieces. *)
Fixpoint split (c : ascii) (s : string) : list string :=
  match s with
  | EmptyString => [EmptyString]
  | String a s' =>
      if Ascii.eqb a c then EmptyString :: split c s'
      else match split c s' with
           | x :: xs => String a x :: xs
           | [] => [String a EmptyString]
           end
  end.

(** White space removed by [trim]: the WhiteSpace and LineTerminator code
    points of the language. A string is the UTF-8 text of the JavaScript
    string, so a code point is one to three bytes here: TAB, LF, VT, FF, CR
    and SPACE; U+00A0; U+1680, U+2000 to U+200A, U+2028, U+2029, U+202F,
    U+205F, U+3000 and U+FEFF. *)
Definition is_space (c : ascii) : bool :=
  let n := nat_of_ascii c in
  ((9 <=? n)%nat && (n <=? 13)%nat) || (n =? 32)%nat.

Definition is_space2 (a b : ascii) : bool :=
  (nat_of_ascii a =? 194)%nat && (nat_of_ascii b =? 160)%nat.

Definition is_space3 (a b c : ascii) : bool :=
  let x := nat_of_ascii a in
  let y := nat_of_ascii b in
  let z := nat_of_ascii c in
  ((x =? 225)%nat && (y =? 154)%nat && (z =? 128)%nat)
  || ((x =? 226)%nat && (y =? 128)%nat
      && (((128 <=? z)%nat && (z <=? 138)%nat)
          || (z =? 168)%nat || (z =? 169)%nat || (z =? 175)%nat))
  || ((x =? 226)%nat && (y =? 129)%nat && (z =? 159)%nat)
  || ((x =? 227)%nat && (y =? 128)%nat && (z =? 128)%nat)
  || ((x =? 239)%nat && (y =? 187)%nat && (z =? 191)%nat).

Fixpoint trim_start (s : string) : string :=
  match s with
  | EmptyString => EmptyString
  | String a s1 =>
      if is_space a then trim_start s1
      else
        match s1 with
        | String b s2 =>
            if is_space2 a b then trim_start s2
            else
              match s2 with
              | String c s3 => if is_space3 a b c then trim_start s3 else s
              | EmptyString => s
              end
        | EmptyString => s
        end
  end.

(** The same from the end, on the bytes in reverse order. *)
Fixpoint trim_reversed (l : list ascii) : list ascii :=
  match l with
  | [] => []
  | c :: l1 =>
      if is_space c then trim_reversed l1
      else
        match l1 with
        | b :: l2 =>
            if is_space2 b c then trim_reversed l2
            else
              match l2 with
              | a :: l3 => if is_space3 a b c then trim_reversed l3 else l
              | [] => l
              end
        | [] => l
        end
  end.

Definition trim_end (s : string) : string :=
  string_of_list_ascii (rev (trim_reversed (rev (list_ascii_of_string s)))).

Definition trim (s : string) : string := trim_end (trim_start s).

(** [\d]: an ASCII decimal digit. *)
Definition is_digit (c : ascii) : bool :=
  let n := nat_of_ascii c in (48 <=? n)%nat && (n <=? 57)%nat.

Definition digit_value (c : ascii) : N := N.of_nat (nat_of_ascii c - 48).

(** [parseInt(s, 10)] on a string of decimal digits. The value is kept
    exact; a double rounds above [2^53], which no comparison made by the
    client (against 100 and 1000) can observe. *)
Fixpoint parseInt_acc (acc : N) (s : string) : N :=
  match s with
  | EmptyString => acc
  | String c s' => parseInt_acc (10 * acc + digit_value c) s'
  end.

Definition parseInt (s : string) : N := parseInt_acc 0 s.

(** The longest prefix of digits, and what follows it. *)
Fixpoint span_digits (s : string) : string * string :=
  match s with
  | String c s' =>
      if is_digit c then
        let '(d, r) := span_digits s' in (String c d, r)
      else (EmptyString, s)
  | EmptyString => (EmptyString, EmptyString)
  end.

(** JavaScript numbers as far as [sendRoll] meets them: integers, the two
    infinities ([Math.max()] and [Math.min()] of nothing) and NaN. *)
Inductive num := Fin (z : Z) | PosInf | NegInf | NaN.

Definition max2 (a : num) (z : Z) : num :=
  match a with
  | Fin x => Fin (Z.max x z)
  | PosInf => PosInf
  | NegInf => Fin z
  | NaN => NaN
  end.

Definition min2 (a : num) (z : Z) : num :=
  match a with
  | Fin x => Fin (Z.min x z)
  | PosInf => Fin z
  | NegInf => NegInf
  | NaN => NaN
  end.

(** [Math.max(...l)] and [Math.min(...l)] *)
Definition math_max (l : list Z) : num := fold_left max2 l NegInf.
Definition math_min (l : list Z) : num := fold_left min2 l PosInf.

(** [x % 2 === 0]; the remainder of an infinity is NaN, which is not 0. *)
Definition rem2_is_zero (x : num) : bool :=
  match x with
  | Fin z => (Z.rem z 2 =? 0)%Z
  | _ => false
  end.

(** Decimal rendering of an integer, as [String(n)] and [join] do. *)
Definition show_Z (z : Z) : string := pretty z.

(** [l.join(sep)] on numbers *)
Fixpoint join (sep : string) (l : list Z) : string :=
  match l with
  | [] => ""
  | [x] => show_Z x
  | x :: xs => show_Z x +:+ sep +:+ join sep xs
  end.

(** *** [Math.random() * sides], in IEEE-754 double arithmetic

    [Math.random()] returns a double in [[0, 1)]; engines produce
    multiples of [2^-53] (or coarser), so a value is represented by its
    numerator [p < 2^53]. The product with an integer [sides] is the
    exact product [p * sides / 2^53] rounded to 53 significant bits, ties
    to even. *)
Definition two53 : N := 2 ^ 53.

Definition round53 (x : N) : N :=
  if (x <? two53)%N then x
  else
    let k := (N.log2 x - 52)%N in
    let q := (x / 2 ^ k)%N in
    let r := (x mod 2 ^ k)%N in
    let half := (2 ^ (k - 1))%N in
    let q' := if (half <? r)%N || ((r =? half)%N && N.odd q) then (q + 1)%N else q in
    (q' * 2 ^ k)%N.

(** [Math.floor(r * sides)] for [r = p / 2^53] *)
Definition floor_mul (p sides : N) : N := (round53 (p * sides) / two53)%N.

End Js.

(** ** Dice engine *)

Record RollResult := { rolls : list Z; total : Z }.

(** [notation.match(/^(\d+)d(\d+)$/)]: the two captured digit strings. Both
    groups are greedy and what follows the first one is the letter d, so
    the match, when there is one, is unique. *)
Definition match_notation (notation : string) : option (string * string) :=
  let '(a, rest) := Js.span_digits notation in
  match a, rest with
  | String _ _, String "d" rest' =>
      let '(b, tail) := Js.span_digits rest' in
      match b, tail with
      | String _ _, EmptyString => Some (a, b)
      | _, _ => None
      end
  | _, _ => None
  end.

(** The source of randomness: the numerator of the [i]-th value returned by
    [Math.random()] (reduced below [2^53]). *)
Definition Rng := nat -> N.

Definition random_numerator (rng : Rng) (i : nat) : N := (rng i mod Js.two53)%N.

(** [Array(count).fill(0).map(() => Math.floor(Math.random() * sides) + 1)] *)
Definition roll_values (rng : Rng) (count : nat) (sides : N) : list Z :=
  map (fun i => (Z.of_N (Js.floor_mul (random_numerator rng i) sides) + 1)%Z)
      (seq 0 count).

Definition rollDice (rng : Rng) (notation : string) : option RollResult :=
  match match_notation notation with
  | None => None
  | Some (c, s) =>
      let count := Js.parseInt c in
      let sides := Js.parseInt s in
      if (100 <? count)%N || (1000 <? sides)%N then None
      else
        let rs := roll_values rng (N.to_nat count) sides in
        Some {| rolls := rs; total := fold_left Z.add rs 0%Z |}
  end.

(** The notation denotes [count] dice of [sides] sides. *)
Definition parse_notation (notation : string) : option (N * N) :=
  match match_notation notation with
  | Some (c, s) => Some (Js.parseInt c, Js.parseInt s)
  | None => None
  end.


(** ** Data model *)

(** A cached or published message: the plain object built by the send
    methods, the history loader and the live listener. Fields that the
    object may lack are options; a flag ([historical], [self], [redacted],
    [important]) that the object lacks is [false], which is how every test
    of the client reads it. *)
Record Message := {
  m_id : string;
  m_sender : option string;
  m_roomId : string;
  m_text : string;
  m_type : string;
  m_powerLevel : Z;
  m_timestamp : Z;
  m_historical : bool;
  m_self : bool;
  m_redacted : bool;
  m_important : bool;
  m_dice : option string;
  m_rolls : option (list Z);
  m_hits : option Z;
  m_highEvenOdd : option string;
  m_lowEvenOdd : option string;
  m_username : option string;
  m_sceneName : option string;
  m_sceneType : option string
}.

(** [{ ...msg, redacted: true }] *)
Definition set_redacted (m : Message) : Message :=
  {| m_id := m_id m; m_sender := m_sender m; m_roomId := m_roomId m;
     m_text := m_text m; m_type := m_type m; m_powerLevel := m_powerLevel m;
     m_timestamp := m_timestamp m; m_historical := m_historical m;
     m_self := m_self m; m_redacted := true; m_important := m_important m;
     m_dice := m_dice m; m_rolls := m_rolls m; m_hits := m_hits m;
     m_highEvenOdd := m_highEvenOdd m; m_lowEvenOdd := m_lowEvenOdd m;
     m_username := m_username m; m_sceneName := m_sceneName m;
     m_sceneType := m_sceneType m |}.

(** The structured payload: [content.formatted_body]. *)
Record FormattedBody := {
  fb_type : option string;
  fb_dice : option string;
  fb_rolls : option (list Z);
  fb_hits : option Z;
  fb_highEvenOdd : option string;
  fb_lowEvenOdd : option string;
  fb_username : option string;
  fb_sceneName : option string;
  fb_sceneType : option string
}.

(** The content of an [m.room.message] event. *)
Record Content := {
  msgtype : option string;
  body : string;
  format : option string;
  formatted_body : option FormattedBody
}.

(** A protocol event as the client reads it: [getId], [getType],
    [isRedacted], [getSender], [getTs], [getContent], [getAssociatedId]. *)
Record MatrixEvent := {
  ev_id : string;
  ev_type : string;
  ev_redacted : bool;
  ev_sender : string;
  ev_ts : Z;
  ev_content : Content;
  ev_associatedId : option string
}.

(** [m.room.power_levels] as far as it is read: [powerLevels.users],
    which the content of the state event may lack. *)
Record PowerLevels := { pl_users : option (gmap string Z) }.

(** [roomState[roomId]]: member id to power level, and the raw levels. *)
Record RoomState := {
  rs_members : gmap string Z;
  rs_powerLevels : PowerLevels
}.

(** An exception value, as far as the handlers read it. *)
Record JsError := {
  err_name : string;
  errcode : option string;
  retry_after_ms : option N;
  err_message : option string
}.

Definition TypeError (msg : string) : JsError :=
  {| err_name := "TypeError"; errcode := None; retry_after_ms := None;
     err_message := Some msg |}.

(** A listener callback, known by its identity only. *)
Definition Handler := nat.

(** What a listener receives. *)
Inductive Payload :=
| PMessage (m : Message)
| PSystem (sender : option string) (roomId text : string) (temporary important : bool)
| PError (context message : string)
| PRoomJoin (roomId : string) (name : string)
| PRoomState (roomId : string) (state : RoomState)
| PUndefined.

(** Requests made to the protocol client library. *)
Inductive Request :=
| ReqLogin (username password : string)
| ReqStartClient
| ReqStopClient
| ReqJoinRoom (roomIdOrAlias : string) (inviteCode : option string)
| ReqStateEvent (roomId : string)
| ReqJoinedMembers (roomId : string)
| ReqMessages (roomId : string) (limit : N)
| ReqSendEvent (roomId : string) (content : Content)
| ReqRedact (roomId eventId : string)
| ReqLeave (roomId : string).

(** Observable effects, in the order they happen. *)
Inductive Effect :=
| Invoke (h : Handler) (event : string) (data : Payload)
| Net (r : Request)
| Sleep (ms : N).

(** The client object, together with the two browser stores it owns. The
    slot [matrixMessageCache] of the local store holds the serialised
    cache; it is kept apart from the string slots, already parsed.
    [client] tells whether [this.client] holds a protocol client. The keys
    of [roomState], [messageCache] and of the member maps are identifiers
    of the protocol (a room id starts with an exclamation mark, a user id
    with an at sign), so a read of them finds own properties only; the
    keys of [listeners] are whatever the caller of [on] and [off] passes. *)
Record Client := {
  client : bool;
  room : option string;
  listeners : gmap string (list Handler);
  roomState : gmap string RoomState;
  userId : option string;
  messageCache : gmap string (list Message);
  isLoadingHistory : bool;
  historyLoaded : bool;
  localStorage : gmap string string;
  storedCache : option (gmap string (list Message));
  sessionStorage : gmap string string
}.

Definition with_client (v : bool) (c : Client) : Client :=
  {| client := v; room := room c; listeners := listeners c;
     roomState := roomState c; userId := userId c;
     messageCache := messageCache c; isLoadingHistory := isLoadingHistory c;
     historyLoaded := historyLoaded c; localStorage := localStorage c;
     storedCache := storedCache c; sessionStorage := sessionStorage c |}.

Definition with_room (v : option string) (c : Client) : Client :=
  {| client := client c; room := v; listeners := listeners c;
     roomState := roomState c; userId := userId c;
     messageCache := messageCache c; isLoadingHistory := isLoadingHistory c;
     historyLoaded := historyLoaded c; localStorage := localStorage c;
     storedCache := storedCache c; sessionStorage := sessionStorage c |}.

Definition with_listeners (v : gmap string (list Handler)) (c : Client) : Client :=
  {| client := client c; room := room c; listeners := v;
     roomState := roomState c; userId := userId c;
     messageCache := messageCache c; isLoadingHistory := isLoadingHistory c;
     historyLoaded := historyLoaded c; localStorage := localStorage c;
     storedCache := storedCache c; sessionStorage := sessionStorage c |}.

Definition with_roomState (v : gmap string RoomState) (c : Client) : Client :=
  {| client := client c; room := room c; listeners := listeners c;
     roomState := v; userId := userId c;
     messageCache := messageCache c; isLoadingHistory := isLoadingHistory c;
     historyLoaded := historyLoaded c; localStorage := localStorage c;
     storedCache := storedCache c; sessionStorage := sessionStorage c |}.

Definition with_userId (v : option string) (c : Client) : Client :=
  {| client := client c; room := room c; listeners := listeners c;
     roomState := roomState c; userId := v;
     messageCache := messageCache c; isLoadingHistory := isLoadingHistory c;
     historyLoaded := historyLoaded c; localStorage := localStorage c;
     storedCache := storedCache c; sessionStorage := sessionStorage c |}.

Definition with_messageCache (v : gmap string (list Message)) (c : Client) : Client :=
  {| client := client c; room := room c; listeners := listeners c;
     roomState := roomState c; userId := userId c;
     messageCache := v; isLoadingHistory := isLoadingHistory c;
     historyLoaded := historyLoaded c; localStorage := localStorage c;
     storedCache := storedCache c; sessionStorage := sessionStorage c |}.

Definition with_isLoadingHistory (v : bool) (c : Client) : Client :=
  {| client := client c; room := room c; listeners := listeners c;
     roomState := roomState c; userId := userId c;
     messageCache := messageCache c; isLoadingHistory := v;
     historyLoaded := historyLoaded c; localStorage := localStorage c;
     storedCache := storedCache c; sessionStorage := sessionStorage c |}.

Definition with_historyLoaded (v : bool) (c : Client) : Client :=
  {| client := client c; room := room c; listeners := listeners c;
     roomState := roomState c; userId := userId c;
     messageCache := messageCache c; isLoadingHistory := isLoadingHistory c;
     historyLoaded := v; localStorage := localStorage c;
     storedCache := storedCache c; sessionStorage := sessionStorage c |}.

Definition with_localStorage (v : gmap string string) (c : Client) : Client :=
  {| client := client c; room := room c; listeners := listeners c;
     roomState := roomState c; userId := userId c;
     messageCache := messageCache c; isLoadingHistory := isLoadingHistory c;
     historyLoaded := historyLoaded c; localStorage := v;
     storedCache := storedCache c; sessionStorage := sessionStorage c |}.

Definition with_storedCache (v : option (gmap string (list Message))) (c : Client) : Client :=
  {| client := client c; room := room c; listeners := listeners c;
     roomState := roomState c; userId := userId c;
     messageCache := messageCache c; isLoadingHistory := isLoadingHistory c;
     historyLoaded := historyLoaded c; localStorage := localStorage c;
     storedCache := v; sessionStorage := sessionStorage c |}.

Definition with_sessionStorage (v : gmap string string) (c : Client) : Client :=
  {| client := client c; room := room c; listeners := listeners c;
     roomState := roomState c; userId := userId c;
     messageCache := messageCache c; isLoadingHistory := isLoadingHistory c;
     historyLoaded := historyLoaded c; localStorage := localStorage c;
     storedCache := storedCache c; sessionStorage := v |}.

(** ** The environment: protocol library, storage quota, clock, randomness *)

Inductive Reply (A : Type) :=
| Resolved (a : A)
| Rejected (e : JsError).
Arguments Resolved {A} a.
Arguments Rejected {A} e.

Record LoginResponse := { user_id : string; access_token : string }.
Record RoomInfo := { ri_roomId : string; ri_name : string }.

(** The answer to [createMessagesRequest]: [chunk] and the [end] token.
    The events of a chunk are taken as the event mapper returns them. *)
Record Page := { chunk : option (list MatrixEvent); page_end : option string }.

(** What [localStorage.setItem] does with the serialised cache. *)
Inductive SaveOutcome := Stored | QuotaExceeded | StorageFailure.

(** Every answer the outside world gives. Each request of one operation is
    answered by the matching field; the successive answers to
    [createMessagesRequest] form a script, consumed one per request. A
    write to a browser store can fail on storage capacity: [setItem]
    answers the write of the cache slot, [storeItem] the write of a string
    slot of the local store and [storeSessionItem] the write of a slot of
    the session store, each with the exception it throws, if any. *)
Record Sdk := {
  loginWithPassword : string -> string -> Reply LoginResponse;
  startClient : Reply unit;
  sdk_joinRoom : string -> option string -> Reply RoomInfo;
  getStateEvent : string -> Reply PowerLevels;
  getJoinedRoomMembers : string -> Reply (list string);
  getRoom : string -> option (list MatrixEvent);
  createMessagesRequest : list (Reply (option Page));
  sendEvent : string -> Content -> Reply string;
  redactEvent : string -> string -> Reply unit;
  leave : string -> Reply unit;
  setItem : gmap string (list Message) -> SaveOutcome;
  storeItem : string -> string -> option JsError;
  storeSessionItem : string -> string -> option JsError;
  random : Rng;
  now : Z
}.

(** ** A monad for methods: state, exceptions and an effect trace *)

Inductive Outcome (A : Type) :=
| Ret (a : A)
| Throw (e : JsError)
| Pending.
Arguments Ret {A} a.
Arguments Throw {A} e.
Arguments Pending {A}.

(** [Pending]: the script of server answers ran out, the awaited promise
    never settles. No handler catches it. *)
Definition M (A : Type) : Type := Client -> Outcome A * Client * list Effect.

Definition ret {A} (a : A) : M A := fun c => (Ret a, c, []).

Definition bind {A B} (m : M A) (k : A -> M B) : M B := fun c =>
  match m c with
  | (Ret a, c1, t1) => let '(o, c2, t2) := k a c1 in (o, c2, t1 ++ t2)
  | (Throw e, c1, t1) => (Throw e, c1, t1)
  | (Pending, c1, t1) => (Pending, c1, t1)
  end.

#[export] Instance M_ret : MRet M := @ret.
#[export] Instance M_bind : MBind M := fun A B k m => bind m k.
#[export] Instance M_fmap : FMap M := fun A B f m => bind m (fun a => ret (f a)).

Definition throw {A} (e : JsError) : M A := fun c => (Throw e, c, []).
Definition pending {A} : M A := fun c => (Pending, c, []).

(** [try { m } catch (error) { h error }] *)
Definition try_catch {A} (m : M A) (h : JsError -> M A) : M A := fun c =>
  match m c with
  | (Throw e, c1, t1) => let '(o, c2, t2) := h e c1 in (o, c2, t1 ++ t2)
  | r => r
  end.

Definition get : M Client := fun c => (Ret c, c, []).
Definition modify (f : Client -> Client) : M unit := fun c => (Ret tt, f c, []).
Definition emit (e : Effect) : M unit := fun c => (Ret tt, c, [e]).

(** [await] of a library call: the request goes out, the reply comes back
    or is thrown. *)
Definition await {A} (req : Request) (r : Reply A) : M A :=
  emit (Net req) ;;
  match r with
  | Resolved a => mret a
  | Rejected e => throw e
  end.

(** [l.forEach(f)] *)
Fixpoint forEach {A} (f : A -> M unit) (l : list A) : M unit :=
  match l with
  | [] => mret tt
  | x :: l' => f x ;; forEach f l'
  end.

(** ** Event bus *)

(** The names of the listener table built by the constructor. *)
Definition listener_names : list string :=
  ["message"; "roll"; "login"; "error"; "roomJoin"; "roomLeave";
   "roomState"; "scene"; "narrate"].

Definition initial_listeners : gmap string (list Handler) :=
  list_to_map (map (fun n => (n, [])) listener_names).

(** The table is an object literal, so a property read also finds what
    [Object.prototype] provides; each of these is a function (or, for
    [__proto__], the prototype object): truthy, and not an array. *)
Definition object_prototype_members : list string :=
  ["constructor"; "__defineGetter__"; "__defineSetter__"; "hasOwnProperty";
   "__lookupGetter__"; "__lookupSetter__"; "isPrototypeOf";
   "propertyIsEnumerable"; "toString"; "valueOf"; "__proto__";
   "toLocaleString"].

(** The value of [this.listeners[event]]. *)
Inductive Slot :=
| SlotArray (hs : list Handler)
| SlotInherited
| SlotUndefined.

Definition listeners_get (ls : gmap string (list Handler)) (event : string) : Slot :=
  match ls !! event with
  | Some hs => SlotArray hs
  | None =>
      if bool_decide (event ∈ object_prototype_members) then SlotInherited
      else SlotUndefined
  end.

Definition on (event : string) (callback : Handler) : M Client :=
  c ← get;
  match listeners_get (listeners c) event with
  | SlotArray hs =>
      modify (with_listeners (<[event := hs ++ [callback]]> (listeners c))) ;;
      get
  | SlotInherited => throw (TypeError "this.listeners[event].push is not a function")
  | SlotUndefined => get
  end.

Definition off (event : string) (callback : Handler) : M Client :=
  c ← get;
  match listeners_get (listeners c) event with
  | SlotArray hs =>
      modify (with_listeners
                (<[event := filter (fun cb => cb ≠ callback) hs]> (listeners c))) ;;
      get
  | SlotInherited => throw (TypeError "this.listeners[event].filter is not a function")
  | SlotUndefined => get
  end.

Definition _triggerEvent (event : string) (data : Payload) : M unit :=
  c ← get;
  match listeners_get (listeners c) event with
  | SlotArray hs => forEach (fun callback => emit (Invoke callback event data)) hs
  | SlotInherited => throw (TypeError "this.listeners[event].forEach is not a function")
  | SlotUndefined => mret tt
  end.

(** ** Persistent cache *)

(** [messages.slice(messages.length - 1000)] when there are more than 1000 *)
Definition prune_room (messages : list Message) : list Message :=
  if (1000 <? length messages)%nat
  then drop (length messages - 1000) messages
  else messages.

Definition prune_step (cache : gmap string (list Message)) (roomId : string)
  : gmap string (list Message) :=
  match cache !! roomId with
  | Some messages =>
      if (1000 <? length messages)%nat
      then <[roomId := drop (length messages - 1000) messages]> cache
      else cache
  | None => cache
  end.

(** [Object.keys(cache).forEach(...)] on the cache value *)
Definition prune (cache : gmap string (list Message)) : gmap string (list Message) :=
  fold_left prune_step (elements (dom cache)) cache.

Definition _pruneMessageCache : M unit :=
  modify (fun c => with_messageCache (prune (messageCache c)) c).

Definition _getMessageCache (roomId : string) : M (list Message) :=
  c ← get; mret (default [] (messageCache c !! roomId)).

(** [messages.some(m => m.id === id)] *)
Definition has_id (id : string) (messages : list Message) : bool :=
  existsb (fun m => String.eqb (m_id m) id) messages.

(** [cache[roomId] = cache[roomId].map(msg => msg.id === id ? {...msg, redacted: true} : msg)] *)
Definition mark_room (id : string) (messages : list Message) : list Message :=
  map (fun msg => if String.eqb (m_id msg) id then set_redacted msg else msg) messages.

Section Operations.

Variable sdk : Sdk.

Definition _saveMessageCache : M unit :=
  c ← get;
  match setItem sdk (messageCache c) with
  | Stored => modify (with_storedCache (Some (messageCache c)))
  | QuotaExceeded =>
      _pruneMessageCache ;;
      c' ← get;
      match setItem sdk (messageCache c') with
      | Stored => modify (with_storedCache (Some (messageCache c')))
      | _ => mret tt
      end
  | StorageFailure => mret tt
  end.

Definition _addMessageToCache (roomId : string) (message : Message) : M unit :=
  c ← get;
  (match messageCache c !! roomId with
   | Some _ => mret tt
   | None => modify (with_messageCache (<[roomId := []]> (messageCache c)))
   end) ;;
  c ← get;
  let messages := default [] (messageCache c !! roomId) in
  if has_id (m_id message) messages then mret tt
  else
    modify (with_messageCache (<[roomId := messages ++ [message]]> (messageCache c))) ;;
    _saveMessageCache.

(** The redaction mark of the live listener, of [deleteLastMessage] and
    of [clearAllMessages]: applied when the room has a cache entry. *)
Definition markRedacted (roomId id : string) : M unit :=
  c ← get;
  match messageCache c !! roomId with
  | Some messages =>
      modify (with_messageCache (<[roomId := mark_room id messages]> (messageCache c)))
  | None => mret tt
  end.

(** ** History loader *)

Definition _processHistoricalMessage (msg : Message) : M unit :=
  c ← get;
  if isLoadingHistory c && negb (m_important msg) then mret tt
  else if String.eqb (m_type msg) "roll" then _triggerEvent "roll" (PMessage msg)
  else if String.eqb (m_type msg) "scene" then _triggerEvent "scene" (PMessage msg)
  else _triggerEvent "message" (PMessage msg).

(** The power level recorded for a member of a room, 0 when unknown. *)
Definition member_powerLevel (c : Client) (roomId sender : string) : Z :=
  match roomState c !! roomId with
  | Some rs => default 0%Z (rs_members rs !! sender)
  | None => 0%Z
  end.

(** [content.formatted_body?.type || 'chat'] *)
Definition messageType_of (content : Content) : string :=
  Js.or_else (formatted_body content ≫= fb_type) "chat".

Definition custom_format : string := "org.matrix.custom.rpg".

Definition has_custom_format (content : Content) : bool :=
  bool_decide (format content = Some custom_format).

(** The message object of [processEvents], type-specific fields included. *)
Definition historical_message (c : Client) (roomId : string) (event : MatrixEvent)
  : Message :=
  let content := ev_content event in
  let sender := ev_sender event in
  let messageType := messageType_of content in
  let fb (f : FormattedBody -> option string) := formatted_body content ≫= f in
  let is_roll := String.eqb messageType "roll" && has_custom_format content in
  let is_scene := negb is_roll && String.eqb messageType "scene"
                  && has_custom_format content in
  {| m_id := ev_id event; m_sender := Some sender; m_roomId := roomId;
     m_text := body content; m_type := messageType;
     m_powerLevel := member_powerLevel c roomId sender;
     m_timestamp := ev_ts event; m_historical := true;
     m_self := false; m_redacted := false; m_important := false;
     m_dice := if is_roll then fb fb_dice else None;
     m_rolls := if is_roll then formatted_body content ≫= fb_rolls else None;
     m_hits := if is_roll then formatted_body content ≫= fb_hits else None;
     m_highEvenOdd := if is_roll then fb fb_highEvenOdd else None;
     m_lowEvenOdd := if is_roll then fb fb_lowEvenOdd else None;
     m_username := if is_roll then fb fb_username else None;
     m_sceneName := if is_scene then fb fb_sceneName else None;
     m_sceneType := if is_scene then fb fb_sceneType else None |}.

(** One turn of the [events.forEach] of [processEvents]; the accumulator is
    the [processedEvents] set and the [newEvents] counter. *)
Definition processEvent (roomId : string) (acc : gset string * nat)
    (event : MatrixEvent) : M (gset string * nat) :=
  let '(processedEvents, newEvents) := acc in
  let eventId := ev_id event in
  if bool_decide (eventId ∈ processedEvents) || ev_redacted event then mret acc
  else
    let processedEvents := {[eventId]} ∪ processedEvents in
    if String.eqb (ev_type event) "m.room.message" then
      c ← get;
      let messageObj := historical_message c roomId event in
      _addMessageToCache roomId messageObj ;;
      _processHistoricalMessage messageObj ;;
      mret (processedEvents, S newEvents)
    else mret (processedEvents, newEvents).

Fixpoint processEvents_from (roomId : string) (acc : gset string * nat)
    (events : list MatrixEvent) : M (gset string * nat) :=
  match events with
  | [] => mret acc
  | event :: rest =>
      acc' ← processEvent roomId acc event;
      processEvents_from roomId acc' rest
  end.

(** [processEvents(events)]: the new [processedEvents] set and the number
    of new events. *)
Definition processEvents (roomId : string) (processedEvents : gset string)
    (events : list MatrixEvent) : M (gset string * nat) :=
  processEvents_from roomId (processedEvents, 0) events.

Definition system_message (roomId text : string) (temporary : bool) : M unit :=
  _triggerEvent "message" (PSystem (Some "system") roomId text temporary false).

(** [error.data?.retry_after_ms || 5000] *)
Definition retryAfter (error : JsError) : N :=
  match retry_after_ms error with
  | Some 0%N => 5000
  | Some n => n
  | None => 5000
  end.

Definition is_rate_limit (error : JsError) : bool :=
  bool_decide (errcode error = Some "M_LIMIT_EXCEEDED").

(** [paginateBackward(limit = 100)]. The recursion follows the script of
    server answers: each call takes the next one. *)
Fixpoint paginateBackward (script : list (Reply (option Page))) (roomId : string)
    (processedEvents : gset string) : M bool :=
  match script with
  | [] => emit (Net (ReqMessages roomId 100)) ;; pending
  | reply :: script' =>
      try_catch
        (response ← await (ReqMessages roomId 100) reply;
         match response ≫= chunk with
         | None | Some [] =>
             system_message roomId "All message history loaded" true ;;
             mret false
         | Some events =>
             '(processedEvents', newEvents) ← processEvents roomId processedEvents events;
             if Js.truthy_opt (response ≫= page_end) && (0 <? newEvents)%nat then
               emit (Sleep 500) ;;
               paginateBackward script' roomId processedEvents'
             else mret false
         end)
        (fun error =>
           if is_rate_limit error then
             emit (Sleep (retryAfter error)) ;;
             paginateBackward script' roomId processedEvents
           else
             system_message roomId
               ("Couldn't load more history: "
                  +:+ Js.or_else (err_message error) "Unknown error") true ;;
             mret false)
  end.

Definition _loadRoomHistory (roomId : string) : M bool :=
  c ← get;
  if negb (client c) then mret false
  else
    try_catch
      (match getRoom sdk roomId with
       | None => mret false
       | Some timeline =>
           system_message roomId "Loading message history..." false ;;
           '(processedEvents, _) ← processEvents roomId ∅ timeline;
           paginateBackward (createMessagesRequest sdk) roomId processedEvents ;;
           mret true
       end)
      (fun error =>
         system_message roomId
           ("Error loading history: "
              +:+ Js.or_else (err_message error) "Unknown error") true ;;
         mret false).

(** ** Room state tracker *)

Definition error_event (context message : string) : M unit :=
  _triggerEvent "error" (PError context message).

(** [members.forEach(...)]: each joined member gets
    [powerLevels.users[userId] || 0]. *)
Definition member_levels (users : gmap string Z) (members : list string)
  : gmap string Z :=
  fold_left
    (fun acc userId => <[userId := default 0%Z (users !! userId)]> acc)
    members ∅.

(** The exception of [powerLevels.users[userId]] when [users] is
    undefined (the wording is the engine's). *)
Definition users_undefined (userId : string) : JsError :=
  TypeError ("Cannot read properties of undefined (reading '" +:+ userId +:+ "')").

(** The state of the room is replaced by one without members first; the
    loop over the joined members then fills them in, and throws at the
    first member when the power levels have no [users]. *)
Definition _updateRoomState (roomId : string) : M (option RoomState) :=
  try_catch
    (powerLevels ← await (ReqStateEvent roomId) (getStateEvent sdk roomId);
     members ← await (ReqJoinedMembers roomId) (getJoinedRoomMembers sdk roomId);
     c ← get;
     modify (with_roomState
               (<[roomId := {| rs_members := ∅; rs_powerLevels := powerLevels |}]>
                  (roomState c))) ;;
     match pl_users powerLevels, members with
     | None, userId :: _ => throw (users_undefined userId)
     | None, [] =>
         let state := {| rs_members := ∅; rs_powerLevels := powerLevels |} in
         _triggerEvent "roomState" (PRoomState roomId state) ;;
         mret (Some state)
     | Some users, _ =>
         let state := {| rs_members := member_levels users members;
                         rs_powerLevels := powerLevels |} in
         modify (with_roomState (<[roomId := state]> (roomState c))) ;;
         _triggerEvent "roomState" (PRoomState roomId state) ;;
         mret (Some state)
     end)
    (fun error =>
       error_event "roomState"
         (Js.or_else (err_message error) "Failed to update room state") ;;
       mret None).

(** ** Authentication and room management *)

(** [localStorage.setItem(k, v)]: throws when the store refuses the
    write. *)
Definition storage_set (k v : string) : M unit :=
  match storeItem sdk k v with
  | None => modify (fun c => with_localStorage (<[k := v]> (localStorage c)) c)
  | Some error => throw error
  end.

Definition storage_remove (k : string) : M unit :=
  modify (fun c => with_localStorage (delete k (localStorage c)) c).

Definition clear_credentials : M unit :=
  storage_remove "matrixAccessToken" ;;
  storage_remove "matrixUserId" ;;
  storage_remove "matrixUsername" ;;
  storage_remove "matrixPassword" ;;
  storage_remove "matrixRoom".

(** The value a command resolves to: a boolean, the login record
    [{ success, userId }], or the logout record
    [{ success: false, logout: true }]. *)
Inductive CmdResult :=
| RBool (b : bool)
| RLogin (success : bool) (uid : option string)
| RLogout.

Definition login (username password : string) : M CmdResult :=
  try_catch
    (modify (with_client true) ;;
     loginResponse ← await (ReqLogin username password)
                           (loginWithPassword sdk username password);
     modify (with_userId (Some (user_id loginResponse))) ;;
     storage_set "matrixAccessToken" (access_token loginResponse) ;;
     storage_set "matrixUserId" (user_id loginResponse) ;;
     storage_set "matrixUsername" username ;;
     storage_set "matrixPassword" password ;;
     await ReqStartClient (startClient sdk) ;;
     c ← get;
     modify (with_room (localStorage c !! "matrixRoom")) ;;
     mret (RLogin true (Some (user_id loginResponse))))
    (fun error =>
       error_event "login" (Js.or_else (err_message error) "Login failed") ;;
       mret (RLogin false None)).

Definition logout : M unit :=
  c ← get;
  (if client c then emit (Net ReqStopClient) ;; modify (with_client false)
   else mret tt) ;;
  clear_credentials ;;
  modify (with_userId None) ;;
  modify (with_room None) ;;
  modify (with_roomState ∅).

Definition joinRoom (roomIdOrAlias : string) (inviteCode : option string) : M bool :=
  c ← get;
  if negb (client c) then
    error_event "joinRoom" "Not logged in" ;; mret false
  else
    try_catch
      (let joinOptions := if Js.truthy_opt inviteCode then inviteCode else None in
       joined ← await (ReqJoinRoom roomIdOrAlias joinOptions)
                      (sdk_joinRoom sdk roomIdOrAlias joinOptions);
       let roomId := ri_roomId joined in
       modify (with_room (Some roomId)) ;;
       storage_set "matrixRoom" roomId ;;
       _updateRoomState roomId ;;
       cachedMessages ← _getMessageCache roomId;
       forEach _processHistoricalMessage cachedMessages ;;
       modify (with_isLoadingHistory true) ;;
       _loadRoomHistory roomId ;;
       modify (with_isLoadingHistory false) ;;
       modify (with_historyLoaded true) ;;
       _triggerEvent "roomJoin" (PRoomJoin roomId (ri_name joined)) ;;
       mret true)
      (fun error =>
         error_event "joinRoom"
           (Js.or_else (err_message error) "Failed to join room") ;;
         mret false).

(** [!this.client || !this.room] *)
Definition not_ready (c : Client) : bool :=
  negb (client c) || negb (Js.truthy_opt (room c)).

Definition leaveRoom : M bool :=
  c ← get;
  if not_ready c then
    error_event "leaveRoom" "Not in a room or not logged in" ;; mret false
  else
    try_catch
      (await (ReqLeave (default "" (room c))) (leave sdk (default "" (room c))) ;;
       modify (with_room None) ;;
       storage_remove "matrixRoom" ;;
       _triggerEvent "roomLeave" PUndefined ;;
       mret true)
      (fun error =>
         error_event "leaveRoom"
           (Js.or_else (err_message error) "Failed to leave room") ;;
         mret false).

(** The write to the session store is not guarded: when it throws, the
    exception leaves [reset] before the properties are reset. *)
Definition reset : M bool :=
  c ← get;
  (if client c then emit (Net ReqStopClient) else mret tt) ;;
  clear_credentials ;;
  match storeSessionItem sdk "matrixReset" "true" with
  | None =>
      modify (fun c =>
                with_sessionStorage (<["matrixReset" := "true"]> (sessionStorage c)) c)
  | Some error => throw error
  end ;;
  modify (with_client false) ;;
  modify (with_room None) ;;
  modify (with_userId None) ;;
  modify (with_roomState ∅) ;;
  mret true.

Definition clearMessageCache : M bool :=
  modify (with_messageCache ∅) ;;
  modify (with_storedCache None) ;;
  mret true.

(** ** Messaging *)

(** The key under which [this.userId] indexes an object: [null] reads the
    property named "null". *)
Definition userId_key (c : Client) : string := default "null" (userId c).

(** The fields shared by every message object built by a send method. *)
Definition own_message (c : Client) (id roomId text type : string) : Message :=
  {| m_id := id; m_sender := userId c; m_roomId := roomId; m_text := text;
     m_type := type;
     m_powerLevel := member_powerLevel c roomId (userId_key c);
     m_timestamp := now sdk; m_historical := false; m_self := true;
     m_redacted := false; m_important := false;
     m_dice := None; m_rolls := None; m_hits := None;
     m_highEvenOdd := None; m_lowEvenOdd := None; m_username := None;
     m_sceneName := None; m_sceneType := None |}.

Definition plain_body (type : string) : FormattedBody :=
  {| fb_type := Some type; fb_dice := None; fb_rolls := None; fb_hits := None;
     fb_highEvenOdd := None; fb_lowEvenOdd := None; fb_username := None;
     fb_sceneName := None; fb_sceneType := None |}.

Definition rpg_content (text : string) (fb : FormattedBody) : Content :=
  {| msgtype := Some "m.text"; body := text; format := Some custom_format;
     formatted_body := Some fb |}.

Definition sendMessage (text type : string) : M bool :=
  c ← get;
  if not_ready c then
    error_event "sendMessage" "Not in a room or not logged in" ;; mret false
  else
    let roomId := default "" (room c) in
    try_catch
      (let content := rpg_content text (plain_body type) in
       event_id ← await (ReqSendEvent roomId content) (sendEvent sdk roomId content);
       _addMessageToCache roomId (own_message c event_id roomId text type) ;;
       mret true)
      (fun error =>
         error_event "sendMessage"
           (Js.or_else (err_message error) "Failed to send message") ;;
         mret false).

Definition sendScene (sceneName sceneType : string) : M bool :=
  c ← get;
  if not_ready c then
    error_event "sendScene" "Not in a room or not logged in" ;; mret false
  else
    let roomId := default "" (room c) in
    try_catch
      (let fb :=
         {| fb_type := Some "scene"; fb_dice := None; fb_rolls := None;
            fb_hits := None; fb_highEvenOdd := None; fb_lowEvenOdd := None;
            fb_username := None; fb_sceneName := Some sceneName;
            fb_sceneType := Some sceneType |} in
       let content := rpg_content sceneName fb in
       event_id ← await (ReqSendEvent roomId content) (sendEvent sdk roomId content);
       let base := own_message c event_id roomId sceneName "scene" in
       let sceneObj :=
         {| m_id := m_id base; m_sender := m_sender base; m_roomId := m_roomId base;
            m_text := m_text base; m_type := m_type base;
            m_powerLevel := m_powerLevel base; m_timestamp := m_timestamp base;
            m_historical := false; m_self := true; m_redacted := false;
            m_important := false; m_dice := None; m_rolls := None; m_hits := None;
            m_highEvenOdd := None; m_lowEvenOdd := None; m_username := None;
            m_sceneName := Some sceneName; m_sceneType := Some sceneType |} in
       _addMessageToCache roomId sceneObj ;;
       mret true)
      (fun error =>
         error_event "sendScene"
           (Js.or_else (err_message error) "Failed to send scene") ;;
         mret false).

Definition sendNarration (text : string) : M bool :=
  c ← get;
  if not_ready c then
    error_event "sendNarration" "Not in a room or not logged in" ;; mret false
  else
    let roomId := default "" (room c) in
    try_catch
      (let content := rpg_content text (plain_body "narrate") in
       event_id ← await (ReqSendEvent roomId content) (sendEvent sdk roomId content);
       _addMessageToCache roomId (own_message c event_id roomId text "narrate") ;;
       mret true)
      (fun error =>
         error_event "sendNarration"
           (Js.or_else (err_message error) "Failed to send narration") ;;
         mret false).

(** ** Rolls *)

(** [rolls.filter(roll => roll % 2 === 0).length] *)
Definition count_hits (rs : list Z) : Z :=
  Z.of_nat (length (List.filter (fun roll => (Z.rem roll 2 =? 0)%Z) rs)).

(** [x % 2 === 0 ? 'even' : 'odd'] *)
Definition evenOdd (x : Js.num) : string :=
  if Js.rem2_is_zero x then "even" else "odd".

Definition rollText (username notation : string) (rs : list Z) (hits : Z)
    (highEvenOdd lowEvenOdd : string) : string :=
  "🎲 @" +:+ username +:+ " " +:+ notation +:+ ": [" +:+ Js.join "][" rs
    +:+ "] = " +:+ Js.show_Z hits +:+ " hit"
    +:+ (if (hits =? 1)%Z then "" else "s")
    +:+ ", high " +:+ highEvenOdd +:+ ", low " +:+ lowEvenOdd.

Definition sendRoll (notation : string) : M bool :=
  c ← get;
  if not_ready c then
    error_event "sendRoll" "Not in a room or not logged in" ;; mret false
  else
    let roomId := default "" (room c) in
    try_catch
      (match rollDice (random sdk) notation with
       | None => error_event "sendRoll" "Invalid dice notation" ;; mret false
       | Some rollResult =>
           let hits := count_hits (rolls rollResult) in
           let highest := Js.math_max (rolls rollResult) in
           let lowest := Js.math_min (rolls rollResult) in
           let highEvenOdd := evenOdd highest in
           let lowEvenOdd := evenOdd lowest in
           match userId c with
           | None => throw (TypeError "Cannot read properties of null (reading 'split')")
           | Some uid =>
               let username := default "" (head (Js.split ":" uid)) in
               let text := rollText username notation (rolls rollResult) hits
                                    highEvenOdd lowEvenOdd in
               let fb :=
                 {| fb_type := Some "roll"; fb_dice := Some notation;
                    fb_rolls := Some (rolls rollResult); fb_hits := Some hits;
                    fb_highEvenOdd := Some highEvenOdd;
                    fb_lowEvenOdd := Some lowEvenOdd;
                    fb_username := Some username;
                    fb_sceneName := None; fb_sceneType := None |} in
               let content := rpg_content text fb in
               event_id ← await (ReqSendEvent roomId content)
                               (sendEvent sdk roomId content);
               let base := own_message c event_id roomId text "roll" in
               let rollObj :=
                 {| m_id := m_id base; m_sender := m_sender base;
                    m_roomId := m_roomId base; m_text := m_text base;
                    m_type := m_type base; m_powerLevel := m_powerLevel base;
                    m_timestamp := m_timestamp base; m_historical := false;
                    m_self := true; m_redacted := false; m_important := false;
                    m_dice := Some notation; m_rolls := Some (rolls rollResult);
                    m_hits := Some hits; m_highEvenOdd := Some highEvenOdd;
                    m_lowEvenOdd := Some lowEvenOdd; m_username := Some username;
                    m_sceneName := None; m_sceneType := None |} in
               _addMessageToCache roomId rollObj ;;
               mret true
           end
       end)
      (fun error =>
         error_event "sendRoll"
           (Js.or_else (err_message error) "Failed to send roll") ;;
         mret false).

(** ** Redaction *)

Definition is_own_message_event (c : Client) (event : MatrixEvent) : bool :=
  String.eqb (ev_type event) "m.room.message"
  && bool_decide (Some (ev_sender event) = userId c).

(** The backward scan of the timeline: the last event that qualifies. *)
Definition last_own_event (c : Client) (timeline : list MatrixEvent)
  : option MatrixEvent :=
  head (List.filter (is_own_message_event c) (rev timeline)).

(** [sort((a, b) => b.timestamp - a.timestamp)]: newest first, stable. *)
Fixpoint insert_newest_first (m : Message) (l : list Message) : list Message :=
  match l with
  | [] => [m]
  | x :: l' =>
      if (m_timestamp m <? m_timestamp x)%Z then x :: insert_newest_first m l'
      else m :: l
  end.

Definition sort_newest_first (l : list Message) : list Message :=
  foldr insert_newest_first [] l.

Definition last_own_cached (c : Client) (roomId : string) : option string :=
  match messageCache c !! roomId with
  | Some messages =>
      m_id <$> head (sort_newest_first
                       (List.filter (fun msg => bool_decide (m_sender msg = userId c))
                                    messages))
  | None => None
  end.

Definition deleteLastMessage : M bool :=
  c ← get;
  if not_ready c then
    error_event "deleteMessage" "Not in a room or not logged in" ;; mret false
  else
    let roomId := default "" (room c) in
    try_catch
      (match getRoom sdk roomId with
       | None => mret false
       | Some timeline =>
           let lastMessageEvent :=
             match last_own_event c timeline with
             | Some event => Some (ev_id event)
             | None => last_own_cached c roomId
             end in
           match lastMessageEvent with
           | None =>
               error_event "deleteMessage" "No messages found to delete" ;;
               mret false
           | Some eventId =>
               await (ReqRedact roomId eventId) (redactEvent sdk roomId eventId) ;;
               c' ← get;
               (match messageCache c' !! roomId with
                | Some _ => markRedacted roomId eventId ;; _saveMessageCache
                | None => mret tt
                end) ;;
               mret true
           end
       end)
      (fun error =>
         error_event "deleteMessage"
           (Js.or_else (err_message error) "Failed to delete message") ;;
         mret false).

(** [clearAllMessages]: the ids to redact, the user's events of the
    timeline first, then the user's cached records that are not redacted
    and not among them. *)
Definition own_event_ids (c : Client) (timeline : list MatrixEvent) : list string :=
  map ev_id (List.filter (is_own_message_event c) timeline).

Definition own_cached_ids (c : Client) (roomId : string) (eventIds : list string)
  : list string :=
  match messageCache c !! roomId with
  | Some messages =>
      map m_id
        (List.filter
           (fun msg => bool_decide (m_sender msg = userId c) && negb (m_redacted msg)
                       && negb (bool_decide (m_id msg ∈ eventIds)))
           messages)
  | None => []
  end.

Definition clearAllMessages : M bool :=
  c ← get;
  if not_ready c then
    error_event "clearMessages" "Not in a room or not logged in" ;; mret false
  else
    let roomId := default "" (room c) in
    try_catch
      (match getRoom sdk roomId with
       | None => mret false
       | Some timeline =>
           let eventIds := own_event_ids c timeline in
           let userEvents := eventIds ++ own_cached_ids c roomId eventIds in
           match userEvents with
           | [] =>
               error_event "clearMessages" "No messages found to delete" ;;
               mret false
           | _ =>
               forEach
                 (fun eventId =>
                    await (ReqRedact roomId eventId) (redactEvent sdk roomId eventId) ;;
                    markRedacted roomId eventId)
                 userEvents ;;
               _saveMessageCache ;;
               _triggerEvent "message"
                 (PSystem (userId c) roomId
                    ("Cleared " +:+ pretty (length userEvents) +:+ " messages")
                    false true) ;;
               mret true
           end
       end)
      (fun error =>
         error_event "clearMessages"
           (Js.or_else (err_message error) "Failed to clear messages") ;;
         mret false).

(** ** Resuming a session *)

Definition stored_login : M (option CmdResult) :=
  c ← get;
  match localStorage c !! "matrixUsername", localStorage c !! "matrixPassword" with
  | Some username, Some password =>
      if Js.truthy username && Js.truthy password
      then Some <$> login username password
      else mret None
  | _, _ => mret None
  end.

Definition loginWithToken : M CmdResult :=
  c ← get;
  let token := localStorage c !! "matrixAccessToken" in
  let uid := localStorage c !! "matrixUserId" in
  if negb (Js.truthy_opt token) || negb (Js.truthy_opt uid) then
    fallback ← stored_login;
    mret (default (RBool false) fallback)
  else
    try_catch
      (modify (with_client true) ;;
       modify (with_userId uid) ;;
       await ReqStartClient (startClient sdk) ;;
       c' ← get;
       modify (with_room (localStorage c' !! "matrixRoom")) ;;
       mret (RBool true))
      (fun error =>
         fallback ← stored_login;
         match fallback with
         | Some result => mret result
         | None =>
             error_event "tokenLogin"
               (Js.or_else (err_message error) "Token login failed") ;;
             mret (RBool false)
         end).

(** ** Command interpreter *)

(** [notation.match(/^\d+d\d+$/)] as a test *)
Definition is_notation (notation : string) : bool :=
  match match_notation notation with Some _ => true | None => false end.

Definition usage_error (message : string) : M unit :=
  error_event "command" message.

Definition processCommand (input type : string) : M CmdResult :=
  if negb (Js.truthy input) then mret (RBool false)
  else if Js.startsWith "/login " input then
    let parts := Js.split " " input in
    match parts !! 1%nat, parts !! 2%nat with
    | Some username, Some password =>
        if Js.truthy username && Js.truthy password then login username password
        else usage_error "Usage: /login username password" ;; mret (RLogin false None)
    | _, _ => usage_error "Usage: /login username password" ;; mret (RLogin false None)
    end
  else if Js.startsWith "/join " input then
    let parts := Js.split " " input in
    let inviteCode := if Js.truthy_opt (parts !! 2%nat) then parts !! 2%nat else None in
    match parts !! 1%nat with
    | Some roomId =>
        if Js.truthy roomId then RBool <$> joinRoom roomId inviteCode
        else usage_error "Usage: /join #room:matrix.org [INVITE_CODE]" ;;
             mret (RBool false)
    | None => usage_error "Usage: /join #room:matrix.org [INVITE_CODE]" ;;
              mret (RBool false)
    end
  else if Js.startsWith "/leave" input then
    c ← get;
    if negb (Js.truthy_opt (room c)) then
      usage_error "Not in a room" ;; mret (RBool false)
    else RBool <$> leaveRoom
  else if Js.startsWith "/reset" input then RBool <$> reset
  else if Js.startsWith "/clear-cache" input then RBool <$> clearMessageCache
  else if Js.startsWith "/roll " input then
    match Js.split " " input !! 1%nat with
    | Some notation =>
        if Js.truthy notation && is_notation notation then RBool <$> sendRoll notation
        else usage_error "Usage: /roll XdY (e.g., /roll 2d6)" ;; mret (RBool false)
    | None => usage_error "Usage: /roll XdY (e.g., /roll 2d6)" ;; mret (RBool false)
    end
  else if Js.startsWith "/scene " input then
    let sceneName := Js.trim (Js.substring_from 7 input) in
    if Js.truthy sceneName then RBool <$> sendScene sceneName "regular"
    else usage_error "Usage: /scene Scene Name" ;; mret (RBool false)
  else if String.eqb input "narrate" || Js.startsWith "narrate " input then
    let narrationText :=
      if String.eqb input "narrate" then ""
      else Js.trim (Js.substring_from 8 input) in
    if Js.truthy narrationText then RBool <$> sendNarration narrationText
    else usage_error "Usage: narrate Your narration text" ;; mret (RBool false)
  else if Js.startsWith "/narrate " input then
    let narrationText := Js.trim (Js.substring_from 9 input) in
    if Js.truthy narrationText then RBool <$> sendNarration narrationText
    else usage_error "Usage: /narrate Your narration text" ;; mret (RBool false)
  else if Js.startsWith "/delete" input then
    c ← get;
    if negb (Js.truthy_opt (room c)) then
      usage_error "Not in a room" ;; mret (RBool false)
    else RBool <$> deleteLastMessage
  else if Js.startsWith "/logout" input then
    logout ;; mret RLogout
  else if Js.startsWith "/" input then
    usage_error "Unknown command" ;; mret (RBool false)
  else RBool <$> sendMessage input type.

(** ** Live event multiplexer: the [Room.timeline] listener *)

(** The message object of the live listener, type-specific fields
    included. *)
Definition live_message (c : Client) (roomId : string) (event : MatrixEvent)
  : Message :=
  let content := ev_content event in
  let sender := ev_sender event in
  let messageType := messageType_of content in
  let fb (f : FormattedBody -> option string) := formatted_body content ≫= f in
  let is_roll := has_custom_format content && String.eqb messageType "roll" in
  let is_scene := negb is_roll && has_custom_format content
                  && String.eqb messageType "scene" in
  {| m_id := ev_id event; m_sender := Some sender; m_roomId := roomId;
     m_text := body content; m_type := messageType;
     m_powerLevel := member_powerLevel c roomId sender;
     m_timestamp := ev_ts event; m_historical := false;
     m_self := bool_decide (Some sender = userId c);
     m_redacted := false; m_important := false;
     m_dice := if is_roll then fb fb_dice else None;
     m_rolls := if is_roll then formatted_body content ≫= fb_rolls else None;
     m_hits := if is_roll then formatted_body content ≫= fb_hits else None;
     m_highEvenOdd := if is_roll then fb fb_highEvenOdd else None;
     m_lowEvenOdd := if is_roll then fb fb_lowEvenOdd else None;
     m_username := if is_roll then fb fb_username else None;
     m_sceneName := if is_scene then fb fb_sceneName else None;
     m_sceneType := if is_scene then fb fb_sceneType else None |}.

(** The branch taken on an [m.room.redaction] event. *)
Definition onRedaction (roomId : string) (event : MatrixEvent) : M unit :=
  c ← get;
  match ev_associatedId event, messageCache c !! roomId with
  | Some redactedId, Some _ =>
      if Js.truthy redactedId then
        markRedacted roomId redactedId ;; _saveMessageCache
      else mret tt
  | _, _ => mret tt
  end.

Definition refresh_on_membership (roomId : string) (event : MatrixEvent) : M unit :=
  if String.eqb (ev_type event) "m.room.member"
     || String.eqb (ev_type event) "m.room.power_levels"
  then _updateRoomState roomId ;; mret tt
  else mret tt.

(** The listener is called with the event and the room it belongs to. *)
Definition onRoomTimeline (event : MatrixEvent) (roomId : string) : M unit :=
  c ← get;
  if negb (bool_decide (Some roomId = room c)) then mret tt
  else if String.eqb (ev_type event) "m.room.message" && negb (ev_redacted event) then
    if has_id (ev_id event) (default [] (messageCache c !! roomId)) then mret tt
    else
      let messageObj := live_message c roomId event in
      let content := ev_content event in
      _addMessageToCache roomId messageObj ;;
      (if has_custom_format content && String.eqb (m_type messageObj) "roll"
       then _triggerEvent "roll" (PMessage messageObj)
       else if has_custom_format content && String.eqb (m_type messageObj) "scene"
       then _triggerEvent "scene" (PMessage messageObj)
       else _triggerEvent "message" (PMessage messageObj)) ;;
      refresh_on_membership roomId event
  else
    (if String.eqb (ev_type event) "m.room.redaction" then onRedaction roomId event
     else mret tt) ;;
    refresh_on_membership roomId event.

(** The [sync.error] listener. *)
Definition onSyncError (error : JsError) : M unit :=
  error_event "sync" (Js.or_else (err_message error) "Sync error").

End Operations.

(** ** Construction *)

(** [new MatrixRPGClient()]: the saved room and the stored cache are read
    from the local store. *)
Definition new_client (store : gmap string string)
    (stored : option (gmap string (list Message)))
    (session : gmap string string) : Client :=
  {| client := false; room := store !! "matrixRoom";
     listeners := initial_listeners; roomState := ∅; userId := None;
     messageCache := default ∅ stored;
     isLoadingHistory := false; historyLoaded := false;
     localStorage := store; storedCache := stored; sessionStorage := session |}.

(** ** Reading a run *)

Definition outcome_of {A} (r : Outcome A * Client * list Effect) : Outcome A := r.1.1.
Definition state_of {A} (r : Outcome A * Client * list Effect) : Client := r.1.2.
Definition trace_of {A} (r : Outcome A * Client * list Effect) : list Effect := r.2.

(** The calls made when [data] is published on a channel of the listener
    table: every handler registered there, in registration order. *)
Definition published (c : Client) (event : string) (data : Payload) : list Effect :=
  map (fun h => Invoke h event data) (default [] (listeners c !! event)).

Definition is_net (e : Effect) : bool :=
  match e with Net _ => true | _ => false end.

(** ** Notions used to state the properties *)

(** [respects P T m]: running [m] from a state satisfying [P] ends in a
    state satisfying [P], whatever the outcome, and every effect of the run
    satisfies [T]. *)
Definition respects {A} (P : Client -> Prop) (T : Effect -> Prop) (m : M A) : Prop :=
  forall c, P c -> P (state_of (m c)) /\ Forall T (trace_of (m c)).

(** [triple P T m Q E]: from a state satisfying [P], every effect of [m]
    satisfies [T]; a returned value and the final state satisfy [Q], a
    thrown error and the final state satisfy [E]. *)
Definition triple {A} (P : Client -> Prop) (T : Effect -> Prop) (m : M A)
    (Q : A -> Client -> Prop) (E : JsError -> Client -> Prop) : Prop :=
  forall c, P c ->
    Forall T (trace_of (m c))
    /\ match outcome_of (m c) with
       | Ret a => Q a (state_of (m c))
       | Throw e => E e (state_of (m c))
       | Pending => True
       end.

(** No listener is called with a message record. *)
Definition silent (e : Effect) : Prop :=
  match e with
  | Invoke _ _ (PMessage _) => False
  | _ => True
  end.

(** Listeners are called with message records of [cached] only. *)
Definition replayed (cached : list Message) (e : Effect) : Prop :=
  match e with
  | Invoke _ _ (PMessage m) => m ∈ cached
  | _ => True
  end.

(** A method never ends in an exception. *)
Definition no_throw {A} (m : M A) : Prop :=
  forall c e, outcome_of (m c) <> Throw e.

(** The event ids of a room's records, in cache order. *)
Definition ids (messages : list Message) : list string := m_id <$> messages.

(** At most one record per event id, in every room. *)
Definition cache_wf (cache : gmap string (list Message)) : Prop :=
  forall roomId messages, cache !! roomId = Some messages -> NoDup (ids messages).

(** A method keeps the cache free of duplicate ids, whatever its outcome. *)
Definition keeps_wf {A} (m : M A) : Prop :=
  respects (fun c => cache_wf (messageCache c)) (fun _ => True) m.

(** The channel a message goes out on, by its type tag. *)
Definition channel_of (msg : Message) : string :=
  if String.eqb (m_type msg) "roll" then "roll"
  else if String.eqb (m_type msg) "scene" then "scene"
  else "message".


(** The notation for [count] dice of [sides] sides, in decimal. *)
Definition notation_of (count sides : N) : string :=
  pretty count +:+ "d" +:+ pretty sides.

(** Every character is a decimal digit. *)
Fixpoint all_digits (s : string) : bool :=
  match s with
  | EmptyString => true
  | String c s' => Js.is_digit c && all_digits s'
  end.

(** The number of even values of a list. *)
Definition count_even (l : list Z) : nat := length (List.filter Z.even l).

(** The name of the parity of an integer. *)
Definition parity_name (z : Z) : string := if Z.even z then "even" else "odd".

(** [x] is a greatest, respectively a least, element of [l]. *)
Definition is_max_of (l : list Z) (x : Z) : Prop :=
  x ∈ l /\ forall y, y ∈ l -> (y <= x)%Z.
Definition is_min_of (l : list Z) (x : Z) : Prop :=
  x ∈ l /\ forall y, y ∈ l -> (x <= y)%Z.

(** The notice published when pagination gives up on an error. *)
Definition gave_up (c : Client) (roomId : string) (error : JsError) : list Effect :=
  published c "message"
    (PSystem (Some "system") roomId
       ("Couldn't load more history: "
          +:+ Js.or_else (err_message error) "Unknown error") true false).

(** The requests and waits of a run of rate-limit answers. *)
Definition retries (roomId : string) (limits : list JsError) : list Effect :=
  concat (map (fun e => [Net (ReqMessages roomId 100); Sleep (retryAfter e)]) limits).

(** The prefixes the command interpreter dispatches on. *)
Definition command_prefixes : list string :=
  ["/login "; "/join "; "/leave"; "/reset"; "/clear-cache"; "/roll ";
   "/scene "; "/narrate "; "/delete"; "/logout"].

(** No prefix of the interpreter's own matches the input. *)
Definition no_command_prefix (input : string) : bool :=
  forallb (fun p => negb (Js.startsWith p input)) command_prefixes.

(** ** A concrete session, for the examples *)

Module Demo.

Definition room_id : string := "!r:matrix.org".
Definition alice : string := "@alice:matrix.org".
Definition bob : string := "@bob:matrix.org".

Definition text_content (text : string) : Content :=
  {| msgtype := Some "m.text"; body := text; format := None;
     formatted_body := None |}.

(** A chat message from bob, as the server returns it in a page. *)
Definition fetched_event : MatrixEvent :=
  {| ev_id := "$e1"; ev_type := "m.room.message"; ev_redacted := false;
     ev_sender := bob; ev_ts := 1000; ev_content := text_content "hello";
     ev_associatedId := None |}.

Definition rate_limited : JsError :=
  {| err_name := "MatrixError"; errcode := Some "M_LIMIT_EXCEEDED";
     retry_after_ms := Some 2000%N; err_message := Some "Too Many Requests" |}.

Definition network_down : JsError :=
  {| err_name := "ConnectionError"; errcode := None; retry_after_ms := None;
     err_message := Some "fetch failed" |}.

(** A server that answers every request, with one page of history. *)
Definition sdk : Sdk :=
  {| loginWithPassword := fun _ _ =>
       Resolved {| user_id := alice; access_token := "syt_token" |};
     startClient := Resolved tt;
     sdk_joinRoom := fun _ _ => Resolved {| ri_roomId := room_id; ri_name := "Tavern" |};
     getStateEvent := fun _ => Resolved {| pl_users := Some {[ alice := 100%Z ]} |};
     getJoinedRoomMembers := fun _ => Resolved [alice; bob];
     getRoom := fun _ => Some [];
     createMessagesRequest :=
       [Resolved (Some {| chunk := Some [fetched_event]; page_end := None |})];
     sendEvent := fun _ _ => Resolved "$sent";
     redactEvent := fun _ _ => Resolved tt;
     leave := fun _ => Resolved tt;
     setItem := fun _ => Stored;
     storeItem := fun _ _ => None;
     storeSessionItem := fun _ _ => None;
     random := fun i => (N.of_nat i * 7919 * 2 ^ 40 + 12345)%N;
     now := 1700000000000%Z |}.

(** The same server, rate limiting twice before the network fails. *)
Definition flaky_script : list (Reply (option Page)) :=
  [Rejected rate_limited; Rejected rate_limited; Rejected network_down;
   Resolved (Some {| chunk := Some [fetched_event]; page_end := None |})].

Definition cached_message (i : nat) : Message :=
  {| m_id := "$c" +:+ pretty i; m_sender := Some bob; m_roomId := room_id;
     m_text := "line " +:+ pretty i; m_type := "chat"; m_powerLevel := 0%Z;
     m_timestamp := Z.of_nat i; m_historical := true; m_self := false;
     m_redacted := false; m_important := false; m_dice := None;
     m_rolls := None; m_hits := None; m_highEvenOdd := None;
     m_lowEvenOdd := None; m_username := None; m_sceneName := None;
     m_sceneType := None |}.

Definition cached_messages (n : nat) : list Message := map cached_message (seq 0 n).

(** Handler 1 listens on [message], 2 on [error], 3 on [roll]. *)
Definition handlers : gmap string (list Handler) :=
  <["message" := [1%nat]]> (<["error" := [2%nat]]> (<["roll" := [3%nat]]> initial_listeners)).

(** Alice, logged in, not in a room yet, nothing cached. *)
Definition logged_in : Client :=
  {| client := true; room := None; listeners := handlers; roomState := ∅;
     userId := Some alice; messageCache := ∅; isLoadingHistory := false;
     historyLoaded := false; localStorage := ∅; storedCache := None;
     sessionStorage := ∅ |}.

(** Alice in the room, with [n] cached records. *)
Definition in_room (n : nat) : Client :=
  {| client := true; room := Some room_id; listeners := handlers; roomState := ∅;
     userId := Some alice; messageCache := {[ room_id := cached_messages n ]};
     isLoadingHistory := false; historyLoaded := true;
     localStorage := {[ "matrixRoom" := room_id ]};
     storedCache := Some {[ room_id := cached_messages n ]};
     sessionStorage := ∅ |}.

End Demo.

(** The slots of the local store that hold the session. *)
Definition credential_slots : list string :=
  ["matrixAccessToken"; "matrixUserId"; "matrixUsername"; "matrixPassword";
   "matrixRoom"].

(** What a room operation answers on a client that is not in a room or
    holds no protocol client: one error event, the result [false], the
    client as it was. *)
Definition refused (c : Client) (context : string) : Outcome bool * Client * list Effect :=
  (Ret false, c,
   published c "error" (PError context "Not in a room or not logged in")).

(** The run [r], once the effects [t] have happened. *)
Definition after {A} (t : list Effect) (r : Outcome A * Client * list Effect)
  : Outcome A * Client * list Effect :=
  (outcome_of r, state_of r, t ++ trace_of r).

(** [c'] is [c] with its session ended: no protocol client, user, room or
    room state, the session slots of the local store removed and every
    other slot kept, the message cache, its stored copy and the listener
    table as they were. *)
Definition session_ended (c c' : Client) : Prop :=
  client c' = false /\ userId c' = None /\ room c' = None /\ roomState c' = ∅
  /\ (forall k, localStorage c' !! k =
                  if bool_decide (k ∈ credential_slots) then None
                  else localStorage c !! k)
  /\ messageCache c' = messageCache c
  /\ storedCache c' = storedCache c
  /\ listeners c' = listeners c
  /\ isLoadingHistory c' = isLoadingHistory c
  /\ historyLoaded c' = historyLoaded c.

(** The channel the live listener publishes a message on: [roll] and
    [scene] only for content in the custom format. *)
Definition live_channel (content : Content) : string :=
  if has_custom_format content && String.eqb (messageType_of content) "roll" then "roll"
  else if has_custom_format content && String.eqb (messageType_of content) "scene"
  then "scene"
  else "message".

(** A run that returns [true] after one request to send [content], whose
    answer is the id of the record [msg], sent by the user, that it leaves
    in the cache of the room. *)
Definition sent_and_cached (sdk : Sdk) (c : Client)
    (r : Outcome bool * Client * list Effect)
    (roomId : string) (content : Content) (msg : Message) : Prop :=
  room c = Some roomId
  /\ sendEvent sdk roomId content = Resolved (m_id msg)
  /\ m_sender msg = userId c
  /\ r = (Ret true, state_of (_addMessageToCache sdk roomId msg c),
          [Net (ReqSendEvent roomId content)]).

(** The live listener does nothing at all on a message event with id
    [eventId] delivered for [roomId] to the client in state [c]. *)
Definition echo_ignored (sdk : Sdk) (c : Client) (roomId eventId : string) : Prop :=
  forall event,
    ev_id event = eventId -> ev_type event = "m.room.message" ->
    onRoomTimeline sdk event roomId c = (Ret tt, c, []).

(** A send that returns [true] has sent one event and cached its record,
    so that the live listener drops the event when the server echoes it. *)
Definition delivered_once (sdk : Sdk) (c : Client)
    (r : Outcome bool * Client * list Effect) : Prop :=
  outcome_of r = Ret true ->
  exists roomId content msg,
    sent_and_cached sdk c r roomId content msg
    /\ echo_ignored sdk (state_of r) roomId (m_id msg).

(** The record of the live listener with the two marks of a record built
    by the history loader. *)
Definition as_historical (m : Message) : Message :=
  {| m_id := m_id m; m_sender := m_sender m; m_roomId := m_roomId m;
     m_text := m_text m; m_type := m_type m; m_powerLevel := m_powerLevel m;
     m_timestamp := m_timestamp m; m_historical := true; m_self := false;
     m_redacted := m_redacted m; m_important := m_important m;
     m_dice := m_dice m; m_rolls := m_rolls m; m_hits := m_hits m;
     m_highEvenOdd := m_highEvenOdd m; m_lowEvenOdd := m_lowEvenOdd m;
     m_username := m_username m; m_sceneName := m_sceneName m;
     m_sceneType := m_sceneType m |}.

(** Every record of the room with this id carries the redaction mark. *)
Definition redacted_in (cache : gmap string (list Message)) (roomId id : string) : Prop :=
  forall messages m,
    cache !! roomId = Some messages -> m ∈ messages -> m_id m = id ->
    m_redacted m = true.

(** The cached records of a room that the user sent. *)
Definition own_cached (c : Client) (roomId : string) : list Message :=
  List.filter (fun msg => bool_decide (m_sender msg = userId c))
    (default [] (messageCache c !! roomId)).

(** [m] is a record of [l] that no record of [l] is newer than. *)
Definition newest_of (l : list Message) (m : Message) : Prop :=
  m ∈ l /\ forall m', m' ∈ l -> (m_timestamp m' <= m_timestamp m)%Z.

(** The number of requests in a trace. *)
Definition requests (t : list Effect) : nat := length (List.filter is_net t).

(** The handlers a trigger of [event] calls, in order. *)
Definition called (c : Client) (event : string) (data : Payload) : list Effect :=
  trace_of (_triggerEvent event data c).

(** The handler of an effect that is a listener call. *)
Definition invoked (ef : Effect) : option Handler :=
  match ef with Invoke h _ _ => Some h | _ => None end.

(** The client a page load constructs from the stores that [c] leaves
    behind. *)
Definition reloaded (c : Client) : Client :=
  new_client (localStorage c) (storedCache c) (sessionStorage c).

(** The replay of cached records: each is published on the channel of its
    type tag, in cache order. *)
Definition replay_of (c : Client) (cached : list Message) : list Effect :=
  concat (map (fun m => published c (channel_of m) (PMessage m)) cached).

(** The local store takes the four writes of a login. *)
Definition store_takes_login (sdk : Sdk) (username password : string)
    (response : LoginResponse) : Prop :=
  storeItem sdk "matrixAccessToken" (access_token response) = None
  /\ storeItem sdk "matrixUserId" (user_id response) = None
  /\ storeItem sdk "matrixUsername" username = None
  /\ storeItem sdk "matrixPassword" password = None.

(** [c'] is a client without a session that still has the history of
    [c]: resuming the session on it sends nothing and returns false, it
    holds the cache that [c] had stored, and it has no room, no user and no
    protocol client. *)
Definition fresh_start (sdk : Sdk) (c c' : Client) : Prop :=
  loginWithToken sdk c' = (Ret (RBool false), c', [])
  /\ messageCache c' = default ∅ (storedCache c)
  /\ room c' = None /\ userId c' = None /\ client c' = false
  /\ listeners c' = initial_listeners.

(** ** The build step that inlines the bundle ([scripts/inline-bundle.js])

    The script reads the page and the bundle, replaces the reference to
    the bundle by the code, and writes the result. Strings are byte
    strings here; the search string and the characters the replacement
    patterns are made of are ASCII, so positions in code units and in
    bytes of the UTF-8 text correspond. *)

Module InlineBundle.

(** [s.replace(pattern, replacement)] with a string pattern: the first
    occurrence is cut out, [before] and [after] are what surrounds it. *)
Fixpoint split_at_first (pattern s : string) : option (string * string) :=
  if Js.startsWith pattern s
  then Some (EmptyString, Js.substring_from (String.length pattern) s)
  else match s with
       | EmptyString => None
       | String ch s' =>
           match split_at_first pattern s' with
           | Some (before, after) => Some (String ch before, after)
           | None => None
           end
       end.

(** The replacement text: [$$] is a dollar sign, [$&] the matched text,
    [$`] what precedes it and [$'] what follows it; with a string pattern
    there is no capture, so every other use of the dollar sign stands for
    itself. *)
Fixpoint get_substitution (matched before after template : string) : string :=
  match template with
  | EmptyString => EmptyString
  | String ch rest =>
      if Ascii.eqb ch "$" then
        match rest with
        | String d rest' =>
            if Ascii.eqb d "$" then String "$" (get_substitution matched before after rest')
            else if Ascii.eqb d "&"
            then matched +:+ get_substitution matched before after rest'
            else if Ascii.eqb d "`"
            then before +:+ get_substitution matched before after rest'
            else if Ascii.eqb d "'"
            then after +:+ get_substitution matched before after rest'
            else String "$" (get_substitution matched before after rest)
        | EmptyString => String "$" EmptyString
        end
      else String ch (get_substitution matched before after rest)
  end.

Definition replace (s pattern replacement : string) : string :=
  match split_at_first pattern s with
  | None => s
  | Some (before, after) =>
      before +:+ get_substitution pattern before after replacement +:+ after
  end.

Definition double_quote : string := String (Ascii.ascii_of_nat 34) EmptyString.

(** The reference to the bundle in the page. *)
Definition script_tag : string :=
  "<script src=" +:+ double_quote +:+ "bundle.js" +:+ double_quote +:+ "></script>".

(** The contents of [dist/matrix-rpg-client.html], from the contents of
    [dist/index.html] and of [dist/bundle.js]. *)
Definition inline_bundle (html bundleCode : string) : string :=
  replace html script_tag ("<script>" +:+ bundleCode +:+ "</script>").

(** The string holds a dollar sign. *)
Fixpoint has_dollar (s : string) : bool :=
  match s with
  | EmptyString => false
  | String ch s' => Ascii.eqb ch "$" || has_dollar s'
  end.

(** [s] reads [before], [pattern], [after], and [pattern] occurs nowhere
    in [s] at an earlier position. *)
Definition first_occurrence (pattern before after s : string) : Prop :=
  s = before +:+ pattern +:+ after
  /\ forall before' after',
       s = before' +:+ pattern +:+ after' ->
       (String.length before <= String.length before')%nat.

End InlineBundle.

(** The ids [clearAllMessages] redacts: the user's message events of the
    timeline, then the user's cached records that are not redacted and not
    among them. *)
Definition ids_to_clear (c : Client) (roomId : string) (timeline : list MatrixEvent)
  : list string :=
  own_event_ids c timeline ++ own_cached_ids c roomId (own_event_ids c timeline).

(** Every cached record of the room that [uid] sent carries the redaction
    mark. *)
Definition all_redacted (cache : gmap string (list Message)) (roomId : string)
    (uid : option string) : Prop :=
  forall messages m,
    cache !! roomId = Some messages -> m ∈ messages -> m_sender m = uid ->
    m_redacted m = true.

(** ** More sessions, for the examples *)

Module Examples.

(** A message alice sent, as the timeline holds it. *)
Definition own_event : MatrixEvent :=
  {| ev_id := "$a1"; ev_type := "m.room.message"; ev_redacted := false;
     ev_sender := Demo.alice; ev_ts := 2000;
     ev_content := rpg_content "hi all" (plain_body "chat");
     ev_associatedId := None |}.

(** A later state event of the room. *)
Definition topic_event : MatrixEvent :=
  {| ev_id := "$t1"; ev_type := "m.room.topic"; ev_redacted := false;
     ev_sender := Demo.alice; ev_ts := 3000;
     ev_content := Demo.text_content "the tavern";
     ev_associatedId := None |}.

Definition timeline : list MatrixEvent := [Demo.fetched_event; own_event; topic_event].

(** The server of [Demo], with a timeline for the room. *)
Definition timeline_sdk : Sdk :=
  {| loginWithPassword := loginWithPassword Demo.sdk;
     startClient := startClient Demo.sdk;
     sdk_joinRoom := sdk_joinRoom Demo.sdk;
     getStateEvent := getStateEvent Demo.sdk;
     getJoinedRoomMembers := getJoinedRoomMembers Demo.sdk;
     getRoom := fun _ => Some timeline;
     createMessagesRequest := createMessagesRequest Demo.sdk;
     sendEvent := sendEvent Demo.sdk;
     redactEvent := redactEvent Demo.sdk;
     leave := leave Demo.sdk;
     setItem := setItem Demo.sdk;
     storeItem := storeItem Demo.sdk;
     storeSessionItem := storeSessionItem Demo.sdk;
     random := random Demo.sdk;
     now := now Demo.sdk |}.

Definition wrong_password : JsError :=
  {| err_name := "MatrixError"; errcode := Some "M_FORBIDDEN";
     retry_after_ms := None; err_message := Some "Invalid password" |}.

(** The server of [Demo], refusing every login. *)
Definition locked_sdk : Sdk :=
  {| loginWithPassword := fun _ _ => Rejected wrong_password;
     startClient := startClient Demo.sdk;
     sdk_joinRoom := sdk_joinRoom Demo.sdk;
     getStateEvent := getStateEvent Demo.sdk;
     getJoinedRoomMembers := getJoinedRoomMembers Demo.sdk;
     getRoom := getRoom Demo.sdk;
     createMessagesRequest := createMessagesRequest Demo.sdk;
     sendEvent := sendEvent Demo.sdk;
     redactEvent := redactEvent Demo.sdk;
     leave := leave Demo.sdk;
     setItem := setItem Demo.sdk;
     storeItem := storeItem Demo.sdk;
     storeSessionItem := storeSessionItem Demo.sdk;
     random := random Demo.sdk;
     now := now Demo.sdk |}.

(** Alice in the room after she sent one message. *)
Definition after_hello : Client :=
  state_of (sendMessage Demo.sdk "hello" "chat" (Demo.in_room 2)).




(** A message of the room that was redacted since. *)
Definition withdrawn_event : MatrixEvent :=
  {| ev_id := "$w1"; ev_type := "m.room.message"; ev_redacted := true;
     ev_sender := Demo.bob; ev_ts := 500; ev_content := Demo.text_content "";
     ev_associatedId := None |}.

(** A page of history with a token: a redacted message, two messages, a
    state event, and the first message once more. *)
Definition history_page : Page :=
  {| chunk := Some [withdrawn_event; Demo.fetched_event; topic_event; own_event;
                    Demo.fetched_event];
     page_end := Some "t_41" |}.

(** A page that refers to the bundle, and one that does not. *)
Definition page : string :=
  "<html><body>" +:+ InlineBundle.script_tag +:+ "</body></html>".
Definition bare_page : string := "<html><body></body></html>".

End Examples.

(** ** Dice notation, as the specification reads it *)

(** The value of a decimal digit. *)
Definition digit_of (c : ascii) : option N :=
  if Ascii.eqb c "0" then Some 0%N else if Ascii.eqb c "1" then Some 1%N
  else if Ascii.eqb c "2" then Some 2%N else if Ascii.eqb c "3" then Some 3%N
  else if Ascii.eqb c "4" then Some 4%N else if Ascii.eqb c "5" then Some 5%N
  else if Ascii.eqb c "6" then Some 6%N else if Ascii.eqb c "7" then Some 7%N
  else if Ascii.eqb c "8" then Some 8%N else if Ascii.eqb c "9" then Some 9%N
  else None.

(** The number a string of decimal digits denotes, each digit weighted by
    its position; nothing when a character is no digit. *)
Fixpoint numeral_value (s : string) : option N :=
  match s with
  | EmptyString => Some 0%N
  | String c s' =>
      match digit_of c, numeral_value s' with
      | Some d, Some v => Some (d * 10 ^ N.of_nat (String.length s') + v)%N
      | _, _ => None
      end
  end.

(** [s] is a numeral, one digit at least, and denotes [n]. *)
Definition numeral (s : string) (n : N) : Prop :=
  s <> EmptyString /\ numeral_value s = Some n.

(** [notation] is a count, the letter d and a number of sides, and
    nothing else. *)
Definition reads_as (notation : string) (count sides : N) : Prop :=
  exists a b, notation = a +:+ "d" +:+ b /\ numeral a count /\ numeral b sides.

Definition malformed (notation : string) : Prop :=
  forall count sides, ~ reads_as notation count sides.

(** ** A redaction mark, as the specification reads it *)




(** ** A fetched page, as the specification reads it *)

(** The event at place [i] of a page is one the loader has to take up: a
    message event that is not redacted and whose id is not processed yet,
    neither before the page nor by an earlier event of the page that is not
    redacted. *)
Definition taken_up (processed : gset string) (events : list MatrixEvent)
    (i : nat) (e : MatrixEvent) : Prop :=
  events !! i = Some e
  /\ ev_type e = "m.room.message"
  /\ ev_redacted e = false
  /\ (ev_id e ∉ processed)
  /\ forall j e', (j < i)%nat -> events !! j = Some e' ->
                  ev_redacted e' = false -> ev_id e' <> ev_id e.

(** Those events, in page order. *)
Fixpoint fresh_events (processed : gset string) (events : list MatrixEvent)
  : list MatrixEvent :=
  match events with
  | [] => []
  | event :: rest =>
      if ev_redacted event then fresh_events processed rest
      else if bool_decide (ev_id event ∈ processed) then fresh_events processed rest
      else
        (if String.eqb (ev_type event) "m.room.message" then [event] else [])
          ++ fresh_events ({[ev_id event]} ∪ processed) rest
  end.

(** The ids that count as processed after a page: those before it and the
    ids of its events that are not redacted. *)
Definition seen_after (processed : gset string) (events : list MatrixEvent)
  : gset string :=
  processed
    ∪ list_to_set (map ev_id (List.filter (fun e => negb (ev_redacted e)) events)).

(** The client after the records are put into the cache of the room, one
    after the other. *)
Definition cached_all (sdk : Sdk) (roomId : string) (msgs : list Message)
    (c : Client) : Client :=
  fold_left (fun c msg => state_of (_addMessageToCache sdk roomId msg c)) msgs c.

(** * Properties *)

(** ** Dice engine *)

Section DiceProperties.

Local Open Scope N_scope.

(** Rounding to 53 significant bits moves a value by at most half a unit
    in the last place. *)
Lemma round53_upper x :
  Js.two53 <= x ->
  Js.round53 x <= x + 2 ^ (N.log2 x - 53).
Proof.
  intros Hx. unfold Js.round53.
  destruct (N.ltb_spec x Js.two53) as [Hlt|_]; [lia|].
  assert (Hpos : 0 < x) by (unfold Js.two53 in Hx; lia).
  destruct (N.log2_spec x Hpos) as [Hlo Hhi].
  assert (Hlog : 53 <= N.log2 x).
  { apply N.log2_le_pow2; [lia | exact Hx]. }
  set (k := N.log2 x - 52).
  assert (Hk : N.log2 x - 53 = k - 1) by lia.
  rewrite Hk.
  assert (Hk1 : 1 <= k) by lia.
  assert (H2k : 2 ^ k = 2 * 2 ^ (k - 1)).
  { replace k with (N.succ (k - 1)) at 1 by lia. apply N.pow_succ_r'. }
  assert (Hp : 0 < 2 ^ (k - 1)) by (apply N.neq_0_lt_0, N.pow_nonzero; lia).
  assert (Hdm := N.div_mod x (2 ^ k)).
  assert (Hr : x mod 2 ^ k < 2 ^ k) by (apply N.mod_lt; lia).
  specialize (Hdm ltac:(lia)).
  set (q := x / 2 ^ k) in *. set (r := x mod 2 ^ k) in *.
  destruct ((2 ^ (k - 1) <? r) || ((r =? 2 ^ (k - 1)) && N.odd q)) eqn:Hup.
  - assert (2 ^ (k - 1) <= r).
    { apply orb_true_iff in Hup as [H|H].
      - apply N.ltb_lt in H. lia.
      - apply andb_true_iff in H as [H _]. apply N.eqb_eq in H. lia. }
    nia.
  - nia.
Qed.

(** The rounded product stays below [sides]: no roll exceeds the number
    of sides, even for the largest value [Math.random()] can return. *)
Lemma floor_mul_lt p sides :
  p < Js.two53 -> 1 <= sides -> Js.floor_mul p sides < sides.
Proof.
  intros Hp Hs. unfold Js.floor_mul.
  apply N.Div0.div_lt_upper_bound.
  destruct (N.lt_ge_cases (p * sides) Js.two53) as [Hsmall|Hbig].
  - unfold Js.round53. apply N.ltb_lt in Hsmall as Hb. rewrite Hb.
    unfold Js.two53 in *. nia.
  - pose proof (round53_upper _ Hbig) as Hr.
    assert (Hpos : 0 < p * sides) by (unfold Js.two53 in Hbig; lia).
    destruct (N.log2_spec _ Hpos) as [Hlo _].
    assert (Hlog : 53 <= N.log2 (p * sides)).
    { apply N.log2_le_pow2; [lia | exact Hbig]. }
    set (L := N.log2 (p * sides)) in *.
    assert (HL : 2 ^ L = Js.two53 * 2 ^ (L - 53)).
    { unfold Js.two53. rewrite <- N.pow_add_r. f_equal. lia. }
    assert (p * sides <= Js.two53 * sides - sides) by nia.
    assert (2 ^ (L - 53) < sides) by nia.
    nia.
Qed.

Lemma random_numerator_lt rng i : random_numerator rng i < Js.two53.
Proof. unfold random_numerator. apply N.mod_lt. unfold Js.two53. lia. Qed.

Lemma roll_values_length rng count sides :
  length (roll_values rng count sides) = count.
Proof. unfold roll_values. by rewrite length_map, length_seq. Qed.

Lemma roll_values_range rng count sides :
  1 <= sides ->
  Forall (fun x => (1 <= x <= Z.of_N sides)%Z) (roll_values rng count sides).
Proof.
  intros Hs. unfold roll_values. apply Forall_forall. intros x Hx.
  apply list_elem_of_In, in_map_iff in Hx as (i & <- & _).
  pose proof (floor_mul_lt (random_numerator rng i) sides
                (random_numerator_lt rng i) Hs).
  lia.
Qed.

(** With no side at all the product is 0 and every roll is 1. *)
Lemma roll_values_no_sides rng count :
  roll_values rng count 0 = repeat 1%Z count.
Proof.
  unfold roll_values. generalize 0%nat.
  induction count as [|count IH]; intros start; [done|].
  cbn [seq map repeat]. f_equal; [|apply IH].
  unfold Js.floor_mul. rewrite N.mul_0_r. reflexivity.
Qed.

Lemma rollDice_unfold rng notation n m :
  parse_notation notation = Some (n, m) ->
  rollDice rng notation =
    if (100 <? n) || (1000 <? m) then None
    else Some {| rolls := roll_values rng (N.to_nat n) m;
                 total := fold_left Z.add (roll_values rng (N.to_nat n) m) 0%Z |}.
Proof.
  unfold parse_notation, rollDice.
  destruct (match_notation notation) as [[c s]|]; [|done].
  intros [= <- <-]. reflexivity.
Qed.

(** C7. For every notation that reads as N dice of M sides with
    1 <= N <= 100 and 1 <= M <= 1000, [rollDice] returns a result, and its
    rolls are exactly N integers, each between 1 and M. *)
Theorem rollDice_valid_notation rng notation n m :
  parse_notation notation = Some (n, m) ->
  1 <= n <= 100 ->
  1 <= m <= 1000 ->
  exists r,
    rollDice rng notation = Some r
    /\ length (rolls r) = N.to_nat n
    /\ Forall (fun x => (1 <= x <= Z.of_N m)%Z) (rolls r).
Proof.
  intros Hparse Hn Hm. rewrite (rollDice_unfold _ _ _ _ Hparse).
  destruct (N.ltb_spec 100 n); [lia|].
  destruct (N.ltb_spec 1000 m); [lia|].
  cbn [orb]. eexists; split; [reflexivity|]. cbn [rolls]. split.
  - apply roll_values_length.
  - apply roll_values_range. lia.
Qed.

Lemma rollDice_valid_notation_witness :
  parse_notation "2d6" = Some (2, 6)
  /\ exists r,
       rollDice (fun i => N.of_nat i * 7919 * 2 ^ 40) "2d6" = Some r
       /\ length (rolls r) = 2%nat
       /\ Forall (fun x => (1 <= x <= 6)%Z) (rolls r).
Proof.
  split; [reflexivity|].
  apply (rollDice_valid_notation _ "2d6" 2 6); [reflexivity | lia | lia].
Defined.

(** In terms of the parser of the code: a notation the parser does not
    take, or one it reads as more than 100 dice or more than 1000 sides,
    makes [rollDice] return the failure value; nothing is rolled. *)
Lemma rollDice_rejects rng notation :
  (parse_notation notation = None
   \/ exists n m, parse_notation notation = Some (n, m) /\ (100 < n \/ 1000 < m)) ->
  rollDice rng notation = None.
Proof.
  intros [Hnone | (n & m & Hparse & Hrange)].
  - unfold parse_notation, rollDice in *.
    by destruct (match_notation notation) as [[c s]|].
  - rewrite (rollDice_unfold _ _ _ _ Hparse).
    destruct (N.ltb_spec 100 n); [done|].
    destruct (N.ltb_spec 1000 m); [done|]. lia.
Qed.

Lemma rollDice_rejects_witness :
  (parse_notation "2x6" = None
   \/ exists n m, parse_notation "2x6" = Some (n, m) /\ (100 < n \/ 1000 < m))
  /\ rollDice (fun _ => 0) "2x6" = None.
Proof.
  split; [by left|]. apply rollDice_rejects. by left.
Defined.

(** Nothing else is rejected: a notation within the upper limits always
    gives a result. *)
Lemma rollDice_accepts rng notation n m :
  parse_notation notation = Some (n, m) -> n <= 100 -> m <= 1000 ->
  rollDice rng notation =
    Some {| rolls := roll_values rng (N.to_nat n) m;
            total := fold_left Z.add (roll_values rng (N.to_nat n) m) 0%Z |}.
Proof.
  intros Hparse Hn Hm. rewrite (rollDice_unfold _ _ _ _ Hparse).
  destruct (N.ltb_spec 100 n); [lia|].
  destruct (N.ltb_spec 1000 m); [lia|]. reflexivity.
Qed.

Example rollDice_malformed :
  rollDice (fun _ => 0) "d6" = None /\ rollDice (fun _ => 0) "2x6" = None
  /\ rollDice (fun _ => 0) "101d6" = None /\ rollDice (fun _ => 0) "2d1001" = None.
Proof. repeat split. Qed.

(** C2 as stated fails below the ranges: no dice, or dice without sides,
    are rolled all the same. *)
Lemma rollDice_zero_counterexample :
  parse_notation "0d6" = Some (0, 6)
  /\ rollDice (fun _ => 0) "0d6" = Some {| rolls := []; total := 0 |}
  /\ parse_notation "3d0" = Some (3, 0)
  /\ rollDice (fun _ => 0) "3d0" = Some {| rolls := [1; 1; 1]%Z; total := 3 |}.
Proof. repeat split. Qed.

(** *** Notations written in decimal *)

Lemma pretty_N_char_digit x :
  Js.is_digit (pretty_N_char x) = true
  /\ (x < 10 -> Js.digit_value (pretty_N_char x) = x).
Proof.
  assert (x = 0 \/ x = 1 \/ x = 2 \/ x = 3 \/ x = 4 \/ x = 5 \/ x = 6 \/ x = 7
          \/ x = 8 \/ x = 9 \/ 10 <= x) as Hx by lia.
  repeat (destruct Hx as [->|Hx]; [by split|]).
  split; [|lia].
  destruct x as [|p]; [done|]. do 4 (destruct p as [p|p|]; try done).
Qed.

Lemma parseInt_acc_shift a s :
  Js.parseInt_acc a s = a * 10 ^ N.of_nat (String.length s) + Js.parseInt_acc 0 s.
Proof.
  revert a. induction s as [|c s IH]; intros a; cbn [Js.parseInt_acc String.length].
  - cbn. lia.
  - rewrite (IH (10 * a + _)), (IH (10 * 0 + _)).
    rewrite Nat2N.inj_succ, N.pow_succ_r'. lia.
Qed.

Lemma pretty_N_go_digits x s :
  all_digits s = true ->
  all_digits (pretty_N_go x s) = true
  /\ Js.parseInt_acc 0 (pretty_N_go x s)
       = x * 10 ^ N.of_nat (String.length s) + Js.parseInt_acc 0 s.
Proof.
  revert s. induction (N.lt_wf_0 x) as [x _ IH]; intros s Hs.
  assert (x = 0 \/ 0 < x) as [->|Hpos] by lia.
  - rewrite pretty_N_go_0. split; [done | lia].
  - rewrite pretty_N_go_step by done.
    destruct (pretty_N_char_digit (x mod 10)) as [Hdigit Hvalue].
    specialize (Hvalue ltac:(apply N.mod_lt; lia)).
    destruct (IH (x / 10) ltac:(apply N.div_lt; lia)
                 (String (pretty_N_char (x mod 10)) s)) as [Hall Hparse].
    { cbn [all_digits]. by rewrite Hdigit, Hs. }
    split; [done|]. rewrite Hparse.
    cbn [Js.parseInt_acc String.length].
    rewrite (parseInt_acc_shift (10 * 0 + _)), Hvalue.
    rewrite Nat2N.inj_succ, N.pow_succ_r'.
    pose proof (N.div_mod x 10 ltac:(lia)) as Hdm. nia.
Qed.

Lemma pretty_N_go_nonempty x s : s <> "" -> pretty_N_go x s <> "".
Proof.
  revert s. induction (N.lt_wf_0 x) as [x _ IH]; intros s Hs.
  assert (x = 0 \/ 0 < x) as [->|Hpos] by lia.
  - by rewrite pretty_N_go_0.
  - rewrite pretty_N_go_step by done. apply IH; [apply N.div_lt; lia | done].
Qed.

(** The decimal rendering of a number is a non-empty string of digits that
    [parseInt] reads back. *)
Lemma pretty_N_digits (x : N) :
  all_digits (pretty x) = true /\ Js.parseInt (pretty x) = x /\ pretty x <> "".
Proof.
  unfold pretty, pretty_N. destruct (decide (x = 0)) as [->|Hx]; [done|].
  destruct (pretty_N_go_digits x "" eq_refl) as [Hall Hparse].
  split; [done|]. split.
  - unfold Js.parseInt. rewrite Hparse. cbn. lia.
  - rewrite pretty_N_go_step by lia. by apply pretty_N_go_nonempty.
Qed.

Lemma append_empty_r s : s +:+ "" = s.
Proof.
  induction s as [|c s IH]; [done|].
  change (String c s +:+ "") with (String c (s +:+ "")). by rewrite IH.
Qed.

Lemma span_digits_app s rest :
  all_digits s = true ->
  match rest with String c _ => Js.is_digit c = false | EmptyString => True end ->
  Js.span_digits (s +:+ rest) = (s, rest).
Proof.
  intros Hs Hrest. induction s as [|c s IH].
  - change ("" +:+ rest) with rest.
    destruct rest as [|c rest']; [done|].
    unfold Js.span_digits; fold Js.span_digits. by rewrite Hrest.
  - change (String c s +:+ rest) with (String c (s +:+ rest)).
    cbn [all_digits] in Hs. apply andb_true_iff in Hs as [Hc Hs].
    unfold Js.span_digits; fold Js.span_digits. by rewrite Hc, IH.
Qed.

(** Every decimal notation reads as the numbers it was written from. *)
Lemma parse_notation_of n m : parse_notation (notation_of n m) = Some (n, m).
Proof.
  destruct (pretty_N_digits n) as (Hn & Hpn & Hnn).
  destruct (pretty_N_digits m) as (Hm & Hpm & Hnm).
  unfold parse_notation, match_notation, notation_of.
  rewrite span_digits_app; [|done|done].
  destruct (pretty n) as [|a sn] eqn:Hsn; [done|].
  change ("d" +:+ pretty m) with (String "d" (pretty m)). cbv iota beta.
  rewrite <- (append_empty_r (pretty m)) at 1.
  rewrite span_digits_app; [|done|done].
  destruct (pretty m) as [|b sm] eqn:Hsm; [done|].
  by rewrite Hpn, Hpm.
Qed.

(** C7 for notations written in decimal: every count from 1 to 100 and
    every number of sides from 1 to 1000. *)
Lemma rollDice_notation_of rng n m :
  1 <= n <= 100 -> 1 <= m <= 1000 ->
  exists r,
    rollDice rng (notation_of n m) = Some r
    /\ length (rolls r) = N.to_nat n
    /\ Forall (fun x => (1 <= x <= Z.of_N m)%Z) (rolls r).
Proof.
  intros Hn Hm. rewrite (rollDice_accepts _ _ n m (parse_notation_of n m)) by lia.
  eexists; split; [reflexivity|]. cbn [rolls]. split.
  - apply roll_values_length.
  - apply roll_values_range. lia.
Qed.

Lemma rollDice_notation_of_witness :
  notation_of 100 1000 = "100d1000"
  /\ exists r,
       rollDice (fun i => N.of_nat i * 7919 * 2 ^ 40) (notation_of 100 1000) = Some r
       /\ length (rolls r) = 100%nat
       /\ Forall (fun x => (1 <= x <= 1000)%Z) (rolls r).
Proof.
  split; [reflexivity|].
  apply (rollDice_notation_of _ 100 1000); lia.
Defined.

End DiceProperties.

(** ** Reasoning about runs *)

Section Respects.

Context (P : Client -> Prop) (T : Effect -> Prop).

Lemma respects_ret {A} (a : A) : respects P T (mret a).
Proof. intros c Hc. split; [exact Hc | constructor]. Qed.

Lemma respects_get : respects P T get.
Proof. intros c Hc. split; [exact Hc | constructor]. Qed.

Lemma respects_throw {A} e : respects P T (@throw A e).
Proof. intros c Hc. split; [exact Hc | constructor]. Qed.

Lemma respects_pending {A} : respects P T (@pending A).
Proof. intros c Hc. split; [exact Hc | constructor]. Qed.

Lemma respects_modify f : (forall c, P c -> P (f c)) -> respects P T (modify f).
Proof. intros Hf c Hc. split; [by apply Hf | constructor]. Qed.

Lemma respects_emit e : T e -> respects P T (emit e).
Proof. intros He c Hc. split; [exact Hc | by repeat constructor]. Qed.

Lemma respects_bind {A B} (m : M A) (k : A -> M B) :
  respects P T m -> (forall a, respects P T (k a)) -> respects P T (m ≫= k).
Proof.
  intros Hm Hk c Hc. destruct (Hm c Hc) as [H1 H2].
  unfold mbind, M_bind, bind, state_of, trace_of in *.
  destruct (m c) as [[[a|e|] c1] t1]; cbn in *; try done.
  destruct (Hk a c1 H1) as [H3 H4].
  unfold state_of, trace_of in *.
  destruct (k a c1) as [[o c2] t2]; cbn in *.
  split; [done | by apply Forall_app].
Qed.

Lemma respects_fmap {A B} (f : A -> B) (m : M A) :
  respects P T m -> respects P T (f <$> m).
Proof.
  intros Hm. unfold fmap, M_fmap.
  apply (respects_bind m (fun a => ret (f a))); [done|].
  intros a. apply (respects_ret (f a)).
Qed.

Lemma respects_try_catch {A} (m : M A) (h : JsError -> M A) :
  respects P T m -> (forall e, respects P T (h e)) -> respects P T (try_catch m h).
Proof.
  intros Hm Hh c Hc. destruct (Hm c Hc) as [H1 H2].
  unfold try_catch, state_of, trace_of in *.
  destruct (m c) as [[[a|e|] c1] t1]; cbn in *; try done.
  destruct (Hh e c1 H1) as [H3 H4].
  unfold state_of, trace_of in *.
  destruct (h e c1) as [[o c2] t2]; cbn in *.
  split; [done | by apply Forall_app].
Qed.

Lemma respects_forEach {A} (f : A -> M unit) (l : list A) :
  (forall a, respects P T (f a)) -> respects P T (forEach f l).
Proof.
  intros Hf. induction l as [|a l IH]; cbn [forEach].
  - apply respects_ret.
  - apply respects_bind; [apply Hf | intros _; exact IH].
Qed.

Lemma respects_await {A} req (r : Reply A) :
  T (Net req) -> respects P T (await req r).
Proof.
  intros Hreq. unfold await. apply respects_bind; [by apply respects_emit|].
  intros _. destruct r; [apply respects_ret | apply respects_throw].
Qed.

Lemma respects_triggerEvent event data :
  (forall h, T (Invoke h event data)) -> respects P T (_triggerEvent event data).
Proof.
  intros HT. unfold _triggerEvent. apply respects_bind; [apply respects_get|].
  intros c. destruct (listeners_get (listeners c) event).
  - apply respects_forEach. intros h. by apply respects_emit.
  - apply respects_throw.
  - apply respects_ret.
Qed.

End Respects.

(** One step of a proof that a method respects an invariant: split the
    method along its own structure. *)
Ltac respects_step :=
  lazymatch goal with
  | |- respects _ _ (mbind _ _) => apply respects_bind; [|intros ?]
  | |- respects _ _ (try_catch _ _) => apply respects_try_catch; [|intros ?]
  | |- respects _ _ (fmap _ _) => apply respects_fmap
  | |- respects _ _ (mret _) => apply respects_ret
  | |- respects _ _ get => apply respects_get
  | |- respects _ _ (throw _) => apply respects_throw
  | |- respects _ _ pending => apply respects_pending
  | |- respects _ _ (forEach _ _) => apply respects_forEach; intros ?
  | |- respects _ _ (if ?b then _ else _) => destruct b
  | |- respects _ _ (match ?x with _ => _ end) => destruct x
  end.

(** ** Persistent cache *)

Section CacheProperties.

Implicit Types (cache : gmap string (list Message)) (messages : list Message).

Lemma prune_room_short messages :
  (length messages <= 1000)%nat -> prune_room messages = messages.
Proof.
  intros H. unfold prune_room.
  destruct (Nat.ltb_spec 1000 (length messages)); [lia | done].
Qed.

Lemma prune_room_long messages :
  (1000 < length messages)%nat ->
  prune_room messages = drop (length messages - 1000) messages
  /\ length (prune_room messages) = 1000%nat.
Proof.
  intros H. unfold prune_room.
  destruct (Nat.ltb_spec 1000 (length messages)); [|lia].
  split; [done|]. rewrite length_drop. lia.
Qed.

Lemma prune_room_idemp messages : prune_room (prune_room messages) = prune_room messages.
Proof.
  destruct (Nat.le_gt_cases (length messages) 1000) as [Hle|Hgt].
  - rewrite (prune_room_short messages Hle). by apply prune_room_short.
  - apply prune_room_short. destruct (prune_room_long _ Hgt) as [_ ->]. lia.
Qed.

Lemma prune_step_lookup cache k r :
  prune_step cache k !! r =
    if decide (k = r) then prune_room <$> cache !! r else cache !! r.
Proof.
  unfold prune_step.
  destruct (decide (k = r)) as [->|Hne].
  - destruct (cache !! r) as [messages|] eqn:Hr; [|by rewrite Hr].
    change (prune_room <$> Some messages) with (Some (prune_room messages)).
    unfold prune_room.
    destruct (1000 <? length messages)%nat; [by rewrite lookup_insert_eq | by rewrite Hr].
  - destruct (cache !! k) as [messages|]; [|done].
    destruct (1000 <? length messages)%nat; [|done].
    by rewrite lookup_insert_ne.
Qed.

Lemma prune_fold_lookup keys cache r :
  fold_left prune_step keys cache !! r =
    if decide (r ∈ keys) then prune_room <$> cache !! r else cache !! r.
Proof.
  revert cache. induction keys as [|k keys IH]; intros cache; cbn [fold_left].
  - destruct (decide (r ∈ [])) as [H|_]; [by apply elem_of_nil in H | done].
  - rewrite IH, prune_step_lookup.
    destruct (decide (k = r)) as [->|Hne].
    + destruct (decide (r ∈ r :: keys)) as [_|H]; [|by destruct H; left].
      destruct (decide (r ∈ keys)); [|done].
      destruct (cache !! r) as [messages|]; [|done].
      change (prune_room <$> (prune_room <$> Some messages))
        with (Some (prune_room (prune_room messages))).
      by rewrite prune_room_idemp.
    + destruct (decide (r ∈ keys)) as [Hin|Hnin].
      * destruct (decide (r ∈ k :: keys)) as [_|H]; [done | by destruct H; right].
      * destruct (decide (r ∈ k :: keys)) as [H|_]; [|done].
        apply elem_of_cons in H as [->|H]; done.
Qed.

(** The loop over the rooms prunes each room on its own. *)
Lemma prune_lookup cache r : prune cache !! r = prune_room <$> cache !! r.
Proof.
  unfold prune. rewrite prune_fold_lookup.
  destruct (decide (r ∈ elements (dom cache))) as [_|Hnin]; [done|].
  rewrite elem_of_elements, elem_of_dom in Hnin.
  destruct (cache !! r); [by destruct Hnin | done].
Qed.

(** C5. [_pruneMessageCache] cuts every room that holds more than 1000
    records down to exactly 1000, the last 1000 in insertion order (the
    oldest ones go), leaves every other room as it is, and touches nothing
    else of the client. *)
Theorem pruneMessageCache_keeps_newest c roomId messages :
  messageCache c !! roomId = Some messages ->
  let c' := state_of (_pruneMessageCache c) in
  c' = with_messageCache (messageCache c') c
  /\ ((1000 < length messages)%nat ->
      exists dropped kept,
        messageCache c' !! roomId = Some kept
        /\ messages = dropped ++ kept
        /\ length kept = 1000%nat)
  /\ ((length messages <= 1000)%nat -> messageCache c' !! roomId = Some messages).
Proof.
  intros Hroom c'. subst c'.
  unfold _pruneMessageCache, modify, state_of.
  cbn [fst snd messageCache with_messageCache].
  rewrite prune_lookup, Hroom.
  change (prune_room <$> Some messages) with (Some (prune_room messages)).
  split; [done|]. split.
  - intros Hlong. destruct (prune_room_long _ Hlong) as [Heq Hlen].
    exists (take (length messages - 1000) messages), (prune_room messages).
    split; [done|]. split; [|done].
    rewrite Heq. by rewrite take_drop.
  - intros Hshort. by rewrite prune_room_short.
Qed.

Lemma pruneMessageCache_keeps_newest_witness :
  messageCache (Demo.in_room 1500) !! Demo.room_id = Some (Demo.cached_messages 1500)
  /\ exists dropped kept,
       messageCache (state_of (_pruneMessageCache (Demo.in_room 1500))) !! Demo.room_id
         = Some kept
       /\ Demo.cached_messages 1500 = dropped ++ kept
       /\ length kept = 1000%nat.
Proof.
  assert (Hroom : messageCache (Demo.in_room 1500) !! Demo.room_id
                  = Some (Demo.cached_messages 1500)) by (vm_compute; reflexivity).
  split; [exact Hroom|].
  destruct (pruneMessageCache_keeps_newest
              (Demo.in_room 1500) Demo.room_id (Demo.cached_messages 1500) Hroom)
    as (_ & Hlong & _).
  apply Hlong. apply Nat.ltb_lt. vm_compute. reflexivity.
Defined.

(** A room that has no cache entry gets none. *)
Lemma pruneMessageCache_absent c roomId :
  messageCache c !! roomId = None ->
  messageCache (state_of (_pruneMessageCache c)) !! roomId = None.
Proof.
  intros H. unfold _pruneMessageCache, modify, state_of.
  cbn [fst snd messageCache with_messageCache]. by rewrite prune_lookup, H.
Qed.

Lemma has_id_spec id messages : has_id id messages = true <-> id ∈ ids messages.
Proof.
  unfold has_id, ids. rewrite existsb_exists, list_elem_of_fmap.
  split.
  - intros (m & Hin & Heq). apply String.eqb_eq in Heq.
    exists m. split; [done | by apply list_elem_of_In].
  - intros (m & -> & Hin). exists m. split; [by apply list_elem_of_In|].
    apply String.eqb_refl.
Qed.

Lemma has_id_false id messages : has_id id messages = false <-> id ∉ ids messages.
Proof.
  rewrite <- has_id_spec. destruct (has_id id messages); split; try done.
Qed.

Lemma has_id_app id l k : has_id id (l ++ k) = has_id id l || has_id id k.
Proof. unfold has_id. apply existsb_app. Qed.

(** Pruning never loses the record that was appended last. *)
Lemma has_id_prune_room_snoc messages message :
  has_id (m_id message) (prune_room (messages ++ [message])) = true.
Proof.
  assert (Hlast : has_id (m_id message) [message] = true).
  { unfold has_id. cbn [existsb]. by rewrite String.eqb_refl. }
  unfold prune_room. destruct (1000 <? length (messages ++ [message]))%nat eqn:Hlen.
  - rewrite length_app. cbn [length].
    rewrite drop_app_le by lia.
    by rewrite has_id_app, Hlast, orb_true_r.
  - by rewrite has_id_app, Hlast, orb_true_r.
Qed.

Lemma cache_wf_empty : cache_wf ∅.
Proof. intros r ms H. by rewrite lookup_empty in H. Qed.

Lemma cache_wf_insert cache r messages :
  cache_wf cache -> NoDup (ids messages) -> cache_wf (<[r := messages]> cache).
Proof.
  intros Hwf Hnd r' ms. rewrite lookup_insert. case_decide.
  - by intros [= <-].
  - apply Hwf.
Qed.

Lemma NoDup_ids_prune_room messages :
  NoDup (ids messages) -> NoDup (ids (prune_room messages)).
Proof.
  unfold prune_room. destruct (1000 <? length messages)%nat; [|done].
  unfold ids. rewrite fmap_drop. intros Hnd.
  eapply sublist_NoDup; [exact Hnd | apply sublist_drop].
Qed.

Lemma cache_wf_prune cache : cache_wf cache -> cache_wf (prune cache).
Proof.
  intros Hwf r ms. rewrite prune_lookup.
  destruct (cache !! r) as [ms0|] eqn:Hr; [|done].
  intros [= <-]. apply NoDup_ids_prune_room. by apply (Hwf r).
Qed.

Lemma NoDup_ids_snoc messages message :
  NoDup (ids messages) -> has_id (m_id message) messages = false ->
  NoDup (ids (messages ++ [message])).
Proof.
  intros Hnd Hnew. apply has_id_false in Hnew.
  unfold ids in *. rewrite fmap_app. apply NoDup_app. split; [done|].
  split; [|apply NoDup_singleton].
  intros x Hx Hx'. apply list_elem_of_singleton in Hx'. by subst.
Qed.

Lemma NoDup_ids_mark_room id messages :
  NoDup (ids messages) -> NoDup (ids (mark_room id messages)).
Proof.
  assert (Heq : ids (mark_room id messages) = ids messages); [|by rewrite Heq].
  unfold ids, mark_room. induction messages as [|m l IH]; [done|].
  cbn. rewrite IH. f_equal. by destruct (String.eqb (m_id m) id).
Qed.

(** What [_saveMessageCache] leaves in memory: the cache, pruned when the
    store is full. It returns normally and calls nobody. *)
Lemma saveMessageCache_run sdk c :
  outcome_of (_saveMessageCache sdk c) = Ret tt
  /\ trace_of (_saveMessageCache sdk c) = []
  /\ messageCache (state_of (_saveMessageCache sdk c)) =
       match setItem sdk (messageCache c) with
       | QuotaExceeded => prune (messageCache c)
       | _ => messageCache c
       end.
Proof.
  unfold _saveMessageCache, _pruneMessageCache, outcome_of, state_of, trace_of.
  unfold mbind, M_bind, bind, mret, M_ret, ret, get, modify.
  cbn [fst snd].
  destruct (setItem sdk (messageCache c)); cbn [fst snd]; try done.
  cbn [messageCache with_messageCache].
  destruct (setItem sdk (prune (messageCache c))); done.
Qed.

(** A put of an id the room already holds does nothing at all. *)
Lemma addMessageToCache_existing sdk roomId message c :
  has_id (m_id message) (default [] (messageCache c !! roomId)) = true ->
  _addMessageToCache sdk roomId message c = (Ret tt, c, []).
Proof.
  intros Hhas. unfold _addMessageToCache.
  unfold mbind, M_bind, bind, mret, M_ret, ret, get, modify.
  destruct (messageCache c !! roomId) as [ms|] eqn:Hroom; [|done].
  cbn [fst snd]. rewrite Hroom. cbn [default] in *. by rewrite Hhas.
Qed.

(** A put of a new id appends the record and saves. *)
Lemma addMessageToCache_new sdk roomId message c :
  has_id (m_id message) (default [] (messageCache c !! roomId)) = false ->
  _addMessageToCache sdk roomId message c =
    _saveMessageCache sdk
      (with_messageCache
         (<[roomId := default [] (messageCache c !! roomId) ++ [message]]> (messageCache c))
         c).
Proof.
  intros Hnew. unfold _addMessageToCache.
  unfold mbind at 1 2 3, M_bind, bind at 1 2 3, mret, M_ret, ret, get, modify.
  destruct (messageCache c !! roomId) as [ms|] eqn:Hroom; cbn [fst snd default] in *.
  - rewrite Hroom. cbn [default]. rewrite Hnew.
    unfold mbind, bind. cbn [fst snd].
    by destruct (_saveMessageCache sdk _) as [[o c2] t2].
  - cbn [messageCache with_messageCache]. rewrite lookup_insert_eq. cbn [default has_id existsb].
    unfold mbind, bind. cbn [fst snd messageCache with_messageCache].
    rewrite insert_insert_eq. unfold id. cbn [existsb].
    by destruct (_saveMessageCache sdk _) as [[o c2] t2].
Qed.

Lemma addMessageToCache_cache sdk roomId message c :
  let messages := default [] (messageCache c !! roomId) in
  messageCache (state_of (_addMessageToCache sdk roomId message c)) =
    if has_id (m_id message) messages then messageCache c
    else
      let cache1 := <[roomId := messages ++ [message]]> (messageCache c) in
      match setItem sdk cache1 with
      | QuotaExceeded => prune cache1
      | _ => cache1
      end.
Proof.
  intros messages. subst messages.
  destruct (has_id (m_id message) (default [] (messageCache c !! roomId))) eqn:Hhas.
  - by rewrite addMessageToCache_existing.
  - rewrite addMessageToCache_new by done.
    by destruct (saveMessageCache_run sdk
                   (with_messageCache
                      (<[roomId := default [] (messageCache c !! roomId) ++ [message]]>
                         (messageCache c)) c)) as (_ & _ & ->).
Qed.

(** After a put the room holds a record with the id, pruned or not. *)
Lemma addMessageToCache_has_id sdk roomId message c :
  has_id (m_id message)
    (default [] (messageCache (state_of (_addMessageToCache sdk roomId message c))
                 !! roomId)) = true.
Proof.
  rewrite addMessageToCache_cache. cbv zeta.
  set (messages := default [] (messageCache c !! roomId)).
  destruct (has_id (m_id message) messages) eqn:Hhas; [done|].
  assert (Hsnoc : has_id (m_id message) (messages ++ [message]) = true).
  { rewrite has_id_app. unfold has_id at 2. cbn [existsb].
    by rewrite String.eqb_refl, orb_true_r. }
  destruct (setItem sdk _).
  - by rewrite lookup_insert_eq.
  - rewrite prune_lookup, lookup_insert_eq.
    change (prune_room <$> Some (messages ++ [message]))
      with (Some (prune_room (messages ++ [message]))).
    apply has_id_prune_room_snoc.
  - by rewrite lookup_insert_eq.
Qed.

Lemma addMessageToCache_wf sdk roomId message c :
  cache_wf (messageCache c) ->
  cache_wf (messageCache (state_of (_addMessageToCache sdk roomId message c))).
Proof.
  intros Hwf. rewrite addMessageToCache_cache. cbv zeta.
  destruct (has_id (m_id message) (default [] (messageCache c !! roomId))) eqn:Hhas;
    [done|].
  assert (Hwf1 : cache_wf (<[roomId := default [] (messageCache c !! roomId) ++ [message]]>
                             (messageCache c))).
  { apply cache_wf_insert; [done|]. apply NoDup_ids_snoc; [|done].
    destruct (messageCache c !! roomId) as [ms|] eqn:Hroom; cbn [default].
    - by apply (Hwf roomId).
    - apply NoDup_nil_2. }
  destruct (setItem sdk _); [done | by apply cache_wf_prune | done].
Qed.

End CacheProperties.

(** ** The history loader respects what its steps respect *)

Section LoaderRespects.

Context (sdk : Sdk) (P : Client -> Prop) (T : Effect -> Prop).

Hypothesis put_ok : forall roomId message,
  respects P T (_addMessageToCache sdk roomId message).
Hypothesis show_ok : forall c roomId event,
  respects P T (_processHistoricalMessage (historical_message c roomId event)).
Hypothesis notice_ok : forall roomId text temporary,
  respects P T (system_message roomId text temporary).
Hypothesis net_ok : forall req, T (Net req).
Hypothesis sleep_ok : forall ms, T (Sleep ms).

Lemma respects_processEvent roomId acc event :
  respects P T (processEvent sdk roomId acc event).
Proof.
  unfold processEvent. destruct acc as [processed n].
  repeat (first [ respects_step | apply put_ok | apply show_ok ]).
Qed.

Lemma respects_processEvents roomId processed events :
  respects P T (processEvents sdk roomId processed events).
Proof.
  unfold processEvents. generalize (processed, 0%nat).
  induction events as [|event rest IH]; intros acc; cbn [processEvents_from].
  - apply respects_ret.
  - apply respects_bind; [apply respects_processEvent | intros acc'; apply IH].
Qed.

Lemma respects_paginateBackward script roomId processed :
  respects P T (paginateBackward sdk script roomId processed).
Proof.
  revert processed. induction script as [|reply script IH]; intros processed;
    cbn [paginateBackward].
  - apply respects_bind; [by apply respects_emit | intros; apply respects_pending].
  - apply respects_try_catch.
    + apply respects_bind; [by apply respects_await|]. intros response.
      destruct (response ≫= chunk) as [[|event events]|].
      * apply respects_bind; [apply notice_ok | intros; apply respects_ret].
      * apply respects_bind; [apply respects_processEvents|].
        intros [processed' newEvents].
        destruct (_ && _); [|apply respects_ret].
        apply respects_bind; [by apply respects_emit | intros; apply IH].
      * apply respects_bind; [apply notice_ok | intros; apply respects_ret].
    + intros error. destruct (is_rate_limit error).
      * apply respects_bind; [by apply respects_emit | intros; apply IH].
      * apply respects_bind; [apply notice_ok | intros; apply respects_ret].
Qed.

Lemma respects_loadRoomHistory roomId : respects P T (_loadRoomHistory sdk roomId).
Proof.
  unfold _loadRoomHistory.
  repeat (first [ respects_step
                | apply notice_ok
                | apply respects_processEvents
                | apply respects_paginateBackward ]).
Qed.

End LoaderRespects.

(** ** The cache invariant along every method *)

Section CacheInvariant.

Variable sdk : Sdk.

Lemma keeps_wf_intro {A} (m : M A) :
  (forall c, cache_wf (messageCache c) -> cache_wf (messageCache (state_of (m c)))) ->
  keeps_wf m.
Proof.
  intros H c Hc. split; [by apply H|]. by apply Forall_forall.
Qed.

Lemma keeps_wf_frame f :
  (forall c, messageCache (f c) = messageCache c) -> keeps_wf (modify f).
Proof. intros Hf. apply respects_modify. intros c. by rewrite Hf. Qed.

Lemma keeps_wf_add roomId message : keeps_wf (_addMessageToCache sdk roomId message).
Proof. apply keeps_wf_intro. intros c. apply addMessageToCache_wf. Qed.

Lemma keeps_wf_save : keeps_wf (_saveMessageCache sdk).
Proof.
  apply keeps_wf_intro. intros c Hc.
  destruct (saveMessageCache_run sdk c) as (_ & _ & ->).
  destruct (setItem sdk _); [done | by apply cache_wf_prune | done].
Qed.

Lemma keeps_wf_mark roomId id : keeps_wf (markRedacted roomId id).
Proof.
  apply keeps_wf_intro. intros c Hc. unfold markRedacted, state_of.
  unfold mbind, M_bind, bind, mret, M_ret, ret, get, modify.
  destruct (messageCache c !! roomId) as [ms|] eqn:Hroom; cbn; [|done].
  apply cache_wf_insert; [done|]. apply NoDup_ids_mark_room. by apply (Hc roomId).
Qed.

Lemma keeps_wf_clear : keeps_wf clearMessageCache.
Proof.
  apply keeps_wf_intro. intros c _. cbn. apply cache_wf_empty.
Qed.

(** Leaves of a method: the primitive steps. *)
Ltac keeps_wf_leaf :=
  lazymatch goal with
  | |- respects _ _ (_addMessageToCache _ _ _) => apply keeps_wf_add
  | |- respects _ _ (_saveMessageCache _) => apply keeps_wf_save
  | |- respects _ _ (markRedacted _ _) => apply keeps_wf_mark
  | |- respects _ _ clearMessageCache => apply keeps_wf_clear
  | |- respects _ _ (_triggerEvent _ _) => apply respects_triggerEvent; intros; exact I
  | |- respects _ _ (await _ _) => apply respects_await; exact I
  | |- respects _ _ (emit _) => apply respects_emit; exact I
  | |- respects _ _ (modify _) => apply keeps_wf_frame; intros; reflexivity
  end.

Ltac keeps_wf_auto :=
  unfold keeps_wf; repeat (first [ respects_step | keeps_wf_leaf ]).

Lemma keeps_wf_processHistoricalMessage msg : keeps_wf (_processHistoricalMessage msg).
Proof. unfold _processHistoricalMessage. keeps_wf_auto. Qed.

Lemma keeps_wf_system_message roomId text temporary :
  keeps_wf (system_message roomId text temporary).
Proof. unfold system_message. keeps_wf_auto. Qed.

Lemma keeps_wf_error_event context message : keeps_wf (error_event context message).
Proof. unfold error_event. keeps_wf_auto. Qed.

Lemma keeps_wf_loadRoomHistory roomId : keeps_wf (_loadRoomHistory sdk roomId).
Proof.
  apply respects_loadRoomHistory; intros.
  - apply keeps_wf_add.
  - apply keeps_wf_processHistoricalMessage.
  - apply keeps_wf_system_message.
  - exact I.
  - exact I.
Qed.

Lemma keeps_wf_updateRoomState roomId : keeps_wf (_updateRoomState sdk roomId).
Proof.
  unfold _updateRoomState.
  unfold keeps_wf.
  repeat (first [ respects_step | apply keeps_wf_error_event | keeps_wf_leaf ]).
Qed.

Lemma keeps_wf_joinRoom roomIdOrAlias inviteCode :
  keeps_wf (joinRoom sdk roomIdOrAlias inviteCode).
Proof.
  unfold joinRoom, _getMessageCache, storage_set.
  unfold keeps_wf.
  repeat (first [ respects_step
                | apply keeps_wf_error_event
                | apply keeps_wf_updateRoomState
                | apply keeps_wf_processHistoricalMessage
                | apply keeps_wf_loadRoomHistory
                | keeps_wf_leaf ]).
Qed.

Lemma keeps_wf_sendRoll notation : keeps_wf (sendRoll sdk notation).
Proof.
  unfold sendRoll.
  unfold keeps_wf.
  repeat (first [ respects_step | apply keeps_wf_error_event | keeps_wf_leaf ]).
Qed.

Lemma keeps_wf_deleteLastMessage : keeps_wf (deleteLastMessage sdk).
Proof.
  unfold deleteLastMessage.
  unfold keeps_wf.
  repeat (first [ respects_step | apply keeps_wf_error_event | keeps_wf_leaf ]).
Qed.

(** The methods that only send, sign in or out, or move between rooms. *)
Ltac keeps_wf_method :=
  unfold keeps_wf;
  repeat (first [ respects_step
                | lazymatch goal with
                  | |- respects _ _ (error_event _ _) => apply keeps_wf_error_event
                  end
                | keeps_wf_leaf ]).

Lemma keeps_wf_login username password : keeps_wf (login sdk username password).
Proof. unfold login, storage_set. keeps_wf_method. Qed.

Lemma keeps_wf_loginWithToken : keeps_wf (loginWithToken sdk).
Proof.
  unfold loginWithToken, stored_login, keeps_wf.
  repeat (first
    [ lazymatch goal with
      | |- respects _ _ (login _ _ _) => apply keeps_wf_login
      | |- respects _ _ (error_event _ _) => apply keeps_wf_error_event
      end
    | respects_step
    | keeps_wf_leaf ]).
Qed.

Lemma keeps_wf_logout : keeps_wf logout.
Proof. unfold logout, clear_credentials, storage_remove. keeps_wf_method. Qed.

Lemma keeps_wf_leaveRoom : keeps_wf (leaveRoom sdk).
Proof. unfold leaveRoom, storage_remove. keeps_wf_method. Qed.

Lemma keeps_wf_reset : keeps_wf (reset sdk).
Proof. unfold reset, clear_credentials, storage_remove. keeps_wf_method. Qed.

Lemma keeps_wf_sendMessage text type : keeps_wf (sendMessage sdk text type).
Proof. unfold sendMessage. keeps_wf_method. Qed.

Lemma keeps_wf_sendScene sceneName sceneType :
  keeps_wf (sendScene sdk sceneName sceneType).
Proof. unfold sendScene. keeps_wf_method. Qed.

Lemma keeps_wf_sendNarration text : keeps_wf (sendNarration sdk text).
Proof. unfold sendNarration. keeps_wf_method. Qed.

Lemma keeps_wf_clearAllMessages : keeps_wf (clearAllMessages sdk).
Proof. unfold clearAllMessages. keeps_wf_method. Qed.

Lemma keeps_wf_on event callback : keeps_wf (on event callback).
Proof. unfold on. keeps_wf_method. Qed.

Lemma keeps_wf_off event callback : keeps_wf (off event callback).
Proof. unfold off. keeps_wf_method. Qed.

Lemma keeps_wf_onSyncError error : keeps_wf (onSyncError error).
Proof. unfold onSyncError. keeps_wf_method. Qed.

(** Every command keeps every room free of duplicate ids. *)
Lemma keeps_wf_processCommand input type : keeps_wf (processCommand sdk input type).
Proof.
  unfold processCommand, usage_error, keeps_wf.
  repeat (first
    [ lazymatch goal with
      | |- respects _ _ (login _ _ _) => apply keeps_wf_login
      | |- respects _ _ (joinRoom _ _ _) => apply keeps_wf_joinRoom
      | |- respects _ _ (leaveRoom _) => apply keeps_wf_leaveRoom
      | |- respects _ _ (reset _) => apply keeps_wf_reset
      | |- respects _ _ (sendRoll _ _) => apply keeps_wf_sendRoll
      | |- respects _ _ (sendScene _ _ _) => apply keeps_wf_sendScene
      | |- respects _ _ (sendNarration _ _) => apply keeps_wf_sendNarration
      | |- respects _ _ (deleteLastMessage _) => apply keeps_wf_deleteLastMessage
      | |- respects _ _ logout => apply keeps_wf_logout
      | |- respects _ _ (sendMessage _ _ _) => apply keeps_wf_sendMessage
      | |- respects _ _ (error_event _ _) => apply keeps_wf_error_event
      end
    | respects_step
    | keeps_wf_leaf ]).
Qed.

(** So does every live event. *)
Lemma keeps_wf_onRoomTimeline event roomId : keeps_wf (onRoomTimeline sdk event roomId).
Proof.
  unfold onRoomTimeline, onRedaction, refresh_on_membership, keeps_wf.
  repeat (first [ respects_step | apply keeps_wf_updateRoomState | keeps_wf_leaf ]).
Qed.

End CacheInvariant.

(** C4. Cache put is idempotent. A put of a message whose event id the room
    already holds changes nothing (no record added, none altered, nothing
    saved); a second put of the same message after a first one is such a
    put; a put keeps every room free of two records with one id, and so do
    every command, every live event and the two methods no command reaches:
    from the empty cache of a new client on, no room ever holds two records
    with one id. *)
Theorem cache_put_idempotent sdk roomId message c :
  let c1 := state_of (_addMessageToCache sdk roomId message c) in
  (has_id (m_id message) (default [] (messageCache c !! roomId)) = true ->
   _addMessageToCache sdk roomId message c = (Ret tt, c, []))
  /\ _addMessageToCache sdk roomId message c1 = (Ret tt, c1, [])
  /\ (cache_wf (messageCache c) -> cache_wf (messageCache c1))
  /\ (forall input type, keeps_wf (processCommand sdk input type))
  /\ (forall event room, keeps_wf (onRoomTimeline sdk event room))
  /\ keeps_wf (clearAllMessages sdk)
  /\ keeps_wf (loginWithToken sdk)
  /\ (forall store session, cache_wf (messageCache (new_client store None session))).
Proof.
  cbv zeta. split; [apply addMessageToCache_existing|]. split.
  - apply addMessageToCache_existing, addMessageToCache_has_id.
  - split; [apply addMessageToCache_wf|]. split.
    + apply keeps_wf_processCommand.
    + split; [apply keeps_wf_onRoomTimeline|].
      split; [apply keeps_wf_clearAllMessages|].
      split; [apply keeps_wf_loginWithToken|].
      intros store session. apply cache_wf_empty.
Qed.

(** ** Redaction marks *)

Section RedactionProperties.





Lemma with_messageCache_same c : with_messageCache (messageCache c) c = c.
Proof. by destruct c. Qed.

Lemma markRedacted_run roomId id c :
  markRedacted roomId id c =
    (Ret tt,
     match messageCache c !! roomId with
     | Some messages =>
         with_messageCache (<[roomId := mark_room id messages]> (messageCache c)) c
     | None => c
     end,
     []).
Proof.
  unfold markRedacted, mbind, M_bind, bind, mret, M_ret, ret, get, modify.
  by destruct (messageCache c !! roomId).
Qed.


(** The live listener and [deleteLastMessage] save right after the mark;
    in memory that adds the pruning of a save that hits the quota, and
    nothing else. *)
Lemma onRedaction_cache sdk roomId event id c :
  ev_associatedId event = Some id -> Js.truthy id = true ->
  is_Some (messageCache c !! roomId) ->
  let marked := messageCache (state_of (markRedacted roomId id c)) in
  messageCache (state_of (onRedaction sdk roomId event c)) =
    match setItem sdk marked with
    | QuotaExceeded => prune marked
    | _ => marked
    end.
Proof.
  intros Hid Htruthy [ms Hroom]. cbv zeta.
  unfold onRedaction. unfold mbind at 1, M_bind, bind at 1, get.
  rewrite Hid, Hroom, Htruthy.
  unfold mbind, M_bind, bind. rewrite markRedacted_run, Hroom.
  unfold state_of at 2. cbn [fst snd].
  destruct (saveMessageCache_run sdk
              (with_messageCache (<[roomId := mark_room id ms]> (messageCache c)) c))
    as (_ & _ & Hsave).
  unfold state_of in *.
  destruct (_saveMessageCache sdk _) as [[o c2] t2]. cbn [fst snd] in *.
  exact Hsave.
Qed.

(** Without a referenced id, or without a cache entry for the room, the
    redaction branch does nothing at all. *)
Lemma onRedaction_skip sdk roomId event c :
  (Js.truthy_opt (ev_associatedId event) = false \/ messageCache c !! roomId = None) ->
  onRedaction sdk roomId event c = (Ret tt, c, []).
Proof.
  intros H. unfold onRedaction, mbind, M_bind, bind, get.
  destruct (ev_associatedId event) as [id|]; [|done].
  destruct (messageCache c !! roomId); [|done].
  destruct H as [H|H]; [|done]. cbn in H. by rewrite H.
Qed.

End RedactionProperties.

(** ** Event bus: what a trigger does *)

Section BusProperties.

Lemma forEach_emit event data hs c :
  forEach (fun callback => emit (Invoke callback event data)) hs c =
    (Ret tt, c, map (fun h => Invoke h event data) hs).
Proof.
  induction hs as [|h hs IH]; [done|].
  cbn [forEach map]. unfold mbind, M_bind, bind.
  change (emit (Invoke h event data) c) with (Ret tt, c, [Invoke h event data]).
  cbv beta iota. by rewrite IH.
Qed.

(** On a channel whose name [Object.prototype] does not provide, a trigger
    calls the registered handlers in order and changes nothing. *)
Lemma triggerEvent_run event data c :
  event ∉ object_prototype_members ->
  _triggerEvent event data c = (Ret tt, c, published c event data).
Proof.
  intros Hev. unfold _triggerEvent, published, listeners_get.
  unfold mbind, M_bind, bind, get.
  destruct (listeners c !! event) as [hs|].
  - by rewrite forEach_emit.
  - by rewrite bool_decide_eq_false_2.
Qed.

Lemma error_event_run context message c :
  error_event context message c =
    (Ret tt, c, published c "error" (PError context message)).
Proof.
  apply triggerEvent_run.
  apply (bool_decide_unpack ("error" ∉ object_prototype_members)). by vm_compute.
Qed.

End BusProperties.

(** ** Command interpreter *)

Section CommandProperties.

Lemma published_no_net c event data :
  Forall (fun e => is_net e = false) (published c event data).
Proof. unfold published. apply Forall_forall. intros e He.
  apply list_elem_of_fmap in He as (h & -> & _). done.
Qed.

(** C3, as the code has it. An input that starts with a slash and with none
    of the interpreter's own prefixes (the table of the spec, and also
    /clear-cache) is answered by one error event, context command and
    message Unknown command, on the error channel; the command resolves to
    false, the client is left exactly as it was (cache, session, stores),
    and no request goes out. *)
Theorem processCommand_unknown sdk input type c :
  Js.startsWith "/" input = true ->
  no_command_prefix input = true ->
  let r := processCommand sdk input type c in
  outcome_of r = Ret (RBool false)
  /\ state_of r = c
  /\ trace_of r = published c "error" (PError "command" "Unknown command")
  /\ Forall (fun e => is_net e = false) (trace_of r).
Proof.
  intros Hslash Hnone. cbv zeta.
  assert (Hrun : processCommand sdk input type c =
                 (Ret (RBool false), c,
                  published c "error" (PError "command" "Unknown command"))).
  { unfold no_command_prefix, command_prefixes in Hnone. cbn [forallb] in Hnone.
    repeat (apply andb_true_iff in Hnone as [?%negb_true_iff Hnone]).
    destruct input as [|a input]; [done|].
    cbn [Js.startsWith] in Hslash.
    destruct (Ascii.eqb_spec "/" a) as [<-|]; [|done].
    unfold processCommand. cbn [Js.truthy negb].
    repeat match goal with H : Js.startsWith _ _ = false |- _ => rewrite H; clear H end.
    replace (String.eqb (String "/" input) "narrate") with false by done.
    replace (Js.startsWith "narrate " (String "/" input)) with false by done.
    cbn [orb Js.startsWith Ascii.eqb Bool.eqb].
    unfold usage_error, mbind, M_bind, bind. rewrite error_event_run.
    unfold mret, M_ret, ret. by rewrite app_nil_r. }
  rewrite Hrun. unfold outcome_of, state_of, trace_of. cbn [fst snd].
  repeat split. apply published_no_net.
Qed.

Lemma processCommand_unknown_witness :
  let r := processCommand Demo.sdk "/unknown" "chat" (Demo.in_room 2) in
  outcome_of r = Ret (RBool false)
  /\ state_of r = Demo.in_room 2
  /\ trace_of r = [Invoke 2%nat "error" (PError "command" "Unknown command")]
  /\ Forall (fun e => is_net e = false) (trace_of r).
Proof.
  apply (processCommand_unknown Demo.sdk "/unknown" "chat" (Demo.in_room 2));
    reflexivity.
Defined.

(** C3 as stated fails on /clear-cache, which the table of the spec does
    not list: the command succeeds, raises no error and empties the cache,
    in memory and in the store. *)
Lemma processCommand_clear_cache_counterexample :
  let r := processCommand Demo.sdk "/clear-cache" "chat" (Demo.in_room 2) in
  Js.startsWith "/" "/clear-cache" = true
  /\ messageCache (Demo.in_room 2) !! Demo.room_id = Some (Demo.cached_messages 2)
  /\ outcome_of r = Ret (RBool true)
  /\ trace_of r = []
  /\ messageCache (state_of r) = ∅
  /\ storedCache (state_of r) = None.
Proof. cbv zeta. repeat split. Qed.

(** A join on a client that holds no protocol client fails with an error
    event, Not logged in, and sends nothing. *)
Lemma joinRoom_not_logged_in sdk roomIdOrAlias inviteCode c :
  client c = false ->
  joinRoom sdk roomIdOrAlias inviteCode c =
    (Ret false, c, published c "error" (PError "joinRoom" "Not logged in")).
Proof.
  intros Hclient. unfold joinRoom, mbind, M_bind, bind, get. cbn [fst snd].
  rewrite Hclient. cbn [negb]. rewrite error_event_run.
  unfold mret, M_ret, ret. cbn [app]. by rewrite app_nil_r.
Qed.

Lemma joinRoom_not_logged_in_witness :
  processCommand Demo.sdk "/join #tavern:matrix.org" "chat" (new_client ∅ None ∅)
    = (Ret (RBool false), new_client ∅ None ∅, [])
  /\ joinRoom Demo.sdk "#tavern:matrix.org" None (new_client ∅ None ∅)
       = (Ret false, new_client ∅ None ∅,
          published (new_client ∅ None ∅) "error" (PError "joinRoom" "Not logged in")).
Proof.
  split; [reflexivity|].
  apply (joinRoom_not_logged_in Demo.sdk "#tavern:matrix.org" None (new_client ∅ None ∅)).
  reflexivity.
Defined.

End CommandProperties.

(** ** Rolls sent to the room *)

Section RollProperties.

Lemma rem2_even z : (Z.rem z 2 =? 0)%Z = Z.even z.
Proof.
  destruct (Z.even z) eqn:He.
  - apply Z.eqb_eq. apply Z.even_spec in He as [k ->].
    rewrite Z.mul_comm. by apply Z.rem_mul.
  - apply Z.eqb_neq. intros Hrem.
    assert (Hz : z = (2 * Z.quot z 2)%Z).
    { pose proof (Z.quot_rem' z 2) as H. lia. }
    assert (Z.even z = true); [|congruence].
    apply Z.even_spec. by exists (Z.quot z 2).
Qed.

Lemma count_hits_even rs : count_hits rs = Z.of_nat (count_even rs).
Proof.
  unfold count_hits, count_even. do 2 f_equal.
  apply filter_ext. intros z. apply rem2_even.
Qed.

Lemma evenOdd_fin z : evenOdd (Js.Fin z) = parity_name z.
Proof. unfold evenOdd, parity_name, Js.rem2_is_zero. by rewrite rem2_even. Qed.

Lemma fold_max2_fin l x :
  exists hi, fold_left Js.max2 l (Js.Fin x) = Js.Fin hi
             /\ (hi = x \/ hi ∈ l) /\ (x <= hi)%Z /\ forall y, y ∈ l -> (y <= hi)%Z.
Proof.
  revert x. induction l as [|a l IH]; intros x; cbn [fold_left Js.max2].
  - exists x. repeat split; [by left | lia |]. intros y Hy. by apply elem_of_nil in Hy.
  - destruct (IH (Z.max x a)) as (hi & Heq & Hin & Hle & Hall).
    exists hi. split; [done|]. split; [|split].
    + destruct Hin as [->|Hin]; [|right; by right].
      destruct (Z.max_spec x a) as [[_ ->]|[_ ->]]; [right; by left | by left].
    + lia.
    + intros y Hy. apply elem_of_cons in Hy as [->|Hy]; [lia | by apply Hall].
Qed.

Lemma fold_min2_fin l x :
  exists lo, fold_left Js.min2 l (Js.Fin x) = Js.Fin lo
             /\ (lo = x \/ lo ∈ l) /\ (lo <= x)%Z /\ forall y, y ∈ l -> (lo <= y)%Z.
Proof.
  revert x. induction l as [|a l IH]; intros x; cbn [fold_left Js.min2].
  - exists x. repeat split; [by left | lia |]. intros y Hy. by apply elem_of_nil in Hy.
  - destruct (IH (Z.min x a)) as (lo & Heq & Hin & Hle & Hall).
    exists lo. split; [done|]. split; [|split].
    + destruct Hin as [->|Hin]; [|right; by right].
      destruct (Z.min_spec x a) as [[_ ->]|[_ ->]]; [by left | right; by left].
    + lia.
    + intros y Hy. apply elem_of_cons in Hy as [->|Hy]; [lia | by apply Hall].
Qed.

(** [Math.max] of a list that is not empty is its greatest element. *)
Lemma math_max_spec l : l <> [] -> exists hi, Js.math_max l = Js.Fin hi /\ is_max_of l hi.
Proof.
  destruct l as [|a l]; [done|]. intros _. unfold Js.math_max. cbn [fold_left Js.max2].
  destruct (fold_max2_fin l a) as (hi & Heq & Hin & Hle & Hall).
  exists hi. split; [done|]. split.
  - destruct Hin as [->|Hin]; [by left | by right].
  - intros y Hy. apply elem_of_cons in Hy as [->|Hy]; [done | by apply Hall].
Qed.

Lemma math_min_spec l : l <> [] -> exists lo, Js.math_min l = Js.Fin lo /\ is_min_of l lo.
Proof.
  destruct l as [|a l]; [done|]. intros _. unfold Js.math_min. cbn [fold_left Js.min2].
  destruct (fold_min2_fin l a) as (lo & Heq & Hin & Hle & Hall).
  exists lo. split; [done|]. split.
  - destruct Hin as [->|Hin]; [by left | by right].
  - intros y Hy. apply elem_of_cons in Hy as [->|Hy]; [done | by apply Hall].
Qed.

(** With no roll at all both extremes are infinite, and both parities
    come out as odd. *)
Lemma evenOdd_no_rolls :
  evenOdd (Js.math_max []) = "odd" /\ evenOdd (Js.math_min []) = "odd".
Proof. done. Qed.

Lemma addMessageToCache_returns sdk roomId message c :
  outcome_of (_addMessageToCache sdk roomId message c) = Ret tt
  /\ trace_of (_addMessageToCache sdk roomId message c) = [].
Proof.
  destruct (has_id (m_id message) (default [] (messageCache c !! roomId))) eqn:Hhas.
  - by rewrite addMessageToCache_existing.
  - rewrite addMessageToCache_new by done.
    by destruct (saveMessageCache_run sdk
                   (with_messageCache
                      (<[roomId := default [] (messageCache c !! roomId) ++ [message]]>
                         (messageCache c)) c)) as (? & ? & _).
Qed.

End RollProperties.

Section SendRollProperties.

(** A run of [sendRoll] either resolves to false, or sends exactly one
    event, whose payload is built from the roll result as follows. *)
Lemma sendRoll_run sdk notation c res :
  sendRoll sdk notation c = res ->
  outcome_of res = Ret false
  \/ exists roomId uid rollResult content fb,
       room c = Some roomId
       /\ userId c = Some uid
       /\ rollDice (random sdk) notation = Some rollResult
       /\ outcome_of res = Ret true
       /\ trace_of res = [Net (ReqSendEvent roomId content)]
       /\ formatted_body content = Some fb
       /\ fb_type fb = Some "roll"
       /\ fb_dice fb = Some notation
       /\ fb_rolls fb = Some (rolls rollResult)
       /\ fb_hits fb = Some (count_hits (rolls rollResult))
       /\ fb_highEvenOdd fb = Some (evenOdd (Js.math_max (rolls rollResult)))
       /\ fb_lowEvenOdd fb = Some (evenOdd (Js.math_min (rolls rollResult))).
Proof.
  intros Hres. unfold sendRoll in Hres.
  unfold mbind at 1, M_bind, bind at 1, get in Hres.
  destruct (not_ready c) eqn:Hready.
  { unfold mbind, M_bind, bind in Hres. rewrite error_event_run in Hres.
    subst res. by left. }
  unfold not_ready in Hready. apply orb_false_iff in Hready as [_ Hroom].
  destruct (room c) as [roomId|] eqn:Hr; [|done]. cbn [from_option id] in Hres.
  unfold try_catch in Hres.
  destruct (rollDice (random sdk) notation) as [rollResult|] eqn:Hroll.
  2:{ unfold mbind, M_bind, bind in Hres. rewrite error_event_run in Hres.
      subst res. by left. }
  destruct (userId c) as [uid|] eqn:Hu.
  2:{ unfold throw, mbind, M_bind, bind in Hres. rewrite error_event_run in Hres.
      subst res. by left. }
  set (content := rpg_content _ _) in Hres.
  unfold await, mbind, M_bind, bind, emit in Hres.
  destruct (sendEvent sdk roomId content) as [event_id|error] eqn:Hsend.
  2:{ unfold throw in Hres. cbn [fst snd] in Hres. rewrite error_event_run in Hres.
      subst res. by left. }
  unfold mret at 1, M_ret, ret at 1 in Hres. cbn [fst snd] in Hres.
  match type of Hres with context [_addMessageToCache sdk roomId ?msg c] =>
    destruct (addMessageToCache_returns sdk roomId msg c) as [Ho Ht];
    unfold outcome_of, trace_of in Ho, Ht;
    destruct (_addMessageToCache sdk roomId msg c) as [[o c2] t2]
  end.
  cbn [fst snd] in Ho, Ht. subst o t2. cbn in Hres. subst res.
  right. exists roomId, uid, rollResult, content.
  eexists. repeat split.
Qed.

(** C8. A [sendRoll] that succeeds on a notation of N dice of M sides,
    1 <= N <= 100 and 1 <= M <= 1000, sends one roll payload: its rolls are
    the N values rolled, [hits] is the number of even values among them,
    [highEvenOdd] names the parity of their maximum and [lowEvenOdd] the
    parity of their minimum. *)
Theorem sendRoll_payload sdk notation n m c :
  parse_notation notation = Some (n, m) ->
  (1 <= n <= 100)%N ->
  (1 <= m <= 1000)%N ->
  outcome_of (sendRoll sdk notation c) = Ret true ->
  exists roomId content fb rs hi lo,
    room c = Some roomId
    /\ trace_of (sendRoll sdk notation c) = [Net (ReqSendEvent roomId content)]
    /\ formatted_body content = Some fb
    /\ fb_type fb = Some "roll"
    /\ fb_rolls fb = Some rs
    /\ length rs = N.to_nat n
    /\ fb_hits fb = Some (Z.of_nat (count_even rs))
    /\ is_max_of rs hi /\ fb_highEvenOdd fb = Some (parity_name hi)
    /\ is_min_of rs lo /\ fb_lowEvenOdd fb = Some (parity_name lo).
Proof.
  intros Hparse Hn Hm Hok.
  destruct (sendRoll_run sdk notation c _ eq_refl) as [Hfalse|Hrun]; [congruence|].
  destruct Hrun as (roomId & uid & rr & content & fb & Hroom & _ & Hroll & _ & Htrace
                    & Hfb & Htype & _ & Hrolls & Hhits & Hhigh & Hlow).
  rewrite (rollDice_accepts _ _ _ _ Hparse) in Hroll by lia.
  injection Hroll as <-. cbn [rolls] in *.
  set (rs := roll_values (random sdk) (N.to_nat n) m) in *.
  assert (Hlen : length rs = N.to_nat n) by apply roll_values_length.
  assert (Hne : rs <> []).
  { intros Hnil. rewrite Hnil in Hlen. cbn in Hlen. lia. }
  destruct (math_max_spec rs Hne) as (hi & Hmax & Hhi).
  destruct (math_min_spec rs Hne) as (lo & Hmin & Hlo).
  exists roomId, content, fb, rs, hi, lo.
  rewrite Hmax, evenOdd_fin in Hhigh. rewrite Hmin, evenOdd_fin in Hlow.
  rewrite count_hits_even in Hhits.
  repeat (split; [assumption|]). assumption.
Qed.

Lemma sendRoll_payload_witness :
  exists roomId content fb rs hi lo,
    room (Demo.in_room 2) = Some roomId
    /\ trace_of (sendRoll Demo.sdk "2d6" (Demo.in_room 2))
         = [Net (ReqSendEvent roomId content)]
    /\ formatted_body content = Some fb
    /\ fb_type fb = Some "roll"
    /\ fb_rolls fb = Some rs
    /\ length rs = 2%nat
    /\ fb_hits fb = Some (Z.of_nat (count_even rs))
    /\ is_max_of rs hi /\ fb_highEvenOdd fb = Some (parity_name hi)
    /\ is_min_of rs lo /\ fb_lowEvenOdd fb = Some (parity_name lo).
Proof.
  apply (sendRoll_payload Demo.sdk "2d6" 2 6 (Demo.in_room 2));
    [reflexivity | lia | lia | vm_compute; reflexivity].
Defined.

End SendRollProperties.

(** ** History loader: failures while paginating *)

Section PaginationProperties.

Lemma system_message_run roomId text temporary c :
  system_message roomId text temporary c =
    (Ret tt, c,
     published c "message" (PSystem (Some "system") roomId text temporary false)).
Proof.
  apply triggerEvent_run.
  apply (bool_decide_unpack ("message" ∉ object_prototype_members)). by vm_compute.
Qed.

Lemma paginateBackward_rate_limited sdk roomId processed c error script :
  is_rate_limit error = true ->
  paginateBackward sdk (Rejected error :: script) roomId processed c =
    (outcome_of (paginateBackward sdk script roomId processed c),
     state_of (paginateBackward sdk script roomId processed c),
     Net (ReqMessages roomId 100) :: Sleep (retryAfter error)
       :: trace_of (paginateBackward sdk script roomId processed c)).
Proof.
  intros Hlimit. cbn [paginateBackward].
  unfold try_catch, await, throw, emit, mbind, M_bind, bind.
  cbn [fst snd]. rewrite Hlimit.
  unfold outcome_of, state_of, trace_of.
  by destruct (paginateBackward sdk script roomId processed c) as [[o c2] t2].
Qed.

Lemma paginateBackward_other_error sdk roomId processed c error script :
  is_rate_limit error = false ->
  paginateBackward sdk (Rejected error :: script) roomId processed c =
    (Ret false, c, Net (ReqMessages roomId 100) :: gave_up c roomId error).
Proof.
  intros Hlimit. cbn [paginateBackward].
  unfold try_catch, await, throw, emit, mbind, M_bind, bind.
  cbn [fst snd]. rewrite Hlimit, system_message_run.
  unfold mret, M_ret, ret, gave_up. cbn [app]. by rewrite app_nil_r.
Qed.

(** However many times the server rate limits, the loader waits each time
    and asks again; the first other error ends the pagination, for any
    continuation of the script: the result is there after finitely many
    answers. *)
Lemma paginateBackward_retries_then_stops sdk roomId processed c limits error script :
  Forall (fun e => is_rate_limit e = true) limits ->
  is_rate_limit error = false ->
  paginateBackward sdk (map Rejected limits ++ Rejected error :: script)
      roomId processed c =
    (Ret false, c,
     retries roomId limits ++ Net (ReqMessages roomId 100) :: gave_up c roomId error).
Proof.
  intros Hlimits Herror. induction Hlimits as [|e limits He _ IH].
  - by apply paginateBackward_other_error.
  - cbn [map app]. rewrite paginateBackward_rate_limited by done.
    rewrite IH. reflexivity.
Qed.

Lemma paginateBackward_retries_then_stops_witness :
  paginateBackward Demo.sdk Demo.flaky_script Demo.room_id ∅ (Demo.in_room 0) =
    (Ret false, Demo.in_room 0,
     retries Demo.room_id [Demo.rate_limited; Demo.rate_limited]
       ++ Net (ReqMessages Demo.room_id 100)
       :: gave_up (Demo.in_room 0) Demo.room_id Demo.network_down).
Proof.
  apply (paginateBackward_retries_then_stops Demo.sdk Demo.room_id ∅ (Demo.in_room 0)
           [Demo.rate_limited; Demo.rate_limited] Demo.network_down).
  - repeat constructor.
  - reflexivity.
Defined.

(** C9. While paginating, a failed request that is a rate limit makes the
    loader wait and ask again, from the same point and with nothing
    changed: the wait is the delay the server names, 5000 ms when it names
    none (or zero). Any other failed request ends the pagination at once,
    whatever the server would answer next: no further request, one system
    notice on the message channel, and a normal return (not an exception). *)
Theorem paginateBackward_failures sdk roomId processed c error script :
  let run := paginateBackward sdk (Rejected error :: script) roomId processed c in
  let resumed := paginateBackward sdk script roomId processed c in
  (is_rate_limit error = true ->
   run = (outcome_of resumed, state_of resumed,
          Net (ReqMessages roomId 100) :: Sleep (retryAfter error) :: trace_of resumed))
  /\ (is_rate_limit error = false ->
      run = (Ret false, c, Net (ReqMessages roomId 100) :: gave_up c roomId error))
  /\ retryAfter error =
       match retry_after_ms error with
       | Some n => if (n =? 0)%N then 5000%N else n
       | None => 5000%N
       end
  /\ (is_rate_limit error = true <-> errcode error = Some "M_LIMIT_EXCEEDED").
Proof.
  cbv zeta. split; [apply paginateBackward_rate_limited|].
  split; [apply paginateBackward_other_error|]. split.
  - unfold retryAfter. by destruct (retry_after_ms error) as [[|p]|].
  - unfold is_rate_limit. apply bool_decide_eq_true.
Qed.

Example paginateBackward_flaky :
  paginateBackward Demo.sdk Demo.flaky_script Demo.room_id ∅ (Demo.in_room 0) =
    (Ret false, Demo.in_room 0,
     [Net (ReqMessages Demo.room_id 100); Sleep 2000;
      Net (ReqMessages Demo.room_id 100); Sleep 2000;
      Net (ReqMessages Demo.room_id 100);
      Invoke 1%nat "message"
        (PSystem (Some "system") Demo.room_id
           "Couldn't load more history: fetch failed" true false)]).
Proof. reflexivity. Qed.

End PaginationProperties.

(** ** Event bus: names outside the listener table *)

Section ListenerProperties.

Lemma listener_names_own event :
  initial_listeners !! event = None <-> event ∉ listener_names.
Proof.
  unfold initial_listeners. rewrite <- not_elem_of_list_to_map.
  rewrite <- list_fmap_compose. unfold compose. cbn [fst]. by rewrite list_fmap_id.
Qed.

(** A name that neither the table nor [Object.prototype] provides:
    registering, unregistering and triggering do nothing. *)
Lemma unknown_name_ignored event callback data c :
  listeners c !! event = None ->
  event ∉ object_prototype_members ->
  on event callback c = (Ret c, c, [])
  /\ off event callback c = (Ret c, c, [])
  /\ _triggerEvent event data c = (Ret tt, c, []).
Proof.
  intros Hown Hproto.
  unfold on, off, _triggerEvent, listeners_get, mbind, M_bind, bind, get.
  cbn [fst snd]. rewrite Hown, bool_decide_eq_false_2 by done. done.
Qed.

Lemma unknown_name_ignored_witness :
  let c := Demo.in_room 2 in
  on "typing" 9%nat c = (Ret c, c, [])
  /\ off "typing" 9%nat c = (Ret c, c, [])
  /\ _triggerEvent "typing" PUndefined c = (Ret tt, c, []).
Proof.
  apply (unknown_name_ignored "typing" 9%nat PUndefined (Demo.in_room 2));
    [reflexivity|].
  apply (bool_decide_unpack ("typing" ∉ object_prototype_members)). by vm_compute.
Defined.

(** C10 fails on the names [Object.prototype] provides: they are outside
    the listener table, the table still answers for them with a value that
    is no array, and [on], [off] and a trigger end in a TypeError instead
    of returning the client. *)
Theorem on_off_inherited_name_throws :
  let c := new_client ∅ None ∅ in
  ("toString" ∉ listener_names)
  /\ listeners c !! "toString" = None
  /\ on "toString" 7%nat c =
       (Throw (TypeError "this.listeners[event].push is not a function"), c, [])
  /\ off "toString" 7%nat c =
       (Throw (TypeError "this.listeners[event].filter is not a function"), c, [])
  /\ Forall (fun event => exists e, outcome_of (on event 7%nat c) = Throw e)
       object_prototype_members.
Proof.
  cbv zeta. split.
  { apply (bool_decide_unpack ("toString" ∉ listener_names)). by vm_compute. }
  split; [done|]. split; [done|]. split; [done|].
  unfold object_prototype_members.
  repeat (apply Forall_cons_2; [by eexists|]). apply Forall_nil_2.
Qed.

(** On a name of the table, [on] appends the handler and returns the
    client; a later trigger calls it. *)
Lemma on_known_name event callback hs c :
  listeners c !! event = Some hs ->
  let c' := with_listeners (<[event := hs ++ [callback]]> (listeners c)) c in
  on event callback c = (Ret c', c', [])
  /\ forall data, In (Invoke callback event data) (trace_of (_triggerEvent event data c')).
Proof.
  intros Hown. cbv zeta. split.
  - unfold on, listeners_get, mbind, M_bind, bind, get, modify. cbn [fst snd].
    by rewrite Hown.
  - intros data. unfold _triggerEvent, listeners_get, mbind, M_bind, bind, get.
    cbn [fst snd listeners with_listeners]. rewrite lookup_insert_eq.
    rewrite forEach_emit. unfold trace_of. cbn [snd].
    cbn [app]. rewrite map_app. apply in_or_app. right. by left.
Qed.

End ListenerProperties.

(** ** Phases of a method: pre- and postconditions *)

Section Triples.

Context (T : Effect -> Prop).

Lemma triple_ret {A} (P : Client -> Prop) (a : A) E :
  triple P T (mret a) (fun b c => b = a /\ P c) E.
Proof. intros c Hc. split; [constructor | by split]. Qed.

Lemma triple_get (P : Client -> Prop) E :
  triple P T get (fun a c => a = c /\ P c) E.
Proof. intros c Hc. split; [constructor | by split]. Qed.

Lemma triple_modify (P : Client -> Prop) f E :
  triple P T (modify f) (fun _ c => exists c0, P c0 /\ c = f c0) E.
Proof. intros c Hc. split; [constructor | by exists c]. Qed.

Lemma triple_bind {A B} P (m : M A) Q (k : A -> M B) R E :
  triple P T m Q E -> (forall a, triple (Q a) T (k a) R E) ->
  triple P T (m ≫= k) R E.
Proof.
  intros Hm Hk c Hc. destruct (Hm c Hc) as [Ht Ho].
  unfold mbind, M_bind, bind, outcome_of, state_of, trace_of in *.
  destruct (m c) as [[[a|e|] c1] t1]; cbn [fst snd] in *; try done.
  destruct (Hk a c1 Ho) as [Ht2 Ho2].
  unfold outcome_of, state_of, trace_of in *.
  destruct (k a c1) as [[o c2] t2]; cbn [fst snd] in *.
  split; [by apply Forall_app | done].
Qed.

Lemma triple_try_catch {A} P (m : M A) Q E' (h : JsError -> M A) E :
  triple P T m Q E' -> (forall e, triple (E' e) T (h e) Q E) ->
  triple P T (try_catch m h) Q E.
Proof.
  intros Hm Hh c Hc. destruct (Hm c Hc) as [Ht Ho].
  unfold try_catch, outcome_of, state_of, trace_of in *.
  destruct (m c) as [[[a|e|] c1] t1]; cbn [fst snd] in *; try done.
  destruct (Hh e c1 Ho) as [Ht2 Ho2].
  unfold outcome_of, state_of, trace_of in *.
  destruct (h e c1) as [[o c2] t2]; cbn [fst snd] in *.
  split; [by apply Forall_app | done].
Qed.

Lemma triple_conseq {A} (P P' : Client -> Prop) (m : M A) (Q Q' : A -> Client -> Prop)
    (E E' : JsError -> Client -> Prop) :
  (forall c, P' c -> P c) ->
  (forall a c, Q a c -> Q' a c) ->
  (forall e c, E e c -> E' e c) ->
  triple P T m Q E -> triple P' T m Q' E'.
Proof.
  intros HP HQ HE Hm c Hc. destruct (Hm c (HP c Hc)) as [Ht Ho].
  split; [done|]. destruct (outcome_of (m c)); auto.
Qed.

(** An invariant is a pre- and postcondition at once. *)
Lemma triple_of_respects {A} (P : Client -> Prop) (m : M A) :
  respects P T m -> triple P T m (fun _ => P) (fun _ => P).
Proof.
  intros Hm c Hc. destruct (Hm c Hc) as [Hs Ht].
  split; [done|]. by destruct (outcome_of (m c)).
Qed.

Lemma triple_weaken_pre {A} (P P' : Client -> Prop) (m : M A) Q E :
  (forall c, P' c -> P c) -> triple P T m Q E -> triple P' T m Q E.
Proof. intros HP. by apply triple_conseq. Qed.

(** An invariant as a phase that may end in any error state. *)
Lemma triple_of_respects_any {A} (P : Client -> Prop) (m : M A) :
  respects P T m -> triple P T m (fun _ => P) (fun _ _ => True).
Proof.
  intros Hm c Hc. destruct (Hm c Hc) as [Hs Ht].
  split; [done|]. by destruct (outcome_of (m c)).
Qed.

Lemma triple_await {A} (P : Client -> Prop) req (r : Reply A) :
  T (Net req) ->
  triple P T (await req r) (fun a c => r = Resolved a /\ P c) (fun _ _ => True).
Proof.
  intros Hreq c Hc. destruct r; (split; [by repeat constructor | done]).
Qed.

(** A phase whose result does not matter for what follows. *)
Lemma triple_then {A B} P (m : M A) (Q : Client -> Prop) (k : A -> M B) R E :
  triple P T m (fun _ => Q) E -> (forall a, triple Q T (k a) R E) ->
  triple P T (m ≫= k) R E.
Proof. intros Hm Hk. by apply (triple_bind P m (fun _ => Q)). Qed.

(** Facts that do not depend on the state can be taken out of a
    precondition. *)
Lemma triple_pure {A} (F : Prop) (P : Client -> Prop) (m : M A) Q E :
  (F -> triple P T m Q E) -> triple (fun c => F /\ P c) T m Q E.
Proof. intros Hm c [HF Hc]. by apply Hm. Qed.

End Triples.

Lemma respects_weaken {A} (P : Client -> Prop) (T T' : Effect -> Prop) (m : M A) :
  (forall e, T e -> T' e) -> respects P T m -> respects P T' m.
Proof.
  intros HT Hm c Hc. destruct (Hm c Hc) as [Hs Ht].
  split; [done|]. eapply Forall_impl; [exact Ht | exact HT].
Qed.

(** ** History loader: what a fetched event leads to *)

Section LoaderProperties.

Variable sdk : Sdk.

Lemma with_frame_same c :
  with_storedCache (storedCache c) (with_messageCache (messageCache c) c) = c.
Proof. by destruct c. Qed.

(** A save touches the cache and the stored copy, nothing else. *)
Lemma saveMessageCache_frame c :
  exists cache stored,
    state_of (_saveMessageCache sdk c) = with_storedCache stored (with_messageCache cache c).
Proof.
  unfold _saveMessageCache, _pruneMessageCache, state_of.
  unfold mbind, M_bind, bind, mret, M_ret, ret, get, modify. cbn [fst snd].
  destruct (setItem sdk (messageCache c)); cbn [fst snd].
  - exists (messageCache c), (Some (messageCache c)). by destruct c.
  - cbn [messageCache with_messageCache].
    destruct (setItem sdk (prune (messageCache c))); cbn [fst snd].
    + by exists (prune (messageCache c)), (Some (prune (messageCache c))).
    + exists (prune (messageCache c)), (storedCache c). by destruct c.
    + exists (prune (messageCache c)), (storedCache c). by destruct c.
  - exists (messageCache c), (storedCache c). by destruct c.
Qed.

(** So does a put. *)
Lemma addMessageToCache_frame roomId message c :
  exists cache stored,
    state_of (_addMessageToCache sdk roomId message c)
      = with_storedCache stored (with_messageCache cache c).
Proof.
  destruct (has_id (m_id message) (default [] (messageCache c !! roomId))) eqn:Hhas.
  - rewrite addMessageToCache_existing by done.
    exists (messageCache c), (storedCache c). by destruct c.
  - rewrite addMessageToCache_new by done.
    destruct (saveMessageCache_frame
                (with_messageCache
                   (<[roomId := default [] (messageCache c !! roomId) ++ [message]]>
                      (messageCache c)) c)) as (cache & stored & ->).
    by exists cache, stored.
Qed.

Lemma channel_of_not_inherited msg : channel_of msg ∉ object_prototype_members.
Proof.
  unfold channel_of.
  destruct (String.eqb (m_type msg) "roll");
    [|destruct (String.eqb (m_type msg) "scene")];
    match goal with |- ?x ∉ _ =>
      apply (bool_decide_unpack (x ∉ object_prototype_members)); by vm_compute
    end.
Qed.

(** A historical message is published on the channel of its type tag,
    unless history is loading and the message is not marked important. *)
Lemma processHistoricalMessage_run msg c :
  _processHistoricalMessage msg c =
    (Ret tt, c,
     if isLoadingHistory c && negb (m_important msg) then []
     else published c (channel_of msg) (PMessage msg)).
Proof.
  unfold _processHistoricalMessage, mbind, M_bind, bind, get. cbn [fst snd].
  destruct (isLoadingHistory c && negb (m_important msg)); [done|].
  pose proof (triggerEvent_run _ (PMessage msg) c (channel_of_not_inherited msg)) as Hrun.
  unfold channel_of in *.
  destruct (String.eqb (m_type msg) "roll"); [by rewrite Hrun|].
  destruct (String.eqb (m_type msg) "scene"); by rewrite Hrun.
Qed.

Lemma silent_put roomId message :
  respects (fun c => isLoadingHistory c = true) silent
           (_addMessageToCache sdk roomId message).
Proof.
  intros c Hc.
  destruct (addMessageToCache_frame roomId message c) as (cache & stored & Hst).
  destruct (addMessageToCache_returns sdk roomId message c) as [_ Ht].
  rewrite Hst, Ht. split; [exact Hc | constructor].
Qed.

Lemma silent_show c0 roomId event :
  respects (fun c => isLoadingHistory c = true) silent
           (_processHistoricalMessage (historical_message c0 roomId event)).
Proof.
  intros c Hc. rewrite processHistoricalMessage_run.
  unfold state_of, trace_of. cbn [fst snd]. rewrite Hc.
  split; [done | constructor].
Qed.

Lemma silent_notice (P : Client -> Prop) roomId text temporary :
  respects P silent (system_message roomId text temporary).
Proof. unfold system_message. by apply respects_triggerEvent. Qed.

(** While the loading flag is set, the loader calls no listener with a
    message record, and leaves the flag set. *)
Lemma loadRoomHistory_silent roomId :
  respects (fun c => isLoadingHistory c = true) silent (_loadRoomHistory sdk roomId).
Proof.
  apply respects_loadRoomHistory; intros.
  - apply silent_put.
  - apply silent_show.
  - apply silent_notice.
  - exact I.
  - exact I.
Qed.

Lemma bind_get_run {A} (k : Client -> M A) c : (get ≫= k) c = k c c.
Proof.
  unfold mbind, M_bind, bind, get. by destruct (k c c) as [[o c2] t2].
Qed.

Lemma replayed_published_other cached c event data :
  (forall m, data <> PMessage m) ->
  Forall (replayed cached) (published c event data).
Proof.
  intros Hdata. unfold published. apply Forall_forall. intros e He.
  apply list_elem_of_fmap in He as (h & -> & _).
  destruct data; try exact I. by destruct (Hdata m).
Qed.

Lemma silent_replayed cached e : silent e -> replayed cached e.
Proof. by destruct e as [h ev [m| | | | |]| |]. Qed.

(** Refreshing the room state leaves the cache alone and publishes no
    message record. *)
Lemma updateRoomState_keeps_cache cache roomId :
  respects (fun c => messageCache c = cache) silent (_updateRoomState sdk roomId).
Proof.
  unfold _updateRoomState, error_event.
  repeat (first
    [ respects_step
    | lazymatch goal with
      | |- respects _ _ (await _ _) => apply respects_await; exact I
      | |- respects _ _ (modify _) => apply respects_modify; intros ? <-; reflexivity
      | |- respects _ _ (_triggerEvent _ _) =>
          apply respects_triggerEvent; intros; exact I
      end ]).
Qed.

Lemma respects_forEach_in {A} (P : Client -> Prop) (T : Effect -> Prop)
    (f : A -> M unit) (l : list A) :
  (forall a, a ∈ l -> respects P T (f a)) -> respects P T (forEach f l).
Proof.
  induction l as [|a l IH]; intros Hf; cbn [forEach].
  - apply respects_ret.
  - apply respects_bind; [apply Hf; by left|].
    intros _. apply IH. intros b Hb. apply Hf. by right.
Qed.

(** The replay of the cache publishes cached records only. *)
Lemma replay_cached (P : Client -> Prop) cached :
  respects P (replayed cached) (forEach _processHistoricalMessage cached).
Proof.
  apply respects_forEach_in. intros msg Hmsg c Hc.
  rewrite processHistoricalMessage_run. unfold state_of, trace_of. cbn [fst snd].
  split; [done|].
  destruct (isLoadingHistory c && negb (m_important msg)); [constructor|].
  unfold published. apply Forall_forall. intros e He.
  by apply list_elem_of_fmap in He as (h & -> & _).
Qed.

Lemma getMessageCache_triple (T : Effect -> Prop) cache roomId E :
  triple (fun c => messageCache c = cache) T (_getMessageCache roomId)
         (fun b c => b = default [] (cache !! roomId) /\ messageCache c = cache) E.
Proof.
  intros c Hc. unfold _getMessageCache. rewrite bind_get_run.
  split; [constructor|]. cbn. by rewrite Hc.
Qed.

(** Whatever a join publishes as a message record was in the room's cache
    before the join: the records fetched from the server are cached, not
    published. *)
Lemma joinRoom_replays roomIdOrAlias inviteCode c0 :
  let joinOptions := if Js.truthy_opt inviteCode then inviteCode else None in
  let cached :=
    match sdk_joinRoom sdk roomIdOrAlias joinOptions with
    | Resolved joined => default [] (messageCache c0 !! ri_roomId joined)
    | Rejected _ => []
    end in
  Forall (replayed cached) (trace_of (joinRoom sdk roomIdOrAlias inviteCode c0)).
Proof.
  cbv zeta. unfold joinRoom. rewrite bind_get_run.
  set (joinOptions := if Js.truthy_opt inviteCode then inviteCode else None).
  destruct (client c0); cbn [negb].
  2:{ unfold mbind, M_bind, bind. rewrite error_event_run. cbn.
      rewrite app_nil_r. by apply replayed_published_other. }
  set (cached := match sdk_joinRoom sdk roomIdOrAlias joinOptions with
                 | Resolved joined => default [] (messageCache c0 !! ri_roomId joined)
                 | Rejected _ => []
                 end).
  match goal with |- Forall _ (trace_of (try_catch ?body ?h c0)) =>
    assert (Htriple : triple (fun c => messageCache c = messageCache c0)
                        (replayed cached) (try_catch body h)
                        (fun _ _ => True) (fun _ _ => True))
  end.
  2:{ by destruct (Htriple c0 eq_refl). }
  apply triple_try_catch with (E' := fun _ _ => True).
  2:{ intros e. apply triple_of_respects_any with (P := fun _ => True).
      unfold error_event. repeat respects_step.
      apply respects_triggerEvent. intros; exact I. }
  eapply triple_bind.
  { apply triple_await. exact I. }
  intros joined. apply triple_pure. intros Hjoined.
  subst cached. rewrite Hjoined.
  set (roomId := ri_roomId joined).
  set (cached := default [] (messageCache c0 !! roomId)).
  eapply triple_then.
  { apply triple_of_respects_any. apply respects_modify. by intros c <-. }
  intros _.
  eapply triple_then.
  { apply triple_of_respects_any. unfold storage_set.
    destruct (storeItem sdk "matrixRoom" roomId).
    - apply respects_throw.
    - apply respects_modify. by intros c <-. }
  intros _.
  eapply triple_then.
  { apply triple_of_respects_any.
    eapply respects_weaken; [apply silent_replayed|].
    apply updateRoomState_keeps_cache. }
  intros _.
  eapply triple_bind.
  { apply getMessageCache_triple. }
  intros cachedMessages. cbv beta. apply triple_pure. intros ->.
  fold cached.
  eapply triple_then.
  { apply triple_weaken_pre with (P := fun _ => True); [done|].
    apply triple_of_respects_any. apply replay_cached. }
  intros _.
  eapply triple_then.
  { apply triple_modify. }
  intros _.
  eapply triple_then.
  { eapply triple_conseq with (P := fun c => isLoadingHistory c = true);
      [ | | |apply triple_of_respects_any].
    - by intros c (c1 & _ & ->).
    - intros a c Hc. exact Hc.
    - done.
    - eapply respects_weaken; [apply silent_replayed|]. apply loadRoomHistory_silent. }
  intros _.
  eapply triple_conseq with (P := fun _ => True);
    [done | | |apply triple_of_respects_any]; [done | done |].
  repeat (first
    [ respects_step
    | lazymatch goal with
      | |- respects _ _ (modify _) => apply respects_modify; done
      | |- respects _ _ (_triggerEvent _ _) =>
          apply respects_triggerEvent; intros; exact I
      end ]).
Qed.

(** What the loader does with a message event that is not redacted and
    not processed yet. *)
Lemma processEvent_message roomId processed n event c :
  ev_type event = "m.room.message" ->
  ev_redacted event = false ->
  ev_id event ∉ processed ->
  let msg := historical_message c roomId event in
  processEvent sdk roomId (processed, n) event c =
    (Ret ({[ev_id event]} ∪ processed, S n),
     state_of (_addMessageToCache sdk roomId msg c),
     if isLoadingHistory c then []
     else published c (channel_of msg) (PMessage msg)).
Proof.
  intros Htype Hred Hnew. cbv zeta. unfold processEvent.
  rewrite bool_decide_eq_false_2 by done. rewrite Hred, Htype. cbn [orb].
  change (String.eqb "m.room.message" "m.room.message") with true. cbv iota.
  rewrite bind_get_run.
  set (msg := historical_message c roomId event).
  destruct (addMessageToCache_frame roomId msg c) as (cache & stored & Hst).
  destruct (addMessageToCache_returns sdk roomId msg c) as [Ho Ht].
  unfold mbind, M_bind, bind. unfold outcome_of, state_of, trace_of in *.
  destruct (_addMessageToCache sdk roomId msg c) as [[o c1] t1].
  cbn [fst snd] in *. subst o t1 c1.
  rewrite processHistoricalMessage_run.
  unfold mret, M_ret, ret. cbn.
  rewrite andb_true_r, app_nil_r. reflexivity.
Qed.

(** One turn of the loader's pass over a page. For an event that is a
    message event, not redacted and not processed yet, the loader builds
    the Message and puts it into the cache (afterwards the room holds a
    record with its id); it publishes it, on the roll, scene or message
    channel of its type tag, only when the loading flag is clear. Inside
    [joinRoom] the flag is set around the load, so a join publishes no
    fetched event: every message record a join hands to a listener was in
    the room's cache before the join (the replay of the cache). *)
Lemma loadHistory_event roomId processed n event c :
  ev_type event = "m.room.message" ->
  ev_redacted event = false ->
  ev_id event ∉ processed ->
  let msg := historical_message c roomId event in
  let c1 := state_of (_addMessageToCache sdk roomId msg c) in
  processEvent sdk roomId (processed, n) event c =
    (Ret ({[ev_id event]} ∪ processed, S n), c1,
     if isLoadingHistory c then []
     else published c (channel_of msg) (PMessage msg))
  /\ m_id msg = ev_id event
  /\ has_id (ev_id event) (default [] (messageCache c1 !! roomId)) = true
  /\ (forall roomIdOrAlias inviteCode c0 h ev m,
        In (Invoke h ev (PMessage m))
           (trace_of (joinRoom sdk roomIdOrAlias inviteCode c0)) ->
        exists joined,
          sdk_joinRoom sdk roomIdOrAlias
            (if Js.truthy_opt inviteCode then inviteCode else None) = Resolved joined
          /\ m ∈ default [] (messageCache c0 !! ri_roomId joined)).
Proof.
  intros Htype Hred Hnew. cbv zeta.
  split; [by apply processEvent_message|]. split; [done|]. split.
  - apply (addMessageToCache_has_id sdk roomId (historical_message c roomId event) c).
  - intros roomIdOrAlias inviteCode c0 h ev m Hin.
    pose proof (joinRoom_replays roomIdOrAlias inviteCode c0) as Hall.
    cbv zeta in Hall. rewrite Forall_forall in Hall.
    apply list_elem_of_In, Hall in Hin. cbn [replayed] in Hin.
    destruct (sdk_joinRoom sdk roomIdOrAlias _) as [joined|error].
    + by exists joined.
    + by apply elem_of_nil in Hin.
Qed.

End LoaderProperties.

Lemma loadHistory_event_witness :
  let c := with_isLoadingHistory true (Demo.in_room 2) in
  let msg := historical_message c Demo.room_id Demo.fetched_event in
  let c1 := state_of (_addMessageToCache Demo.sdk Demo.room_id msg c) in
  processEvent Demo.sdk Demo.room_id (∅, 0%nat) Demo.fetched_event c =
    (Ret ({["$e1"]} ∪ ∅, 1%nat), c1, [])
  /\ m_id msg = "$e1"
  /\ has_id "$e1" (default [] (messageCache c1 !! Demo.room_id)) = true
  /\ (forall roomIdOrAlias inviteCode c0 h ev m,
        In (Invoke h ev (PMessage m))
           (trace_of (joinRoom Demo.sdk roomIdOrAlias inviteCode c0)) ->
        exists joined,
          sdk_joinRoom Demo.sdk roomIdOrAlias
            (if Js.truthy_opt inviteCode then inviteCode else None) = Resolved joined
          /\ m ∈ default [] (messageCache c0 !! ri_roomId joined)).
Proof.
  apply (loadHistory_event Demo.sdk Demo.room_id ∅ 0%nat Demo.fetched_event
           (with_isLoadingHistory true (Demo.in_room 2)));
    [reflexivity | reflexivity | apply not_elem_of_empty].
Defined.

(** C1 as stated fails inside [joinRoom]: the server returns a page with
    one message event, not redacted and never seen; a handler listens on
    the message channel; the join succeeds and caches the message, and the
    only call the handler gets is the loading notice. *)
Lemma joinRoom_history_counterexample :
  let r := joinRoom Demo.sdk "#tavern:matrix.org" None Demo.logged_in in
  createMessagesRequest Demo.sdk
    = [Resolved (Some {| chunk := Some [Demo.fetched_event]; page_end := None |})]
  /\ ev_type Demo.fetched_event = "m.room.message"
  /\ ev_redacted Demo.fetched_event = false
  /\ listeners Demo.logged_in !! "message" = Some [1%nat]
  /\ outcome_of r = Ret true
  /\ has_id (ev_id Demo.fetched_event)
       (default [] (messageCache (state_of r) !! Demo.room_id)) = true
  /\ trace_of r =
       [Net (ReqJoinRoom "#tavern:matrix.org" None);
        Net (ReqStateEvent Demo.room_id);
        Net (ReqJoinedMembers Demo.room_id);
        Invoke 1%nat "message"
          (PSystem (Some "system") Demo.room_id "Loading message history..."
             false false);
        Net (ReqMessages Demo.room_id 100)].
Proof. cbv zeta. repeat split. Qed.

(** ** No failure is fatal *)

Section NoThrow.

Variable sdk : Sdk.

Lemma no_throw_ret {A} (a : A) : no_throw (mret a).
Proof. by intros c e. Qed.

Lemma no_throw_get : no_throw get.
Proof. by intros c e. Qed.

Lemma no_throw_modify f : no_throw (modify f).
Proof. by intros c e. Qed.

Lemma no_throw_emit ef : no_throw (emit ef).
Proof. by intros c e. Qed.

Lemma no_throw_bind {A B} (m : M A) (k : A -> M B) :
  no_throw m -> (forall a, no_throw (k a)) -> no_throw (m ≫= k).
Proof.
  intros Hm Hk c e. specialize (Hm c).
  unfold mbind, M_bind, bind, outcome_of in *.
  destruct (m c) as [[[a|e'|] c1] t1]; cbn [fst snd] in *; [|by destruct (Hm e')|done].
  specialize (Hk a c1 e). unfold outcome_of in Hk.
  by destruct (k a c1) as [[o c2] t2].
Qed.

Lemma no_throw_fmap {A B} (f : A -> B) (m : M A) : no_throw m -> no_throw (f <$> m).
Proof.
  intros Hm. apply (no_throw_bind m (fun a => ret (f a))); [done|].
  intros a. apply (no_throw_ret (f a)).
Qed.

(** A handler that does not throw makes the whole [try] safe. *)
Lemma no_throw_try_catch {A} (m : M A) (h : JsError -> M A) :
  (forall e, no_throw (h e)) -> no_throw (try_catch m h).
Proof.
  intros Hh c e. unfold try_catch, outcome_of.
  destruct (m c) as [[[a|e'|] c1] t1]; cbn [fst snd]; try done.
  specialize (Hh e' c1 e). unfold outcome_of in Hh.
  by destruct (h e' c1) as [[o c2] t2].
Qed.

Lemma no_throw_error_event context message : no_throw (error_event context message).
Proof. intros c e. by rewrite error_event_run. Qed.

Lemma no_throw_system_message roomId text temporary :
  no_throw (system_message roomId text temporary).
Proof. intros c e. by rewrite system_message_run. Qed.

Lemma no_throw_processHistoricalMessage msg : no_throw (_processHistoricalMessage msg).
Proof. intros c e. by rewrite processHistoricalMessage_run. Qed.

Lemma no_throw_add roomId message : no_throw (_addMessageToCache sdk roomId message).
Proof.
  intros c e. by destruct (addMessageToCache_returns sdk roomId message c) as [-> _].
Qed.

Lemma no_throw_save : no_throw (_saveMessageCache sdk).
Proof. intros c e. by destruct (saveMessageCache_run sdk c) as (-> & _). Qed.

Lemma no_throw_mark roomId id : no_throw (markRedacted roomId id).
Proof. intros c e. by rewrite markRedacted_run. Qed.

Lemma no_throw_trigger event data :
  event ∉ object_prototype_members -> no_throw (_triggerEvent event data).
Proof. intros Hev c e. by rewrite triggerEvent_run. Qed.

Ltac no_throw_step :=
  lazymatch goal with
  | |- no_throw (mbind _ _) => apply no_throw_bind; [|intros ?]
  | |- no_throw (try_catch _ _) => apply no_throw_try_catch; intros ?
  | |- no_throw (fmap _ _) => apply no_throw_fmap
  | |- no_throw (mret _) => apply no_throw_ret
  | |- no_throw get => apply no_throw_get
  | |- no_throw (modify _) => apply no_throw_modify
  | |- no_throw (emit _) => apply no_throw_emit
  | |- no_throw (error_event _ _) => apply no_throw_error_event
  | |- no_throw (system_message _ _ _) => apply no_throw_system_message
  | |- no_throw (_addMessageToCache _ _ _) => apply no_throw_add
  | |- no_throw (_saveMessageCache _) => apply no_throw_save
  | |- no_throw (markRedacted _ _) => apply no_throw_mark
  | |- no_throw (_processHistoricalMessage _) => apply no_throw_processHistoricalMessage
  | |- no_throw (_triggerEvent ?ev _) =>
      apply no_throw_trigger;
      apply (bool_decide_unpack (ev ∉ object_prototype_members)); by vm_compute
  | |- no_throw (if ?b then _ else _) => destruct b
  | |- no_throw (match ?x with _ => _ end) => destruct x
  end.

(** Pagination ends in a boolean or waits for the server, whatever the
    server answers. *)
Lemma no_throw_paginateBackward script roomId processed :
  no_throw (paginateBackward sdk script roomId processed).
Proof.
  revert processed. induction script as [|reply script IH]; intros processed;
    cbn [paginateBackward].
  - intros c e. by cbn.
  - apply no_throw_try_catch. intros error. destruct (is_rate_limit error).
    + apply no_throw_bind; [apply no_throw_emit | intros _; apply IH].
    + repeat no_throw_step.
Qed.

Lemma no_throw_loadRoomHistory roomId : no_throw (_loadRoomHistory sdk roomId).
Proof. unfold _loadRoomHistory. repeat no_throw_step. Qed.

Lemma no_throw_joinRoom roomIdOrAlias inviteCode :
  no_throw (joinRoom sdk roomIdOrAlias inviteCode).
Proof. unfold joinRoom. repeat no_throw_step. Qed.

(** The one exception [reset] can end in is the one the session store
    throws at its write. *)
Lemma reset_throws c e :
  outcome_of (reset sdk c) = Throw e -> storeSessionItem sdk "matrixReset" "true" = Some e.
Proof.
  unfold reset, clear_credentials, storage_remove.
  unfold mbind, M_bind, bind, mret, M_ret, ret, get, modify, emit, throw.
  destruct (storeSessionItem sdk "matrixReset" "true") as [error|];
    destruct (client c); cbn; congruence.
Qed.

(** A command other than [/reset] that fails resolves to a failure value:
    the interpreter does not throw (listeners return normally, and
    stopping the protocol client does not fail). *)
Lemma no_throw_processCommand input type :
  Js.startsWith "/reset" input = false -> no_throw (processCommand sdk input type).
Proof.
  intros Hreset.
  unfold processCommand. rewrite Hreset. cbv iota.
  unfold usage_error, login, logout, leaveRoom,
    clearMessageCache, sendRoll, sendScene, sendNarration, sendMessage,
    deleteLastMessage, clear_credentials, storage_remove.
  repeat (first
    [ lazymatch goal with
      | |- no_throw (joinRoom _ _ _) => apply no_throw_joinRoom
      end
    | no_throw_step ]).
Qed.

(** Whatever a command throws, the session store threw it at the write of
    [reset]. *)
Lemma processCommand_throws input type c e :
  outcome_of (processCommand sdk input type c) = Throw e ->
  storeSessionItem sdk "matrixReset" "true" = Some e.
Proof.
  intros Hthrow. destruct (Js.startsWith "/reset" input) eqn:Hreset.
  2:{ by destruct (no_throw_processCommand input type Hreset c e). }
  apply (reset_throws c).
  destruct input as [|a1 [|a2 [|a3 [|a4 [|a5 [|a6 rest]]]]]];
    cbn [Js.startsWith] in Hreset; try done.
  all: repeat match type of Hreset with
         | context [Ascii.eqb ?x ?y] =>
             let H := fresh "Hch" in
             destruct (Ascii.eqb x y) eqn:H; [apply Ascii.eqb_eq in H; subst y|done]
         end.
  all: try done.
  revert Hthrow. unfold processCommand.
  cbn [Js.truthy negb Js.startsWith Ascii.eqb Bool.eqb andb].
  unfold fmap, M_fmap, bind, ret, outcome_of.
  destruct (reset sdk c) as [[[b|e'|] c1] t1]; cbn; congruence.
Qed.

End NoThrow.

(** ** Running a method step by step *)

Section Runs.

Lemma bind_run_ret {A B} (m : M A) (k : A -> M B) c a c1 t1 :
  m c = (Ret a, c1, t1) ->
  (m ≫= k) c = (outcome_of (k a c1), state_of (k a c1), t1 ++ trace_of (k a c1)).
Proof.
  intros Hm. unfold mbind, M_bind, bind. rewrite Hm.
  by destruct (k a c1) as [[o c2] t2].
Qed.

Lemma bind_run_after {A B} (m : M A) (k : A -> M B) c a c1 t1 :
  m c = (Ret a, c1, t1) -> (m ≫= k) c = after t1 (k a c1).
Proof. apply bind_run_ret. Qed.

Lemma after_run {A} t (o : Outcome A) c t' : after t (o, c, t') = (o, c, t ++ t').
Proof. done. Qed.

Lemma bind_run_throw {A B} (m : M A) (k : A -> M B) c e c1 t1 :
  m c = (Throw e, c1, t1) -> (m ≫= k) c = (Throw e, c1, t1).
Proof. intros Hm. unfold mbind, M_bind, bind. by rewrite Hm. Qed.

Lemma bind_run_pending {A B} (m : M A) (k : A -> M B) c c1 t1 :
  m c = (Pending, c1, t1) -> (m ≫= k) c = (Pending, c1, t1).
Proof. intros Hm. unfold mbind, M_bind, bind. by rewrite Hm. Qed.

Lemma fmap_run_ret {A B} (f : A -> B) (m : M A) c a c1 t1 :
  m c = (Ret a, c1, t1) -> (f <$> m) c = (Ret (f a), c1, t1).
Proof.
  intros Hm. unfold fmap, M_fmap, bind, ret. rewrite Hm. by rewrite app_nil_r.
Qed.

Lemma try_catch_run_ret {A} (m : M A) h c a c1 t1 :
  m c = (Ret a, c1, t1) -> try_catch m h c = (Ret a, c1, t1).
Proof. intros Hm. unfold try_catch. by rewrite Hm. Qed.

Lemma try_catch_run_throw {A} (m : M A) h c e c1 t1 :
  m c = (Throw e, c1, t1) ->
  try_catch m h c = (outcome_of (h e c1), state_of (h e c1), t1 ++ trace_of (h e c1)).
Proof.
  intros Hm. unfold try_catch. rewrite Hm. by destruct (h e c1) as [[o c2] t2].
Qed.

Lemma outcome_of_run {A} (o : Outcome A) c t : outcome_of (o, c, t) = o.
Proof. done. Qed.

Lemma state_of_run {A} (o : Outcome A) c t : state_of (o, c, t) = c.
Proof. done. Qed.

Lemma trace_of_run {A} (o : Outcome A) c t : trace_of (o, c, t) = t.
Proof. done. Qed.

Lemma run_eta {A} (r : Outcome A * Client * list Effect) :
  (outcome_of r, state_of r, trace_of r) = r.
Proof. by destruct r as [[o c] t]. Qed.

(** The error event and the result [false] of a failed operation. *)
Lemma refuse_run context message c :
  (error_event context message ;; mret false) c =
    (Ret false, c, published c "error" (PError context message)).
Proof.
  rewrite (bind_run_ret _ _ c tt c _ (error_event_run context message c)).
  unfold mret, M_ret, ret, outcome_of, state_of, trace_of. cbn [fst snd].
  by rewrite app_nil_r.
Qed.

End Runs.

Ltac run_simpl := rewrite ?outcome_of_run, ?state_of_run, ?trace_of_run.
Ltac run_simpl_in H := rewrite ?outcome_of_run, ?state_of_run, ?trace_of_run in H.

(** ** Operations that need a room *)

Section RoomGuard.

Variable sdk : Sdk.

(** Every operation on the room starts with the same guard: without a
    protocol client, or without a room, it publishes one error event under
    its own context, returns false, sends nothing and leaves the client as
    it was. *)
Theorem room_operations_need_a_room c :
  not_ready c = true ->
  (forall text type, sendMessage sdk text type c = refused c "sendMessage")
  /\ (forall sceneName sceneType,
        sendScene sdk sceneName sceneType c = refused c "sendScene")
  /\ (forall text, sendNarration sdk text c = refused c "sendNarration")
  /\ (forall notation, sendRoll sdk notation c = refused c "sendRoll")
  /\ deleteLastMessage sdk c = refused c "deleteMessage"
  /\ clearAllMessages sdk c = refused c "clearMessages"
  /\ leaveRoom sdk c = refused c "leaveRoom".
Proof.
  intros Hnr. unfold refused.
  repeat split; intros;
    unfold sendMessage, sendScene, sendNarration, sendRoll, deleteLastMessage,
      clearAllMessages, leaveRoom;
    rewrite bind_get_run, Hnr; apply refuse_run.
Qed.

End RoomGuard.

Lemma room_operations_need_a_room_witness :
  not_ready Demo.logged_in = true
  /\ sendRoll Demo.sdk "2d6" Demo.logged_in = refused Demo.logged_in "sendRoll".
Proof.
  split; [reflexivity|].
  apply (room_operations_need_a_room Demo.sdk Demo.logged_in). reflexivity.
Defined.

(** ** Ending a session *)

Section SessionEnd.

Lemma credentials_removed (store : gmap string string) k :
  delete "matrixRoom"
    (delete "matrixPassword"
       (delete "matrixUsername"
          (delete "matrixUserId" (delete "matrixAccessToken" store)))) !! k
  = if bool_decide (k ∈ credential_slots) then None else store !! k.
Proof.
  unfold credential_slots.
  destruct (bool_decide (k ∈ _)) eqn:Hk.
  - apply bool_decide_eq_true_1 in Hk.
    repeat (apply elem_of_cons in Hk as [->|Hk];
            [by repeat (first [rewrite lookup_delete_eq | rewrite lookup_delete_ne by done])|]).
    by apply elem_of_nil in Hk.
  - apply bool_decide_eq_false_1 in Hk.
    repeat (rewrite lookup_delete_ne; [|intros <-; apply Hk; set_solver]).
    done.
Qed.

Lemma logout_run c :
  logout c =
    (Ret tt,
     with_roomState ∅
       (with_room None
          (with_userId None
             (with_localStorage
                (delete "matrixRoom"
                   (delete "matrixPassword"
                      (delete "matrixUsername"
                         (delete "matrixUserId"
                            (delete "matrixAccessToken" (localStorage c))))))
                (with_client false c)))),
     if client c then [Net ReqStopClient] else []).
Proof.
  destruct c as [cl rm ls rs uid mc ilh hl store sc ss].
  unfold logout, clear_credentials, storage_remove.
  unfold mbind, M_bind, bind, mret, M_ret, ret, get, modify, emit.
  by destruct cl.
Qed.

Lemma reset_run sdk c :
  reset sdk c =
    match storeSessionItem sdk "matrixReset" "true" with
    | None =>
        (Ret true,
         with_roomState ∅
           (with_userId None
              (with_room None
                 (with_client false
                    (with_sessionStorage
                       (<["matrixReset" := "true"]> (sessionStorage c))
                       (with_localStorage
                          (delete "matrixRoom"
                             (delete "matrixPassword"
                                (delete "matrixUsername"
                                   (delete "matrixUserId"
                                      (delete "matrixAccessToken" (localStorage c))))))
                          c))))),
         if client c then [Net ReqStopClient] else [])
    | Some error =>
        (Throw error,
         with_localStorage
           (delete "matrixRoom"
              (delete "matrixPassword"
                 (delete "matrixUsername"
                    (delete "matrixUserId"
                       (delete "matrixAccessToken" (localStorage c))))))
           c,
         if client c then [Net ReqStopClient] else [])
    end.
Proof.
  destruct c as [cl rm ls rs uid mc ilh hl store sc ss].
  unfold reset, clear_credentials, storage_remove.
  unfold mbind, M_bind, bind, mret, M_ret, ret, get, modify, emit, throw.
  destruct (storeSessionItem sdk "matrixReset" "true"); by destruct cl.
Qed.

(** Whether [reset] completes or not, the stores it leaves hold no
    credential and the cache as it was stored. *)
Lemma logout_reset_stores sdk c :
  forall c', (c' = state_of (logout c) \/ c' = state_of (reset sdk c)) ->
    (forall k, localStorage c' !! k =
                 if bool_decide (k ∈ credential_slots) then None
                 else localStorage c !! k)
    /\ storedCache c' = storedCache c.
Proof.
  intros c' [->| ->].
  - rewrite logout_run. run_simpl. split; [apply credentials_removed | done].
  - rewrite reset_run.
    destruct (storeSessionItem sdk "matrixReset" "true"); run_simpl;
      (split; [apply credentials_removed | done]).
Qed.

(** Logging out ends the session and forgets the credentials, and
    nothing more: the protocol client is stopped if there is one, user,
    room and room state are cleared, the five session slots of the local
    store are removed and every other slot is kept; the message cache, its
    stored copy, the registered listeners and the session store stay as
    they were. A reset does the same and leaves the mark [matrixReset] in
    the session store, provided the session store takes the mark: when it
    throws, the exception leaves [reset] after the protocol client was
    stopped and the credentials were removed, and before anything else is
    cleared, so that client, user, room and room state stay set. *)
Theorem logout_reset_keep_history sdk c :
  session_ended c (state_of (logout c))
  /\ trace_of (logout c) = (if client c then [Net ReqStopClient] else [])
  /\ sessionStorage (state_of (logout c)) = sessionStorage c
  /\ trace_of (reset sdk c) = trace_of (logout c)
  /\ match storeSessionItem sdk "matrixReset" "true" with
     | None =>
         outcome_of (reset sdk c) = Ret true
         /\ session_ended c (state_of (reset sdk c))
         /\ sessionStorage (state_of (reset sdk c))
            = <["matrixReset" := "true"]> (sessionStorage c)
     | Some error =>
         outcome_of (reset sdk c) = Throw error
         /\ (forall k, localStorage (state_of (reset sdk c)) !! k =
                         if bool_decide (k ∈ credential_slots) then None
                         else localStorage c !! k)
         /\ state_of (reset sdk c)
            = with_localStorage (localStorage (state_of (reset sdk c))) c
     end.
Proof.
  rewrite logout_run, reset_run.
  destruct (storeSessionItem sdk "matrixReset" "true") as [error|];
    unfold session_ended; run_simpl;
    repeat split; try apply credentials_removed.
Qed.

End SessionEnd.

(** ** Sending, and the echo of what was sent *)

Section SendProperties.

Variable sdk : Sdk.

Lemma ready_room c :
  not_ready c = false -> exists roomId, room c = Some roomId /\ client c = true.
Proof.
  unfold not_ready. intros Hr. apply orb_false_iff in Hr as [Hc Hroom].
  destruct (room c) as [roomId|]; [|done]. exists roomId.
  by destruct (client c).
Qed.

(** The shared shape of the send methods: one request, then the put. *)
Lemma send_then_cache_run roomId content (mk : string -> Message) context fallback c :
  (forall eid, m_id (mk eid) = eid) ->
  try_catch
    (event_id ← await (ReqSendEvent roomId content) (sendEvent sdk roomId content);
     _addMessageToCache sdk roomId (mk event_id) ;;
     mret true)
    (fun error =>
       error_event context (Js.or_else (err_message error) fallback) ;;
       mret false) c
  = match sendEvent sdk roomId content with
    | Resolved eid =>
        (Ret true, state_of (_addMessageToCache sdk roomId (mk eid) c),
         [Net (ReqSendEvent roomId content)])
    | Rejected e =>
        (Ret false, c,
         Net (ReqSendEvent roomId content)
           :: published c "error"
                (PError context (Js.or_else (err_message e) fallback)))
    end.
Proof.
  intros Hmk. destruct (sendEvent sdk roomId content) as [eid|e] eqn:Hsend.
  - apply try_catch_run_ret.
    rewrite (bind_run_ret _ _ c eid c [Net (ReqSendEvent roomId content)]) by done.
    destruct (addMessageToCache_returns sdk roomId (mk eid) c) as [Ho Ht].
    rewrite (bind_run_ret _ _ c tt (state_of (_addMessageToCache sdk roomId (mk eid) c)) [])
      by (rewrite <- Ho, <- Ht; symmetry; apply run_eta).
    done.
  - rewrite (try_catch_run_throw _ _ c e c [Net (ReqSendEvent roomId content)]) by done.
    by rewrite refuse_run.
Qed.

Lemma sendMessage_run text type c roomId :
  not_ready c = false -> room c = Some roomId ->
  sendMessage sdk text type c =
    match sendEvent sdk roomId (rpg_content text (plain_body type)) with
    | Resolved eid =>
        (Ret true,
         state_of (_addMessageToCache sdk roomId
                     (own_message sdk c eid roomId text type) c),
         [Net (ReqSendEvent roomId (rpg_content text (plain_body type)))])
    | Rejected e =>
        (Ret false, c,
         Net (ReqSendEvent roomId (rpg_content text (plain_body type)))
           :: published c "error"
                (PError "sendMessage"
                   (Js.or_else (err_message e) "Failed to send message")))
    end.
Proof.
  intros Hnr Hroom. unfold sendMessage. rewrite bind_get_run, Hnr, Hroom.
  cbn [default from_option]. unfold id.
  by apply (send_then_cache_run roomId _
              (fun eid => own_message sdk c eid roomId text type)).
Qed.

Lemma not_ready_refused {A} (k1 k2 : M A) c :
  (if not_ready c then k1 else k2) c = if not_ready c then k1 c else k2 c.
Proof. by destruct (not_ready c). Qed.

Lemma sendMessage_sent text type c :
  outcome_of (sendMessage sdk text type c) = Ret true ->
  exists roomId content msg,
    sent_and_cached sdk c (sendMessage sdk text type c) roomId content msg.
Proof.
  intros Hok. destruct (not_ready c) eqn:Hnr.
  { unfold sendMessage in Hok. rewrite bind_get_run, Hnr, refuse_run in Hok. done. }
  destruct (ready_room c Hnr) as (roomId & Hroom & _).
  rewrite (sendMessage_run text type c roomId Hnr Hroom) in *.
  destruct (sendEvent sdk roomId _) as [eid|e] eqn:Hsend; [|done].
  exists roomId, (rpg_content text (plain_body type)),
    (own_message sdk c eid roomId text type).
  by repeat split.
Qed.

Lemma sendNarration_sent text c :
  outcome_of (sendNarration sdk text c) = Ret true ->
  exists roomId content msg,
    sent_and_cached sdk c (sendNarration sdk text c) roomId content msg.
Proof.
  intros Hok. unfold sendNarration in *. rewrite bind_get_run in *.
  destruct (not_ready c) eqn:Hnr; [by rewrite refuse_run in Hok|].
  destruct (ready_room c Hnr) as (roomId & Hroom & _).
  rewrite Hroom in *. cbn [default from_option] in *. unfold id in *.
  rewrite (send_then_cache_run roomId _
             (fun eid => own_message sdk c eid roomId text "narrate")) in * by done.
  destruct (sendEvent sdk roomId _) as [eid|e] eqn:Hsend; [|done].
  exists roomId, (rpg_content text (plain_body "narrate")),
    (own_message sdk c eid roomId text "narrate").
  by repeat split.
Qed.

Lemma sendScene_sent sceneName sceneType c :
  outcome_of (sendScene sdk sceneName sceneType c) = Ret true ->
  exists roomId content msg,
    sent_and_cached sdk c (sendScene sdk sceneName sceneType c) roomId content msg.
Proof.
  intros Hok. unfold sendScene in *. rewrite bind_get_run in *.
  destruct (not_ready c) eqn:Hnr; [by rewrite refuse_run in Hok|].
  destruct (ready_room c Hnr) as (roomId & Hroom & _).
  rewrite Hroom in *. cbn [default from_option] in *. unfold id in *.
  cbv zeta in *.
  match type of Hok with
  | context [try_catch (mbind (fun event_id => mbind _ (_addMessageToCache sdk roomId (@?mk event_id))) _)] =>
      rewrite (send_then_cache_run roomId _ mk) in * by done
  end.
  match goal with
  | |- context [sendEvent sdk roomId ?content] =>
      destruct (sendEvent sdk roomId content) as [eid|e] eqn:Hsend; [|done];
      exists roomId, content
  end.
  eexists. repeat split; [done | exact Hsend | done].
Qed.

Lemma sendRoll_sent notation c :
  outcome_of (sendRoll sdk notation c) = Ret true ->
  exists roomId content msg,
    sent_and_cached sdk c (sendRoll sdk notation c) roomId content msg.
Proof.
  intros Hok. unfold sendRoll in *. rewrite bind_get_run in *.
  destruct (not_ready c) eqn:Hnr; [by rewrite refuse_run in Hok|].
  destruct (ready_room c Hnr) as (roomId & Hroom & _).
  rewrite Hroom in *. cbn [default from_option] in *. unfold id in *.
  destruct (rollDice (random sdk) notation) as [rollResult|] eqn:Hroll.
  2:{ rewrite (try_catch_run_ret _ _ c false c _ (refuse_run _ _ c)) in Hok. done. }
  destruct (userId c) as [uid|] eqn:Hu.
  2:{ rewrite (try_catch_run_throw _ _ c _ c [] eq_refl), refuse_run in Hok. done. }
  cbv zeta in *.
  match type of Hok with
  | context [try_catch (mbind (fun event_id => mbind _ (_addMessageToCache sdk roomId (@?mk event_id))) _)] =>
      rewrite (send_then_cache_run roomId _ mk) in * by done
  end.
  match goal with
  | |- context [sendEvent sdk roomId ?content] =>
      destruct (sendEvent sdk roomId content) as [eid|e] eqn:Hsend; [|done];
      exists roomId, content
  end.
  eexists. repeat split; [done | exact Hsend | done].
Qed.

(** A message event whose id the room's cache already holds is dropped by
    the live listener, redacted or not. *)
Lemma onRoomTimeline_cached event roomId c :
  room c = Some roomId ->
  ev_type event = "m.room.message" ->
  has_id (ev_id event) (default [] (messageCache c !! roomId)) = true ->
  onRoomTimeline sdk event roomId c = (Ret tt, c, []).
Proof.
  intros Hroom Htype Hhas. unfold onRoomTimeline, refresh_on_membership.
  rewrite bind_get_run, Hroom, Htype, Hhas.
  rewrite bool_decide_eq_true_2 by done.
  cbn [negb String.eqb Ascii.eqb Bool.eqb andb orb].
  by destruct (ev_redacted event).
Qed.

Lemma addMessageToCache_room roomId message c :
  room (state_of (_addMessageToCache sdk roomId message c)) = room c.
Proof. by destruct (addMessageToCache_frame sdk roomId message c) as (? & ? & ->). Qed.

Lemma sent_echo_ignored c r roomId content msg :
  sent_and_cached sdk c r roomId content msg ->
  echo_ignored sdk (state_of r) roomId (m_id msg).
Proof.
  intros (Hroom & _ & _ & ->) event Hid Htype. unfold state_of at 1 3. cbn [fst snd].
  apply onRoomTimeline_cached; [by rewrite addMessageToCache_room | done |].
  rewrite Hid. apply addMessageToCache_has_id.
Qed.

End SendProperties.

(** ** The live listener *)

Section LiveProperties.

Variable sdk : Sdk.

Lemma live_channel_not_inherited content :
  live_channel content ∉ object_prototype_members.
Proof.
  unfold live_channel.
  destruct (_ && _); [|destruct (_ && _)];
    match goal with |- ?x ∉ ?l => apply (bool_decide_unpack (x ∉ l)) end;
    by vm_compute.
Qed.

Lemma addMessageToCache_listeners roomId message c :
  listeners (state_of (_addMessageToCache sdk roomId message c)) = listeners c.
Proof. by destruct (addMessageToCache_frame sdk roomId message c) as (? & ? & ->). Qed.

(** A message event that is new to the room's cache is cached and
    published on its channel. *)
Lemma onRoomTimeline_new event roomId c :
  room c = Some roomId ->
  ev_type event = "m.room.message" ->
  ev_redacted event = false ->
  has_id (ev_id event) (default [] (messageCache c !! roomId)) = false ->
  onRoomTimeline sdk event roomId c =
    (Ret tt,
     state_of (_addMessageToCache sdk roomId (live_message c roomId event) c),
     published c (live_channel (ev_content event))
       (PMessage (live_message c roomId event))).
Proof.
  intros Hroom Htype Hred Hnew. unfold onRoomTimeline, refresh_on_membership.
  rewrite bind_get_run, Hroom, Htype, Hred, Hnew.
  rewrite bool_decide_eq_true_2 by done.
  cbn [negb String.eqb Ascii.eqb Bool.eqb andb orb].
  set (msg := live_message c roomId event).
  destruct (addMessageToCache_returns sdk roomId msg c) as [Ho Ht].
  set (c1 := state_of (_addMessageToCache sdk roomId msg c)).
  rewrite (bind_run_ret _ _ c tt c1 [])
    by (rewrite <- Ho, <- Ht; symmetry; apply run_eta).
  assert (Hshow :
    (if has_custom_format (ev_content event) && String.eqb (m_type msg) "roll"
     then _triggerEvent "roll" (PMessage msg)
     else if has_custom_format (ev_content event) && String.eqb (m_type msg) "scene"
     then _triggerEvent "scene" (PMessage msg)
     else _triggerEvent "message" (PMessage msg)) c1
    = (Ret tt, c1, published c (live_channel (ev_content event)) (PMessage msg))).
  { pose proof (triggerEvent_run _ (PMessage msg) c1
                  (live_channel_not_inherited (ev_content event))) as Hrun.
    unfold published in *. unfold c1 at 3 in Hrun.
    rewrite addMessageToCache_listeners in Hrun.
    unfold live_channel in *.
    change (m_type msg) with (messageType_of (ev_content event)).
    destruct (has_custom_format (ev_content event)
              && String.eqb (messageType_of (ev_content event)) "roll"); [done|].
    by destruct (has_custom_format (ev_content event)
                 && String.eqb (messageType_of (ev_content event)) "scene"). }
  rewrite (bind_run_ret _ _ c1 tt c1 _ Hshow).
  unfold mret, M_ret, ret, outcome_of, state_of, trace_of. cbn [fst snd app].
  by rewrite app_nil_r.
Qed.

(** A live message event of the current room that the cache does not hold
    yet is published once, on the channel of the live listener, with the
    record built from it, and is cached; a second delivery of the same
    event then does nothing at all. *)
Theorem live_message_published_once event roomId c :
  room c = Some roomId ->
  ev_type event = "m.room.message" ->
  ev_redacted event = false ->
  has_id (ev_id event) (default [] (messageCache c !! roomId)) = false ->
  let r := onRoomTimeline sdk event roomId c in
  outcome_of r = Ret tt
  /\ trace_of r = published c (live_channel (ev_content event))
                    (PMessage (live_message c roomId event))
  /\ has_id (ev_id event) (default [] (messageCache (state_of r) !! roomId)) = true
  /\ onRoomTimeline sdk event roomId (state_of r) = (Ret tt, state_of r, []).
Proof.
  intros Hroom Htype Hred Hnew r. subst r.
  rewrite (onRoomTimeline_new event roomId c Hroom Htype Hred Hnew).
  pose proof (addMessageToCache_has_id sdk roomId (live_message c roomId event) c)
    as Hhas.
  pose proof (addMessageToCache_room sdk roomId (live_message c roomId event) c) as Hroom1.
  set (c1 := state_of (_addMessageToCache sdk roomId (live_message c roomId event) c))
    in *.
  unfold outcome_of, trace_of, state_of. cbn [fst snd].
  repeat split; [done|].
  apply onRoomTimeline_cached; [by rewrite Hroom1 | done | done].
Qed.

(** Every send method that returns true has sent exactly one event and
    cached the record under the id the server answered, with the user as
    its sender; when that event then comes back on the live timeline, the
    listener drops it: nothing is published and nothing changes. *)
Theorem own_echo_ignored c :
  (forall text type, delivered_once sdk c (sendMessage sdk text type c))
  /\ (forall sceneName sceneType,
        delivered_once sdk c (sendScene sdk sceneName sceneType c))
  /\ (forall text, delivered_once sdk c (sendNarration sdk text c))
  /\ (forall notation, delivered_once sdk c (sendRoll sdk notation c)).
Proof.
  assert (Hall : forall r,
            (outcome_of r = Ret true ->
             exists roomId content msg, sent_and_cached sdk c r roomId content msg) ->
            delivered_once sdk c r).
  { intros r Hsent Hok.
    destruct (Hsent Hok) as (roomId & content & msg & Hs).
    exists roomId, content, msg. split; [done|]. by eapply sent_echo_ignored. }
  repeat split; intros; apply Hall;
    first [apply sendMessage_sent | apply sendScene_sent
          | apply sendNarration_sent | apply sendRoll_sent].
Qed.

End LiveProperties.

(** ** The record of an event, live and from history *)

Section RecordProperties.

(** The history loader and the live listener build the same record from
    an event, up to the two marks [historical] and [self]; the replay of a
    cached record goes by its type tag alone, while the live listener sends
    a roll or a scene to its own channel only for content in the custom
    format, and everything else to [message]. *)
Theorem loader_and_listener_agree c roomId event :
  historical_message c roomId event = as_historical (live_message c roomId event)
  /\ channel_of (historical_message c roomId event)
       = channel_of (live_message c roomId event)
  /\ live_channel (ev_content event)
       = if has_custom_format (ev_content event)
         then channel_of (live_message c roomId event)
         else "message".
Proof.
  assert (Hrec : historical_message c roomId event
                 = as_historical (live_message c roomId event)).
  { unfold historical_message, live_message, as_historical.
    cbn [m_id m_sender m_roomId m_text m_type m_powerLevel m_timestamp m_redacted
         m_important m_dice m_rolls m_hits m_highEvenOdd m_lowEvenOdd m_username
         m_sceneName m_sceneType].
    destruct (String.eqb (messageType_of (ev_content event)) "roll"),
      (String.eqb (messageType_of (ev_content event)) "scene"),
      (has_custom_format (ev_content event)); reflexivity. }
  split; [done|]. split; [by rewrite Hrec|].
  unfold live_channel, channel_of. cbn [m_type live_message].
  destruct (has_custom_format (ev_content event)); [|done].
  cbn [andb]. done.
Qed.

End RecordProperties.

(** ** Deleting the last message *)

Section DeleteProperties.

Variable sdk : Sdk.

Lemma filter_none {A} (f : A -> bool) l :
  Forall (fun x => f x = false) l -> List.filter f l = [].
Proof.
  induction 1 as [|x l Hx _ IH]; [done|]. cbn [List.filter]. by rewrite Hx.
Qed.

(** The backward scan finds the last own message event of the timeline. *)
Lemma last_own_event_last c pre e post :
  is_own_message_event c e = true ->
  Forall (fun x => is_own_message_event c x = false) post ->
  last_own_event c (pre ++ e :: post) = Some e.
Proof.
  intros He Hpost. unfold last_own_event.
  rewrite rev_app_distr. cbn [rev]. rewrite <- app_assoc, List.filter_app.
  rewrite filter_none by (by apply Forall_rev).
  cbn [app List.filter]. by rewrite He.
Qed.

Lemma last_own_event_none c timeline :
  Forall (fun x => is_own_message_event c x = false) timeline ->
  last_own_event c timeline = None.
Proof.
  intros Hall. unfold last_own_event.
  by rewrite filter_none by (by apply Forall_rev).
Qed.

Lemma insert_newest_first_head m l :
  head (insert_newest_first m l) =
    match head l with
    | Some x => if (m_timestamp m <? m_timestamp x)%Z then Some x else Some m
    | None => Some m
    end.
Proof.
  destruct l as [|x l]; [done|]. cbn [insert_newest_first head].
  by destruct (m_timestamp m <? m_timestamp x)%Z.
Qed.

(** The head of the sorted list is a newest record of the list. *)
Lemma sort_newest_first_head l :
  match head (sort_newest_first l) with
  | Some h => newest_of l h
  | None => l = []
  end.
Proof.
  induction l as [|x l IH]; [done|].
  unfold sort_newest_first in *. cbn [foldr]. rewrite insert_newest_first_head.
  destruct (head (foldr insert_newest_first [] l)) as [h|].
  - destruct IH as [Hin Hmax].
    destruct (m_timestamp x <? m_timestamp h)%Z eqn:Hlt.
    + apply Z.ltb_lt in Hlt. split; [by right|].
      intros m' Hm'. apply elem_of_cons in Hm' as [->|Hm']; [lia | by apply Hmax].
    + apply Z.ltb_ge in Hlt. split; [by left|].
      intros m' Hm'. apply elem_of_cons in Hm' as [->|Hm']; [lia|].
      specialize (Hmax m' Hm'). lia.
  - subst l. split; [by left|].
    intros m' Hm'. apply elem_of_cons in Hm' as [->|Hm']; [lia|].
    by apply elem_of_nil in Hm'.
Qed.

Lemma last_own_cached_spec c roomId :
  match last_own_cached c roomId with
  | Some eid => exists m, newest_of (own_cached c roomId) m /\ m_id m = eid
  | None => own_cached c roomId = []
  end.
Proof.
  unfold last_own_cached, own_cached.
  destruct (messageCache c !! roomId) as [messages|]; [|done]. cbn [default].
  pose proof (sort_newest_first_head
                (List.filter (fun msg => bool_decide (m_sender msg = userId c)) messages))
    as Hhead.
  destruct (head (sort_newest_first _)) as [h|]; [|done].
  by exists h.
Qed.

Lemma mark_room_redacted id messages m :
  m ∈ mark_room id messages -> m_id m = id -> m_redacted m = true.
Proof.
  unfold mark_room. intros Hin Hid. apply list_elem_of_In, in_map_iff in Hin.
  destruct Hin as (m0 & Hm & _).
  destruct (String.eqb (m_id m0) id) eqn:Heq.
  - by subst m.
  - subst m. by apply String.eqb_neq in Heq.
Qed.

Lemma prune_room_subseteq messages m : m ∈ prune_room messages -> m ∈ messages.
Proof.
  unfold prune_room. destruct (1000 <? length messages)%nat; [|done].
  intros Hin. apply list_elem_of_lookup in Hin as [i Hi].
  rewrite lookup_drop in Hi. by eapply list_elem_of_lookup_2.
Qed.

(** What marking and saving leave in the cache. *)
Lemma mark_and_save_redacted roomId eid c :
  redacted_in
    (messageCache
       (state_of ((markRedacted roomId eid ;; _saveMessageCache sdk) c)))
    roomId eid.
Proof.
  rewrite (bind_run_ret _ _ c tt _ [] (markRedacted_run roomId eid c)).
  unfold state_of at 1. cbn [fst snd].
  destruct (saveMessageCache_run sdk
              (match messageCache c !! roomId with
               | Some messages =>
                   with_messageCache (<[roomId := mark_room eid messages]> (messageCache c)) c
               | None => c
               end)) as (_ & _ & ->).
  destruct (messageCache c !! roomId) as [ms|] eqn:Hroom.
  - cbn [messageCache with_messageCache].
    assert (Hmarked : redacted_in (<[roomId := mark_room eid ms]> (messageCache c)) roomId eid).
    { intros messages m Hl Hin Hid. rewrite lookup_insert_eq in Hl.
      injection Hl as <-. by eapply mark_room_redacted. }
    destruct (setItem sdk _); [done | | done].
    intros messages m Hl Hin Hid. rewrite prune_lookup, lookup_insert_eq in Hl.
    injection Hl as <-. apply prune_room_subseteq in Hin.
    by eapply mark_room_redacted.
  - assert (Hnone : redacted_in (messageCache c) roomId eid).
    { intros messages m Hl. by rewrite Hroom in Hl. }
    destruct (setItem sdk _); [done | | done].
    intros messages m Hl. by rewrite prune_lookup, Hroom in Hl.
Qed.

Lemma deleteLastMessage_run c roomId timeline :
  not_ready c = false -> room c = Some roomId ->
  getRoom sdk roomId = Some timeline ->
  match (match last_own_event c timeline with
         | Some event => Some (ev_id event)
         | None => last_own_cached c roomId
         end) with
  | None =>
      deleteLastMessage sdk c =
        (Ret false, c,
         published c "error" (PError "deleteMessage" "No messages found to delete"))
  | Some eid =>
      match redactEvent sdk roomId eid with
      | Resolved _ =>
          outcome_of (deleteLastMessage sdk c) = Ret true
          /\ trace_of (deleteLastMessage sdk c) = [Net (ReqRedact roomId eid)]
          /\ redacted_in (messageCache (state_of (deleteLastMessage sdk c))) roomId eid
      | Rejected e =>
          deleteLastMessage sdk c =
            (Ret false, c,
             Net (ReqRedact roomId eid)
               :: published c "error"
                    (PError "deleteMessage"
                       (Js.or_else (err_message e) "Failed to delete message")))
      end
  end.
Proof.
  intros Hnr Hroom Htl. unfold deleteLastMessage.
  rewrite bind_get_run, Hnr, Hroom. cbn [default from_option]. unfold id.
  rewrite Htl.
  destruct (match last_own_event c timeline with
            | Some event => Some (ev_id event)
            | None => last_own_cached c roomId
            end) as [eid|].
  2:{ apply try_catch_run_ret, refuse_run. }
  destruct (redactEvent sdk roomId eid) as [[]|e] eqn:Hred.
  2:{ rewrite (try_catch_run_throw _ _ c e c [Net (ReqRedact roomId eid)]).
      - by rewrite refuse_run.
      - apply bind_run_throw. unfold await.
        by rewrite (bind_run_ret _ _ c tt c [Net (ReqRedact roomId eid)]). }
  assert (Hawait : await (ReqRedact roomId eid) (Resolved tt) c
                   = (Ret tt, c, [Net (ReqRedact roomId eid)])) by done.
  set (mark := (match messageCache c !! roomId with
                | Some _ => markRedacted roomId eid ;; _saveMessageCache sdk
                | None => mret tt
                end)).
  assert (Hmark : outcome_of (mark c) = Ret tt /\ trace_of (mark c) = []
                  /\ redacted_in (messageCache (state_of (mark c))) roomId eid).
  { subst mark. destruct (messageCache c !! roomId) as [ms|] eqn:Hc.
    - split; [|split; [|apply mark_and_save_redacted]].
      + rewrite (bind_run_ret _ _ c tt _ [] (markRedacted_run roomId eid c)).
        unfold outcome_of at 1. cbn [fst snd]. apply saveMessageCache_run.
      + rewrite (bind_run_ret _ _ c tt _ [] (markRedacted_run roomId eid c)).
        unfold trace_of at 1. cbn [fst snd app]. apply saveMessageCache_run.
    - repeat split. intros messages m Hl. cbn in Hl. by rewrite Hc in Hl. }
  destruct Hmark as (Ho & Ht & Hredacted).
  erewrite try_catch_run_ret.
  2:{ rewrite (bind_run_ret _ _ c tt c _ Hawait). rewrite bind_get_run.
      fold mark.
      rewrite (bind_run_ret _ _ c tt (state_of (mark c)) [])
        by (rewrite <- Ho, <- Ht; symmetry; apply run_eta).
      unfold mret, M_ret, ret, outcome_of, state_of, trace_of. cbn [fst snd app].
      reflexivity. }
  done.
Qed.

(** Deleting the last message takes its target from the timeline first:
    with the user's last message event of the timeline at hand, that event
    is redacted, by one request, whatever the cache holds; once the server
    has accepted, every cached record of the room with its id carries the
    redaction mark, and a refusal of the server is reported as one error
    event with the client unchanged. *)
Theorem deleteLastMessage_redacts_last_own c roomId pre e post :
  not_ready c = false -> room c = Some roomId ->
  getRoom sdk roomId = Some (pre ++ e :: post) ->
  is_own_message_event c e = true ->
  Forall (fun x => is_own_message_event c x = false) post ->
  match redactEvent sdk roomId (ev_id e) with
  | Resolved _ =>
      outcome_of (deleteLastMessage sdk c) = Ret true
      /\ trace_of (deleteLastMessage sdk c) = [Net (ReqRedact roomId (ev_id e))]
      /\ redacted_in (messageCache (state_of (deleteLastMessage sdk c))) roomId (ev_id e)
  | Rejected error =>
      deleteLastMessage sdk c =
        (Ret false, c,
         Net (ReqRedact roomId (ev_id e))
           :: published c "error"
                (PError "deleteMessage"
                   (Js.or_else (err_message error) "Failed to delete message")))
  end.
Proof.
  intros Hnr Hroom Htl He Hpost.
  pose proof (deleteLastMessage_run c roomId _ Hnr Hroom Htl) as Hrun.
  by rewrite (last_own_event_last c pre e post He Hpost) in Hrun.
Qed.

(** When the timeline holds no message event of the user, the target
    comes from the cache: with no cached record of the user in the room,
    one error event says that there is nothing to delete and no request is
    sent; otherwise the one request redacts a cached record of the user
    that none of them is newer than, already redacted or not. *)
Theorem deleteLastMessage_falls_back_to_cache c roomId timeline :
  not_ready c = false -> room c = Some roomId ->
  getRoom sdk roomId = Some timeline ->
  Forall (fun x => is_own_message_event c x = false) timeline ->
  match own_cached c roomId with
  | [] =>
      deleteLastMessage sdk c =
        (Ret false, c,
         published c "error" (PError "deleteMessage" "No messages found to delete"))
  | _ :: _ =>
      exists m rest,
        newest_of (own_cached c roomId) m
        /\ trace_of (deleteLastMessage sdk c) = Net (ReqRedact roomId (m_id m)) :: rest
        /\ Forall (fun ef => is_net ef = false) rest
  end.
Proof.
  intros Hnr Hroom Htl Hnone.
  pose proof (deleteLastMessage_run c roomId _ Hnr Hroom Htl) as Hrun.
  rewrite (last_own_event_none c timeline Hnone) in Hrun.
  pose proof (last_own_cached_spec c roomId) as Hspec.
  destruct (last_own_cached c roomId) as [eid|].
  - destruct Hspec as (m & Hnewest & <-).
    destruct (own_cached c roomId) as [|m0 l] eqn:Hown.
    { destruct Hnewest as [Hin _]. by apply elem_of_nil in Hin. }
    exists m. destruct (redactEvent sdk roomId (m_id m)) as [[]|error].
    + destruct Hrun as (_ & -> & _). by exists [].
    + rewrite Hrun. eexists. split; [done|]. split; [reflexivity|].
      unfold published. apply Forall_forall. intros ef Hef.
      apply list_elem_of_In, in_map_iff in Hef as (h & <- & _). done.
  - by rewrite Hspec.
Qed.

End DeleteProperties.

(** ** Registering and removing listeners *)

Section RegistrationProperties.

Lemma triggerEvent_registered event data hs c :
  listeners c !! event = Some hs ->
  _triggerEvent event data c = (Ret tt, c, map (fun h => Invoke h event data) hs).
Proof.
  intros Hown. unfold _triggerEvent, listeners_get. rewrite bind_get_run, Hown.
  apply forEach_emit.
Qed.

Lemma on_registered event callback hs c :
  listeners c !! event = Some hs ->
  state_of (on event callback c)
    = with_listeners (<[event := hs ++ [callback]]> (listeners c)) c.
Proof.
  intros Hown. unfold on, listeners_get. rewrite bind_get_run, Hown. reflexivity.
Qed.

Lemma off_registered event callback hs c :
  listeners c !! event = Some hs ->
  state_of (off event callback c)
    = with_listeners (<[event := filter (fun cb => cb ≠ callback) hs]> (listeners c)) c.
Proof.
  intros Hown. unfold off, listeners_get. rewrite bind_get_run, Hown. reflexivity.
Qed.

(** On a channel of the listener table, [on] adds one registration at the
    end: a trigger calls the handlers it called before, in the same order,
    and then the new one, once more for every time it is registered. [off]
    removes every registration of the handler: a trigger never calls it
    again and calls the others as before. Removing a handler that was not
    registered before its registration restores the client exactly, and
    neither method touches another channel or anything but the table. *)
Theorem on_off_registration event callback hs c :
  listeners c !! event = Some hs ->
  let c1 := state_of (on event callback c) in
  let c2 := state_of (off event callback c) in
  (forall data, called c1 event data = called c event data ++ [Invoke callback event data])
  /\ (forall data,
        called c2 event data =
          List.filter (fun ef => negb (bool_decide (invoked ef = Some callback)))
            (called c event data))
  /\ (callback ∉ hs -> state_of (off event callback c1) = c)
  /\ state_of (off event callback (state_of (on event callback c1))) = c2
  /\ (forall other data, other <> event ->
        called c1 other data = called c other data
        /\ called c2 other data = called c other data)
  /\ c1 = with_listeners (listeners c1) c
  /\ c2 = with_listeners (listeners c2) c.
Proof.
  intros Hown c1 c2.
  assert (H1 : c1 = with_listeners (<[event := hs ++ [callback]]> (listeners c)) c)
    by (by apply on_registered).
  assert (H2 : c2 = with_listeners
                      (<[event := filter (fun cb => cb ≠ callback) hs]> (listeners c)) c)
    by (by apply off_registered).
  assert (Hfilter : forall data l,
            map (fun h => Invoke h event data) (filter (fun cb => cb ≠ callback) l)
            = List.filter (fun ef => negb (bool_decide (invoked ef = Some callback)))
                (map (fun h => Invoke h event data) l)).
  { intros data l. induction l as [|h l IH]; [done|].
    cbn [map List.filter invoked]. destruct (decide (h = callback)) as [->|Hne].
    - rewrite filter_cons_False by (intros Hn; by apply Hn).
      rewrite bool_decide_eq_true_2 by done. cbn [negb]. apply IH.
    - rewrite filter_cons_True by done.
      rewrite bool_decide_eq_false_2 by congruence. cbn [negb map]. by rewrite IH. }
  assert (Hl1 : listeners c1 !! event = Some (hs ++ [callback]))
    by (rewrite H1; cbn [listeners with_listeners]; apply lookup_insert_eq).
  assert (Hl2 : listeners c2 !! event = Some (filter (fun cb => cb ≠ callback) hs))
    by (rewrite H2; cbn [listeners with_listeners]; apply lookup_insert_eq).
  split; [|split; [|split; [|split; [|split; [|split]]]]].
  - intros data. unfold called.
    rewrite (triggerEvent_registered event data _ c1 Hl1),
      (triggerEvent_registered event data _ c Hown).
    unfold trace_of. cbn [snd]. by rewrite map_app.
  - intros data. unfold called.
    rewrite (triggerEvent_registered event data _ c2 Hl2),
      (triggerEvent_registered event data _ c Hown).
    unfold trace_of. cbn [snd]. apply Hfilter.
  - intros Hnew. rewrite (off_registered event callback _ c1 Hl1), H1.
    cbn [listeners with_listeners]. rewrite insert_insert_eq.
    rewrite filter_app, filter_cons_False, filter_nil, app_nil_r
      by (intros Hn; by apply Hn).
    assert (Hsame : filter (fun cb => cb ≠ callback) hs = hs).
    { clear -Hnew. induction hs as [|h l IH]; [done|].
      rewrite filter_cons_True by (intros ->; apply Hnew; by left).
      f_equal. apply IH. intros Hin. apply Hnew. by right. }
    rewrite Hsame, insert_id by done. by destruct c.
  - assert (Hl11 : listeners (state_of (on event callback c1)) !! event
                   = Some ((hs ++ [callback]) ++ [callback])).
    { rewrite (on_registered event callback _ c1 Hl1).
      cbn [listeners with_listeners]. apply lookup_insert_eq. }
    rewrite (off_registered event callback _ _ Hl11),
      (on_registered event callback _ c1 Hl1), H1, H2.
    cbn [listeners with_listeners]. rewrite !insert_insert_eq.
    rewrite !filter_app, !filter_cons_False, filter_nil, !app_nil_r
      by (intros Hn; by apply Hn).
    by destruct c.
  - intros other data Hother. unfold called, _triggerEvent.
    rewrite !bind_get_run. rewrite H1, H2. unfold listeners_get.
    cbn [listeners with_listeners]. rewrite !lookup_insert_ne by done.
    destruct (listeners c !! other) as [hs'|].
    + by rewrite !forEach_emit.
    + by destruct (bool_decide (other ∈ object_prototype_members)).
  - rewrite H1. by destruct c.
  - rewrite H2. by destruct c.
Qed.

Lemma on_off_registration_witness :
  listeners Demo.logged_in !! "message" = Some [1%nat]
  /\ forall data,
       called (state_of (on "message" 7%nat Demo.logged_in)) "message" data
       = called Demo.logged_in "message" data ++ [Invoke 7%nat "message" data].
Proof.
  split; [reflexivity|].
  apply (on_off_registration "message" 7%nat [1%nat] Demo.logged_in). reflexivity.
Defined.

End RegistrationProperties.

(** ** The total of a roll *)

Section TotalProperties.

Lemma fold_add_bounds (l : list Z) (hi a : Z) :
  Forall (fun x => (1 <= x <= hi)%Z) l ->
  (a + Z.of_nat (length l) <= fold_left Z.add l a <= a + Z.of_nat (length l) * hi)%Z.
Proof.
  intros Hall. revert a. induction Hall as [|x l Hx _ IH]; intros a.
  - cbn. lia.
  - cbn [fold_left length]. specialize (IH (a + x)%Z). nia.
Qed.

Lemma fold_add_foldr (l : list Z) (a : Z) :
  fold_left Z.add l a = (a + foldr Z.add 0 l)%Z.
Proof.
  revert a. induction l as [|x l IH]; intros a; cbn [fold_left foldr]; [lia|].
  rewrite IH. lia.
Qed.

(** The total of an accepted roll of N dice of M sides is the sum of its
    values, so it lies between N and N times M. *)
Theorem rollDice_total rng notation n m :
  parse_notation notation = Some (n, m) ->
  (1 <= n <= 100)%N ->
  (1 <= m <= 1000)%N ->
  exists r,
    rollDice rng notation = Some r
    /\ total r = foldr Z.add 0%Z (rolls r)
    /\ (Z.of_N n <= total r <= Z.of_N n * Z.of_N m)%Z.
Proof.
  intros Hparse Hn Hm. rewrite (rollDice_unfold _ _ _ _ Hparse).
  destruct (N.ltb_spec 100 n); [lia|].
  destruct (N.ltb_spec 1000 m); [lia|].
  cbn [orb]. eexists; split; [reflexivity|]. cbn [rolls total].
  set (rs := roll_values rng (N.to_nat n) m).
  split.
  - rewrite fold_add_foldr. lia.
  - pose proof (fold_add_bounds rs (Z.of_N m) 0
                  (roll_values_range rng (N.to_nat n) m ltac:(lia))) as Hb.
    subst rs. rewrite roll_values_length in Hb. lia.
Qed.

Lemma rollDice_total_witness :
  parse_notation "3d6" = Some (3, 6)%N
  /\ exists r, rollDice (random Demo.sdk) "3d6" = Some r
               /\ total r = foldr Z.add 0%Z (rolls r)
               /\ (3 <= total r <= 3 * 6)%Z.
Proof.
  split; [reflexivity|].
  apply (rollDice_total (random Demo.sdk) "3d6" 3 6); [reflexivity | lia | lia].
Defined.

End TotalProperties.

(** ** Pages of history *)

Section PageProperties.

Variable sdk : Sdk.

(** A pass over a list of events always returns; the set of processed ids
    grows by the id of every event that is not redacted, and only message
    events are counted. *)
Lemma processEvents_from_run roomId events : forall processed n c,
  exists processed' n',
    outcome_of (processEvents_from sdk roomId (processed, n) events c)
      = Ret (processed', n')
    /\ processed ⊆ processed'
    /\ (forall e, e ∈ events -> ev_redacted e = false -> ev_id e ∈ processed').
Proof.
  induction events as [|event rest IH]; intros processed n c.
  - exists processed, n. split; [done|]. split; [done|].
    intros e He. by apply elem_of_nil in He.
  - cbn [processEvents_from].
    assert (Hstep : exists p1 n1 c1 t1,
              processEvent sdk roomId (processed, n) event c = (Ret (p1, n1), c1, t1)
              /\ processed ⊆ p1
              /\ (ev_redacted event = false -> ev_id event ∈ p1)).
    { destruct (decide (ev_id event ∈ processed)) as [Hin|Hnew].
      { exists processed, n, c, []. unfold processEvent.
        rewrite bool_decide_eq_true_2 by done. by cbn [orb]. }
      destruct (ev_redacted event) eqn:Hred.
      { exists processed, n, c, []. unfold processEvent.
        rewrite bool_decide_eq_false_2, Hred by done. by cbn [orb]. }
      destruct (String.eqb (ev_type event) "m.room.message") eqn:Htype.
      - apply String.eqb_eq in Htype.
        pose proof (processEvent_message sdk roomId processed n event c Htype Hred Hnew)
          as Hrun. cbv zeta in Hrun.
        do 4 eexists. split; [exact Hrun|]. split; set_solver.
      - exists ({[ev_id event]} ∪ processed), n, c, []. unfold processEvent.
        rewrite bool_decide_eq_false_2 by done. rewrite Hred, Htype. cbn [orb].
        split; [done|]. split; set_solver. }
    destruct Hstep as (p1 & n1 & c1 & t1 & Hrun & Hsub & Hid).
    rewrite (bind_run_ret _ _ c (p1, n1) c1 t1 Hrun).
    unfold outcome_of at 1. cbn [fst snd].
    destruct (IH p1 n1 c1) as (p2 & n2 & Hrest & Hsub2 & Hids).
    exists p2, n2. split; [done|]. split; [set_solver|].
    intros e He Hred. apply elem_of_cons in He as [->|He]; [|by apply Hids].
    apply Hsub2, Hid, Hred.
Qed.

(** A pass over events that are all processed already, or redacted, does
    nothing and counts nothing. *)
Lemma processEvents_from_seen roomId events : forall processed n c,
  Forall (fun e => ev_redacted e = false -> ev_id e ∈ processed) events ->
  processEvents_from sdk roomId (processed, n) events c = (Ret (processed, n), c, []).
Proof.
  induction events as [|event rest IH]; intros processed n c Hall; [done|].
  apply Forall_cons in Hall as [Hev Hrest].
  cbn [processEvents_from].
  assert (Hstep : processEvent sdk roomId (processed, n) event c
                  = (Ret (processed, n), c, [])).
  { unfold processEvent. destruct (ev_redacted event).
    - by rewrite orb_true_r.
    - by rewrite bool_decide_eq_true_2 by (by apply Hev). }
  rewrite (bind_run_ret _ _ c (processed, n) c [] Hstep).
  rewrite IH by done. reflexivity.
Qed.

Lemma requests_app t1 t2 : requests (t1 ++ t2) = (requests t1 + requests t2)%nat.
Proof. unfold requests. by rewrite List.filter_app, length_app. Qed.

Lemma requests_published c event data : requests (published c event data) = 0%nat.
Proof.
  unfold requests, published.
  induction (default [] (listeners c !! event)) as [|h l IH]; [done|]. exact IH.
Qed.

(** The effects of a pass over events are listener calls only. *)
Lemma processEvents_from_requests roomId events : forall acc c,
  requests (trace_of (processEvents_from sdk roomId acc events c)) = 0%nat.
Proof.
  induction events as [|event rest IH]; intros [processed n] c; [done|].
  cbn [processEvents_from].
  assert (Hstep : exists acc1 c1 t1,
            processEvent sdk roomId (processed, n) event c = (Ret acc1, c1, t1)
            /\ requests t1 = 0%nat).
  { unfold processEvent.
    destruct (bool_decide (ev_id event ∈ processed) || ev_redacted event) eqn:Hskip.
    { by exists (processed, n), c, []. }
    apply orb_false_iff in Hskip as [Hnew Hred]. apply bool_decide_eq_false_1 in Hnew.
    destruct (String.eqb (ev_type event) "m.room.message") eqn:Htype.
    - apply String.eqb_eq in Htype.
      pose proof (processEvent_message sdk roomId processed n event c Htype Hred Hnew)
        as Hrun. cbv zeta in Hrun. unfold processEvent in Hrun.
      rewrite bool_decide_eq_false_2, Hred, Htype in Hrun by done. cbn [orb] in Hrun.
      rewrite String.eqb_refl in Hrun.
      do 3 eexists. split; [exact Hrun|].
      destruct (isLoadingHistory c); [done | apply requests_published].
    - by exists ({[ev_id event]} ∪ processed, n), c, []. }
  destruct Hstep as (acc1 & c1 & t1 & Hrun & Ht1).
  rewrite (bind_run_ret _ _ c acc1 c1 t1 Hrun). unfold trace_of at 1. cbn [snd].
  by rewrite requests_app, Ht1, IH.
Qed.

Lemma paginateBackward_no_chunk roomId processed page script c :
  match chunk page with None | Some [] => True | Some (_ :: _) => False end ->
  paginateBackward sdk (Resolved (Some page) :: script) roomId processed c =
    (Ret false, c,
     Net (ReqMessages roomId 100)
       :: published c "message"
            (PSystem (Some "system") roomId "All message history loaded" true false)).
Proof.
  intros Hchunk. cbn [paginateBackward]. apply try_catch_run_ret.
  rewrite (bind_run_ret _ _ c (Some page) c [Net (ReqMessages roomId 100)]) by done.
  change (Some page ≫= chunk) with (chunk page).
  assert (Hnotice : ((system_message roomId "All message history loaded" true ;;
                      mret false) : M bool) c
                    = (Ret false, c,
                       published c "message"
                         (PSystem (Some "system") roomId "All message history loaded"
                            true false))).
  { rewrite (bind_run_ret _ _ c tt c _ (system_message_run roomId _ true c)).
    unfold mret, M_ret, ret, outcome_of, state_of, trace_of. cbn [fst snd].
    by rewrite app_nil_r. }
  destruct (chunk page) as [[|event events]|]; [|done|]; by rewrite Hnotice.
Qed.

(** One page with events: a pass over them, then the next request when
    the page has a token and the pass counted a new message. *)
Lemma paginateBackward_page roomId processed page event events script c p1 n1 :
  chunk page = Some (event :: events) ->
  outcome_of (processEvents sdk roomId processed (event :: events) c) = Ret (p1, n1) ->
  paginateBackward sdk (Resolved (Some page) :: script) roomId processed c =
    if Js.truthy_opt (page_end page) && (0 <? n1)%nat then
      (outcome_of (paginateBackward sdk script roomId p1
                     (state_of (processEvents sdk roomId processed (event :: events) c))),
       state_of (paginateBackward sdk script roomId p1
                   (state_of (processEvents sdk roomId processed (event :: events) c))),
       Net (ReqMessages roomId 100)
         :: trace_of (processEvents sdk roomId processed (event :: events) c)
         ++ Sleep 500
         :: trace_of (paginateBackward sdk script roomId p1
                        (state_of (processEvents sdk roomId processed
                                     (event :: events) c))))
    else
      (Ret false, state_of (processEvents sdk roomId processed (event :: events) c),
       Net (ReqMessages roomId 100)
         :: trace_of (processEvents sdk roomId processed (event :: events) c)).
Proof.
  intros Hchunk Hout. cbn [paginateBackward].
  set (r1 := processEvents sdk roomId processed (event :: events) c) in *.
  assert (Hr1 : processEvents sdk roomId processed (event :: events) c
                = (Ret (p1, n1), state_of r1, trace_of r1)).
  { fold r1. rewrite <- Hout. symmetry. apply run_eta. }
  set (r2 := paginateBackward sdk script roomId p1 (state_of r1)).
  match goal with
  | |- try_catch ?m ?h c = _ =>
      assert (Hbody : m c =
                if Js.truthy_opt (page_end page) && (0 <? n1)%nat then
                  (outcome_of r2, state_of r2,
                   Net (ReqMessages roomId 100) :: trace_of r1 ++ Sleep 500 :: trace_of r2)
                else (Ret false, state_of r1, Net (ReqMessages roomId 100) :: trace_of r1))
  end.
  { rewrite (bind_run_ret _ _ c (Some page) c [Net (ReqMessages roomId 100)]) by done.
    change (Some page ≫= chunk) with (chunk page).
    change (Some page ≫= page_end) with (page_end page).
    rewrite Hchunk. rewrite (bind_run_ret _ _ c (p1, n1) _ _ Hr1).
    destruct (Js.truthy_opt (page_end page) && (0 <? n1)%nat).
    - rewrite (bind_run_ret _ _ (state_of r1) tt (state_of r1) [Sleep 500]) by done.
      fold r2. unfold outcome_of at 1, state_of at 1, trace_of at 1 2. cbn [fst snd app].
      reflexivity.
    - unfold mret, M_ret, ret, outcome_of, state_of at 1, trace_of at 1. cbn [fst snd].
      by rewrite app_nil_r. }
  unfold try_catch. rewrite Hbody.
  destruct (Js.truthy_opt (page_end page) && (0 <? n1)%nat); [|done].
  pose proof (no_throw_paginateBackward sdk script roomId p1 (state_of r1)) as Hnt.
  fold r2 in Hnt. destruct (outcome_of r2) as [b|e|] eqn:Ho; [done | | done].
  by destruct (Hnt e).
Qed.

(** Every pagination request is the same request: it carries no token. A
    server that answers it twice with the same page therefore ends the
    pagination: whatever the page and its token, the loader returns false
    after two requests at most, the second pass over the page finds every
    event processed already, and the client is as the first pass left
    it. *)
Theorem paginateBackward_repeated_page roomId processed page script c :
  let r := paginateBackward sdk (Resolved (Some page) :: Resolved (Some page) :: script)
             roomId processed c in
  outcome_of r = Ret false
  /\ state_of r
     = state_of (processEvents sdk roomId processed (default [] (chunk page)) c)
  /\ (1 <= requests (trace_of r) <= 2)%nat.
Proof.
  cbv zeta.
  assert (Hone : forall t : list Effect,
            requests (Net (ReqMessages roomId 100) :: t) = S (requests t)) by done.
  destruct (chunk page) as [[|event events]|] eqn:Hchunk.
  - rewrite paginateBackward_no_chunk by (by rewrite Hchunk).
    unfold outcome_of, state_of, trace_of. cbn [fst snd default].
    rewrite Hone, requests_published. repeat split; lia.
  - cbn [default].
    destruct (processEvents_from_run roomId (event :: events) processed 0 c)
      as (p1 & n1 & Hout1 & Hsub & Hids).
    pose proof (processEvents_from_requests roomId (event :: events) (processed, 0%nat) c)
      as Hreq1.
    change (processEvents_from sdk roomId (processed, 0%nat) (event :: events) c)
      with (processEvents sdk roomId processed (event :: events) c) in *.
    rewrite (paginateBackward_page roomId processed page event events _ c p1 n1 Hchunk Hout1).
    set (r1 := processEvents sdk roomId processed (event :: events) c) in *.
    destruct (Js.truthy_opt (page_end page) && (0 <? n1)%nat).
    + assert (Hseen : processEvents sdk roomId p1 (event :: events) (state_of r1)
                      = (Ret (p1, 0%nat), state_of r1, [])).
      { unfold processEvents. apply processEvents_from_seen.
        apply Forall_forall. intros e He Hred. by apply Hids. }
      rewrite (paginateBackward_page roomId p1 page event events script (state_of r1)
                 p1 0%nat Hchunk) by (by rewrite Hseen).
      rewrite andb_false_r, Hseen. run_simpl.
      split; [done|]. split; [done|].
      rewrite Hone, requests_app, Hreq1.
      change (requests (Sleep 500 :: [Net (ReqMessages roomId 100)])) with 1%nat. lia.
    + run_simpl. split; [done|]. split; [done|]. rewrite Hone, Hreq1. lia.
  - rewrite paginateBackward_no_chunk by (by rewrite Hchunk).
    unfold outcome_of, state_of, trace_of. cbn [fst snd default].
    rewrite Hone, requests_published. repeat split; lia.
Qed.

End PageProperties.

(** ** Room state *)

Section RoomStateProperties.

Variable sdk : Sdk.

Lemma member_levels_lookup users members u :
  member_levels users members !! u =
    if bool_decide (u ∈ members) then Some (default 0%Z (users !! u))
    else None.
Proof.
  unfold member_levels.
  assert (Hgen : forall acc : gmap string Z,
            fold_left
              (fun acc userId => <[userId := default 0%Z (users !! userId)]> acc)
              members acc !! u
            = if bool_decide (u ∈ members)
              then Some (default 0%Z (users !! u))
              else acc !! u).
  { induction members as [|x l IH]; intros acc; [done|].
    cbn [fold_left]. rewrite IH.
    destruct (decide (u ∈ l)) as [Hin|Hout].
    - rewrite !bool_decide_eq_true_2; [done | by right | done].
    - rewrite (bool_decide_eq_false_2 (u ∈ l)) by done.
      destruct (decide (u = x)) as [->|Hne].
      + rewrite lookup_insert_eq. rewrite bool_decide_eq_true_2; [done | by left].
      + rewrite lookup_insert_ne by done.
        rewrite bool_decide_eq_false_2; [done|].
        intros Hin. apply elem_of_cons in Hin as [?|?]; done. }
  rewrite Hgen. by destruct (bool_decide (u ∈ members)).
Qed.

Lemma published_listeners c c' event data :
  listeners c' = listeners c -> published c' event data = published c event data.
Proof. unfold published. by intros ->. Qed.

Lemma roomState_event_run roomId state c c1 :
  listeners c1 = listeners c ->
  ((_triggerEvent "roomState" (PRoomState roomId state) ;; mret (Some state))
     : M (option RoomState)) c1
  = (Ret (Some state), c1, published c "roomState" (PRoomState roomId state)).
Proof.
  intros Hl.
  assert (Hev : _triggerEvent "roomState" (PRoomState roomId state) c1
                = (Ret tt, c1, published c "roomState" (PRoomState roomId state))).
  { rewrite triggerEvent_run.
    - f_equal. by apply published_listeners.
    - apply (bool_decide_unpack ("roomState" ∉ object_prototype_members)).
      by vm_compute. }
  rewrite (bind_run_after _ _ c1 tt c1 _ Hev).
  unfold mret, M_ret, ret. rewrite after_run. by rewrite app_nil_r.
Qed.

Lemma updateRoomState_run roomId c :
  _updateRoomState sdk roomId c =
    match getStateEvent sdk roomId, getJoinedRoomMembers sdk roomId with
    | Resolved powerLevels, Resolved members =>
        let bare := {| rs_members := ∅; rs_powerLevels := powerLevels |} in
        match pl_users powerLevels, members with
        | Some users, _ =>
            let state := {| rs_members := member_levels users members;
                            rs_powerLevels := powerLevels |} in
            (Ret (Some state), with_roomState (<[roomId := state]> (roomState c)) c,
             Net (ReqStateEvent roomId) :: Net (ReqJoinedMembers roomId)
               :: published c "roomState" (PRoomState roomId state))
        | None, [] =>
            (Ret (Some bare), with_roomState (<[roomId := bare]> (roomState c)) c,
             Net (ReqStateEvent roomId) :: Net (ReqJoinedMembers roomId)
               :: published c "roomState" (PRoomState roomId bare))
        | None, userId :: _ =>
            (Ret None, with_roomState (<[roomId := bare]> (roomState c)) c,
             Net (ReqStateEvent roomId) :: Net (ReqJoinedMembers roomId)
               :: published c "error"
                    (PError "roomState"
                       (Js.or_else (err_message (users_undefined userId))
                          "Failed to update room state")))
        end
    | Resolved _, Rejected error =>
        (Ret None, c,
         Net (ReqStateEvent roomId) :: Net (ReqJoinedMembers roomId)
           :: published c "error"
                (PError "roomState"
                   (Js.or_else (err_message error) "Failed to update room state")))
    | Rejected error, _ =>
        (Ret None, c,
         Net (ReqStateEvent roomId)
           :: published c "error"
                (PError "roomState"
                   (Js.or_else (err_message error) "Failed to update room state")))
    end.
Proof.
  unfold _updateRoomState.
  assert (Hcatch : forall error c1,
            listeners c1 = listeners c ->
            ((error_event "roomState"
                (Js.or_else (err_message error) "Failed to update room state") ;;
              mret None) : M (option RoomState)) c1
            = (Ret None, c1,
               published c "error"
                 (PError "roomState"
                    (Js.or_else (err_message error) "Failed to update room state")))).
  { intros error c1 Hl. rewrite (bind_run_after _ _ c1 tt c1 _ (error_event_run _ _ c1)).
    unfold mret, M_ret, ret. rewrite after_run, app_nil_r.
    f_equal. by apply published_listeners. }
  destruct (getStateEvent sdk roomId) as [powerLevels|error].
  2:{ rewrite (try_catch_run_throw _ _ c error c [Net (ReqStateEvent roomId)]) by done.
      by rewrite Hcatch. }
  destruct (getJoinedRoomMembers sdk roomId) as [members|error].
  2:{ rewrite (try_catch_run_throw _ _ c error c
                 [Net (ReqStateEvent roomId); Net (ReqJoinedMembers roomId)]) by done.
      by rewrite Hcatch. }
  cbv zeta.
  set (bare := {| rs_members := ∅; rs_powerLevels := powerLevels |}).
  set (c1 := with_roomState (<[roomId := bare]> (roomState c)) c).
  destruct (pl_users powerLevels) as [users|] eqn:Husers.
  - set (state := {| rs_members := member_levels users members;
                     rs_powerLevels := powerLevels |}).
    set (c2 := with_roomState (<[roomId := state]> (roomState c)) c).
    apply try_catch_run_ret.
    rewrite (bind_run_after _ _ c powerLevels c [Net (ReqStateEvent roomId)]) by done.
    rewrite (bind_run_after _ _ c members c [Net (ReqJoinedMembers roomId)]) by done.
    rewrite bind_get_run.
    rewrite (bind_run_after _ _ c tt c1 []) by done.
    rewrite Husers. cbv zeta. fold state.
    rewrite (bind_run_after _ _ c1 tt c2 []) by (by destruct c).
    rewrite (roomState_event_run roomId state c c2) by done.
    by rewrite !after_run.
  - destruct members as [|userId members].
    + apply try_catch_run_ret.
      rewrite (bind_run_after _ _ c powerLevels c [Net (ReqStateEvent roomId)]) by done.
      rewrite (bind_run_after _ _ c [] c [Net (ReqJoinedMembers roomId)]) by done.
      rewrite bind_get_run.
      rewrite (bind_run_after _ _ c tt c1 []) by done.
      rewrite Husers. cbv zeta. fold bare.
      rewrite (roomState_event_run roomId bare c c1) by done.
      by rewrite !after_run.
    + rewrite (try_catch_run_throw _ _ c (users_undefined userId) c1
                 [Net (ReqStateEvent roomId); Net (ReqJoinedMembers roomId)]).
      * by rewrite Hcatch.
      * rewrite (bind_run_after _ _ c powerLevels c [Net (ReqStateEvent roomId)])
          by done.
        rewrite (bind_run_after _ _ c (userId :: members) c
                   [Net (ReqJoinedMembers roomId)]) by done.
        rewrite bind_get_run.
        rewrite (bind_run_after _ _ c tt c1 []) by done.
        rewrite Husers. unfold throw. by rewrite !after_run.
Qed.

(** A refresh of the room state replaces the state of the room as soon as
    both answers of the server are at hand. When the power levels have
    their [users], the members recorded for the room are exactly the joined
    members, each with the level the power levels give it and 0 when they
    give none; whoever is not joined reads as level 0, whatever was
    recorded before; the new state is published once. When the power
    levels have no [users], the room is left with a state without members:
    with nobody joined that state is published, otherwise the refresh ends
    in one error event and the result null, the recorded state having
    changed all the same. In each case the other rooms and the rest of the
    client are untouched. When either request fails the recorded state
    stays as it was, one error event is published and the result is
    null. *)
Theorem updateRoomState_replaces roomId c :
  let r := _updateRoomState sdk roomId c in
  match getStateEvent sdk roomId, getJoinedRoomMembers sdk roomId with
  | Resolved powerLevels, Resolved members =>
      (forall other, other <> roomId ->
         roomState (state_of r) !! other = roomState c !! other)
      /\ state_of r = with_roomState (roomState (state_of r)) c
      /\ match pl_users powerLevels with
         | Some users =>
             exists state,
               outcome_of r = Ret (Some state)
               /\ roomState (state_of r) !! roomId = Some state
               /\ rs_powerLevels state = powerLevels
               /\ (forall u, rs_members state !! u =
                               if bool_decide (u ∈ members)
                               then Some (default 0%Z (users !! u))
                               else None)
               /\ (forall u, member_powerLevel (state_of r) roomId u =
                               if bool_decide (u ∈ members)
                               then default 0%Z (users !! u)
                               else 0%Z)
               /\ trace_of r =
                    Net (ReqStateEvent roomId) :: Net (ReqJoinedMembers roomId)
                      :: published c "roomState" (PRoomState roomId state)
         | None =>
             let bare := {| rs_members := ∅; rs_powerLevels := powerLevels |} in
             roomState (state_of r) !! roomId = Some bare
             /\ (forall u, member_powerLevel (state_of r) roomId u = 0%Z)
             /\ match members with
                | [] =>
                    outcome_of r = Ret (Some bare)
                    /\ trace_of r =
                         Net (ReqStateEvent roomId) :: Net (ReqJoinedMembers roomId)
                           :: published c "roomState" (PRoomState roomId bare)
                | _ :: _ =>
                    outcome_of r = Ret None
                    /\ exists message,
                         trace_of r =
                           Net (ReqStateEvent roomId) :: Net (ReqJoinedMembers roomId)
                             :: published c "error" (PError "roomState" message)
                end
         end
  | _, _ =>
      exists error t,
        r = (Ret None, c,
             t ++ published c "error"
                    (PError "roomState"
                       (Js.or_else (err_message error) "Failed to update room state")))
        /\ Forall (fun ef => is_net ef = true) t
  end.
Proof.
  cbv zeta. rewrite updateRoomState_run.
  destruct (getStateEvent sdk roomId) as [powerLevels|error].
  2:{ exists error, [Net (ReqStateEvent roomId)]. split; [done|]. by repeat constructor. }
  destruct (getJoinedRoomMembers sdk roomId) as [members|error].
  2:{ exists error, [Net (ReqStateEvent roomId); Net (ReqJoinedMembers roomId)].
      split; [done|]. by repeat constructor. }
  cbv zeta. destruct (pl_users powerLevels) as [users|].
  - run_simpl. cbn [roomState with_roomState].
    split; [intros other Hother; by rewrite lookup_insert_ne|].
    split; [by destruct c|].
    eexists. split; [reflexivity|].
    cbn [rs_members rs_powerLevels].
    split; [apply lookup_insert_eq|]. split; [done|].
    split; [apply member_levels_lookup|]. split; [|done].
    intros u. unfold member_powerLevel. cbn [roomState with_roomState].
    rewrite lookup_insert_eq. cbn [rs_members]. rewrite member_levels_lookup.
    by destruct (bool_decide (u ∈ members)).
  - assert (Hzero : forall u c1,
              roomState c1 !! roomId
                = Some {| rs_members := ∅; rs_powerLevels := powerLevels |} ->
              member_powerLevel c1 roomId u = 0%Z).
    { intros u c1 Hc1. unfold member_powerLevel. rewrite Hc1. cbn [rs_members].
      by rewrite lookup_empty. }
    destruct members as [|userId members]; run_simpl; cbn [roomState with_roomState].
    + split; [intros other Hother; by rewrite lookup_insert_ne|].
      split; [by destruct c|].
      split; [apply lookup_insert_eq|].
      split; [intros u; apply Hzero; apply lookup_insert_eq | done].
    + split; [intros other Hother; by rewrite lookup_insert_ne|].
      split; [by destruct c|].
      split; [apply lookup_insert_eq|].
      split; [intros u; apply Hzero; apply lookup_insert_eq|].
      split; [done | by eexists].
Qed.

Lemma updateRoomState_frame roomId c :
  exists o states,
    outcome_of (_updateRoomState sdk roomId c) = Ret o
    /\ state_of (_updateRoomState sdk roomId c) = with_roomState states c.
Proof.
  rewrite updateRoomState_run.
  destruct (getStateEvent sdk roomId) as [powerLevels|error].
  2:{ exists None, (roomState c). run_simpl. split; [done | by destruct c]. }
  destruct (getJoinedRoomMembers sdk roomId) as [members|error].
  2:{ exists None, (roomState c). run_simpl. split; [done | by destruct c]. }
  cbv zeta. destruct (pl_users powerLevels) as [users|]; [|destruct members];
    run_simpl; by do 2 eexists.
Qed.

End RoomStateProperties.

(** ** Joining a room *)

Section JoinProperties.

Variable sdk : Sdk.

Lemma forEach_replay cached c :
  isLoadingHistory c = false ->
  forEach _processHistoricalMessage cached c = (Ret tt, c, replay_of c cached).
Proof.
  intros Hflag. induction cached as [|m l IH]; [done|].
  cbn [forEach]. unfold replay_of. cbn [map concat].
  assert (Hone : _processHistoricalMessage m c
                 = (Ret tt, c, published c (channel_of m) (PMessage m))).
  { rewrite processHistoricalMessage_run, Hflag. done. }
  rewrite (bind_run_ret _ _ c tt c _ Hone), IH. by run_simpl.
Qed.

(** The history loader changes the cache and its stored copy only. *)
Lemma loadRoomHistory_frame roomId c :
  exists cache stored,
    state_of (_loadRoomHistory sdk roomId c)
      = with_storedCache stored (with_messageCache cache c).
Proof.
  pose (P := fun c' : Client =>
               exists cache stored, c' = with_storedCache stored (with_messageCache cache c)).
  assert (Hresp : respects P (fun _ => True) (_loadRoomHistory sdk roomId)).
  { apply respects_loadRoomHistory; try done.
    - intros r message c' (cache & stored & ->). split; [|by apply Forall_true].
      destruct (addMessageToCache_frame sdk r message
                  (with_storedCache stored (with_messageCache cache c)))
        as (cache' & stored' & ->).
      by exists cache', stored'.
    - intros c0 r event c' Hc'. rewrite processHistoricalMessage_run. run_simpl.
      split; [done | by apply Forall_true].
    - intros r text temporary c' Hc'. rewrite system_message_run. run_simpl.
      split; [done | by apply Forall_true]. }
  destruct (Hresp c) as [Hst _]; [|exact Hst].
  exists (messageCache c), (storedCache c). by destruct c.
Qed.

(** A join, step by step. *)
Lemma joinRoom_run roomIdOrAlias inviteCode joined c :
  client c = true ->
  isLoadingHistory c = false ->
  sdk_joinRoom sdk roomIdOrAlias (if Js.truthy_opt inviteCode then inviteCode else None)
    = Resolved joined ->
  storeItem sdk "matrixRoom" (ri_roomId joined) = None ->
  let roomId := ri_roomId joined in
  let c1 := with_localStorage (<["matrixRoom" := roomId]> (localStorage c))
              (with_room (Some roomId) c) in
  let rs := _updateRoomState sdk roomId c1 in
  let rl := _loadRoomHistory sdk roomId (with_isLoadingHistory true (state_of rs)) in
  let before :=
    Net (ReqJoinRoom roomIdOrAlias
           (if Js.truthy_opt inviteCode then inviteCode else None))
      :: trace_of rs
      ++ replay_of c (default [] (messageCache c !! roomId))
      ++ trace_of rl in
  joinRoom sdk roomIdOrAlias inviteCode c =
    match outcome_of rl with
    | Pending => (Pending, state_of rl, before)
    | _ =>
        (Ret true,
         with_historyLoaded true (with_isLoadingHistory false (state_of rl)),
         before ++ published c "roomJoin" (PRoomJoin roomId (ri_name joined)))
    end.
Proof.
  intros Hclient Hflag Hjoin Hstore roomId c1 rs rl before.
  unfold joinRoom. rewrite bind_get_run, Hclient. cbn [negb]. cbv zeta.
  set (opts := if Js.truthy_opt inviteCode then inviteCode else None) in *.
  destruct (updateRoomState_frame sdk roomId c1) as (o & states & Hso & Hss).
  fold rs in Hso, Hss.
  destruct (loadRoomHistory_frame roomId (with_isLoadingHistory true (state_of rs)))
    as (cache & stored & Hls).
  fold rl in Hls.
  assert (Hlisteners2 : listeners (state_of rs) = listeners c) by (by rewrite Hss).
  assert (Hcache2 : messageCache (state_of rs) = messageCache c) by (by rewrite Hss).
  assert (Hflag2 : isLoadingHistory (state_of rs) = false) by (by rewrite Hss).
  assert (Hlisteners3 : listeners (state_of rl) = listeners c) by (by rewrite Hls).
  pose proof (no_throw_loadRoomHistory sdk roomId
                (with_isLoadingHistory true (state_of rs))) as Hnt.
  fold rl in Hnt.
  match goal with
  | |- try_catch ?m ?h c = _ =>
      assert (Hbody : m c =
                match outcome_of rl with
                | Pending => (Pending, state_of rl, before)
                | _ =>
                    (Ret true,
                     with_historyLoaded true (with_isLoadingHistory false (state_of rl)),
                     before ++ published c "roomJoin" (PRoomJoin roomId (ri_name joined)))
                end)
  end.
  { rewrite (bind_run_after _ _ c joined c [Net (ReqJoinRoom roomIdOrAlias opts)])
      by (unfold await; by rewrite Hjoin).
    fold roomId.
    rewrite (bind_run_after _ _ c tt (with_room (Some roomId) c) []) by done.
    rewrite (bind_run_after _ _ (with_room (Some roomId) c) tt c1 [])
      by (unfold storage_set; fold roomId in Hstore; by rewrite Hstore).
    rewrite (bind_run_after _ _ c1 o (state_of rs) (trace_of rs))
      by (fold rs; rewrite <- Hso; symmetry; apply run_eta).
    rewrite (bind_run_after _ _ (state_of rs) (default [] (messageCache c !! roomId))
               (state_of rs) [])
      by (unfold _getMessageCache; by rewrite bind_get_run, Hcache2).
    rewrite (bind_run_after _ _ (state_of rs) tt (state_of rs)
               (replay_of c (default [] (messageCache c !! roomId)))).
    2:{ rewrite forEach_replay by done. f_equal. unfold replay_of. f_equal.
        apply map_ext. intros m. by apply published_listeners. }
    rewrite (bind_run_after _ _ (state_of rs) tt
               (with_isLoadingHistory true (state_of rs)) []) by done.
    fold rl.
    destruct (outcome_of rl) as [b|e|] eqn:Ho.
    - rewrite (bind_run_after _ _ _ b (state_of rl) (trace_of rl))
        by (rewrite <- Ho; symmetry; apply run_eta).
      rewrite (bind_run_after _ _ (state_of rl) tt
                 (with_isLoadingHistory false (state_of rl)) []) by done.
      rewrite (bind_run_after _ _ _ tt
                 (with_historyLoaded true (with_isLoadingHistory false (state_of rl))) [])
        by done.
      set (c5 := with_historyLoaded true (with_isLoadingHistory false (state_of rl))).
      assert (Hev : _triggerEvent "roomJoin" (PRoomJoin roomId (ri_name joined)) c5
                    = (Ret tt, c5,
                       published c "roomJoin" (PRoomJoin roomId (ri_name joined)))).
      { rewrite triggerEvent_run.
        - f_equal. by apply published_listeners.
        - apply (bool_decide_unpack ("roomJoin" ∉ object_prototype_members)).
          by vm_compute. }
      rewrite (bind_run_after _ _ c5 tt c5 _ Hev).
      unfold mret, M_ret, ret. rewrite !after_run. subst before. cbn [app].
      by rewrite ?app_nil_r, <- ?app_assoc.
    - by destruct (Hnt e).
    - rewrite (bind_run_pending _ _ _ (state_of rl) (trace_of rl))
        by (rewrite <- Ho; symmetry; apply run_eta).
      rewrite !after_run. subst before. cbn [app].
      by rewrite ?app_nil_r, <- ?app_assoc. }
  unfold try_catch. rewrite Hbody.
  destruct (outcome_of rl) as [b|e|]; [done | by destruct (Hnt e) | done].
Qed.

(** A join that the server accepted, when the local store refuses the
    room id: the exception of the write ends it in the handler. *)
Lemma joinRoom_store_refused roomIdOrAlias inviteCode joined error c :
  client c = true ->
  sdk_joinRoom sdk roomIdOrAlias (if Js.truthy_opt inviteCode then inviteCode else None)
    = Resolved joined ->
  storeItem sdk "matrixRoom" (ri_roomId joined) = Some error ->
  joinRoom sdk roomIdOrAlias inviteCode c =
    (Ret false, with_room (Some (ri_roomId joined)) c,
     Net (ReqJoinRoom roomIdOrAlias
            (if Js.truthy_opt inviteCode then inviteCode else None))
       :: published c "error"
            (PError "joinRoom" (Js.or_else (err_message error) "Failed to join room"))).
Proof.
  intros Hclient Hjoin Hstore. unfold joinRoom.
  rewrite bind_get_run, Hclient. cbn [negb]. cbv zeta.
  set (opts := if Js.truthy_opt inviteCode then inviteCode else None) in *.
  set (c1 := with_room (Some (ri_roomId joined)) c).
  rewrite (try_catch_run_throw _ _ c error c1 [Net (ReqJoinRoom roomIdOrAlias opts)]).
  - rewrite (bind_run_after _ _ c1 tt c1 _ (error_event_run _ _ c1)).
    unfold mret, M_ret, ret. rewrite after_run. run_simpl. cbn [app].
    by rewrite app_nil_r.
  - rewrite (bind_run_after _ _ c joined c [Net (ReqJoinRoom roomIdOrAlias opts)])
      by (unfold await; by rewrite Hjoin).
    rewrite (bind_run_after _ _ c tt c1 []) by done.
    rewrite (bind_run_throw _ _ c1 error c1 [])
      by (unfold storage_set; by rewrite Hstore).
    by rewrite !after_run.
Qed.

End JoinProperties.

(** ** What a join leaves behind *)

Section JoinTheorems.

Variable sdk : Sdk.

(** Once the server has accepted the join and the local store has taken
    the room id, the join succeeds whatever becomes of the room state and
    of the history: if it completes at all it returns true, the client is
    in the room, the room id is saved in the local store, the loading flag
    is clear again and the history counts as loaded; the last thing it does
    is to publish [roomJoin]. When the local store refuses the room id, the
    accepted join ends in one error event and the result false, with the
    room of the client set all the same, nothing saved and no history
    loaded. *)
Theorem joinRoom_completes roomIdOrAlias inviteCode joined c :
  client c = true ->
  isLoadingHistory c = false ->
  sdk_joinRoom sdk roomIdOrAlias (if Js.truthy_opt inviteCode then inviteCode else None)
    = Resolved joined ->
  outcome_of (joinRoom sdk roomIdOrAlias inviteCode c) <> Pending ->
  let c' := state_of (joinRoom sdk roomIdOrAlias inviteCode c) in
  match storeItem sdk "matrixRoom" (ri_roomId joined) with
  | None =>
      outcome_of (joinRoom sdk roomIdOrAlias inviteCode c) = Ret true
      /\ room c' = Some (ri_roomId joined)
      /\ localStorage c' !! "matrixRoom" = Some (ri_roomId joined)
      /\ isLoadingHistory c' = false
      /\ historyLoaded c' = true
      /\ client c' = true /\ userId c' = userId c /\ listeners c' = listeners c
      /\ exists t,
           trace_of (joinRoom sdk roomIdOrAlias inviteCode c)
           = t ++ published c "roomJoin" (PRoomJoin (ri_roomId joined) (ri_name joined))
  | Some error =>
      joinRoom sdk roomIdOrAlias inviteCode c =
        (Ret false, with_room (Some (ri_roomId joined)) c,
         Net (ReqJoinRoom roomIdOrAlias
                (if Js.truthy_opt inviteCode then inviteCode else None))
           :: published c "error"
                (PError "joinRoom"
                   (Js.or_else (err_message error) "Failed to join room")))
  end.
Proof.
  intros Hclient Hflag Hjoin Hdone. cbv zeta.
  destruct (storeItem sdk "matrixRoom" (ri_roomId joined)) as [error|] eqn:Hstore.
  { by apply joinRoom_store_refused. }
  pose proof (joinRoom_run sdk roomIdOrAlias inviteCode joined c Hclient Hflag Hjoin Hstore)
    as Hrun. cbv zeta in Hrun.
  set (roomId := ri_roomId joined) in *.
  set (c1 := with_localStorage (<["matrixRoom" := roomId]> (localStorage c))
               (with_room (Some roomId) c)) in *.
  destruct (updateRoomState_frame sdk roomId c1) as (o & states & _ & Hss).
  destruct (loadRoomHistory_frame sdk roomId
              (with_isLoadingHistory true (state_of (_updateRoomState sdk roomId c1))))
    as (cache & stored & Hls).
  rewrite Hrun in *.
  destruct (outcome_of (_loadRoomHistory sdk roomId _)) as [b|e|] eqn:Ho;
    run_simpl; run_simpl_in Hdone; [| |done].
  - rewrite Hls, Hss. subst c1.
    cbn [room localStorage isLoadingHistory historyLoaded client userId listeners
         with_historyLoaded with_isLoadingHistory with_storedCache with_messageCache
         with_roomState with_localStorage with_room].
    repeat split; try done; [apply lookup_insert_eq | by eexists].
  - rewrite Hls, Hss. subst c1.
    cbn [room localStorage isLoadingHistory historyLoaded client userId listeners
         with_historyLoaded with_isLoadingHistory with_storedCache with_messageCache
         with_roomState with_localStorage with_room].
    repeat split; try done; [apply lookup_insert_eq | by eexists].
Qed.


End JoinTheorems.

Lemma joinRoom_completes_witness :
  client Demo.logged_in = true
  /\ outcome_of (joinRoom Demo.sdk "#tavern:matrix.org" None Demo.logged_in) = Ret true.
Proof.
  split; [reflexivity|].
  apply (joinRoom_completes Demo.sdk "#tavern:matrix.org" None
           {| ri_roomId := Demo.room_id; ri_name := "Tavern" |} Demo.logged_in);
    [reflexivity | reflexivity | reflexivity | by vm_compute].
Defined.


(** ** Logging in, and coming back after the session ended *)

Section LoginProperties.

Variable sdk : Sdk.

Lemma bind_trace_prefix {A B} (m : M A) (k : A -> M B) c :
  exists t, trace_of ((m ≫= k) c) = trace_of (m c) ++ t.
Proof.
  unfold mbind, M_bind, bind. destruct (m c) as [[[a|e|] c1] t1]; run_simpl.
  - destruct (k a c1) as [[o c2] t2]. run_simpl. by exists t2.
  - exists []. by rewrite app_nil_r.
  - exists []. by rewrite app_nil_r.
Qed.

Lemma try_catch_trace_prefix {A} (m : M A) h c :
  exists t, trace_of (try_catch m h c) = trace_of (m c) ++ t.
Proof.
  unfold try_catch. destruct (m c) as [[[a|e|] c1] t1]; run_simpl.
  - exists []. by rewrite app_nil_r.
  - destruct (h e c1) as [[o c2] t2]. run_simpl. by exists t2.
  - exists []. by rewrite app_nil_r.
Qed.

(** A login that the server rejects publishes one error event and
    returns the failure record; it stores no credential and sets no user,
    but it leaves the protocol client it created in place: a join after it
    is not stopped by the guard of [joinRoom] and goes out to the
    server. *)
Theorem login_rejected_keeps_client username password error c :
  loginWithPassword sdk username password = Rejected error ->
  login sdk username password c =
    (Ret (RLogin false None), with_client true c,
     Net (ReqLogin username password)
       :: published c "error"
            (PError "login" (Js.or_else (err_message error) "Login failed")))
  /\ forall roomIdOrAlias inviteCode,
       exists t,
         trace_of (joinRoom sdk roomIdOrAlias inviteCode
                     (state_of (login sdk username password c)))
         = Net (ReqJoinRoom roomIdOrAlias
                  (if Js.truthy_opt inviteCode then inviteCode else None)) :: t.
Proof.
  intros Hrej.
  assert (Hrun : login sdk username password c =
            (Ret (RLogin false None), with_client true c,
             Net (ReqLogin username password)
               :: published c "error"
                    (PError "login" (Js.or_else (err_message error) "Login failed")))).
  { unfold login.
    rewrite (try_catch_run_throw _ _ c error (with_client true c)
               [Net (ReqLogin username password)]).
    - rewrite (bind_run_ret _ _ _ tt _ _ (error_event_run _ _ (with_client true c))).
      unfold mret, M_ret, ret. run_simpl. by rewrite app_nil_r.
    - rewrite (bind_run_ret _ _ c tt (with_client true c) []) by done.
      rewrite (bind_run_throw _ _ (with_client true c) error (with_client true c)
                 [Net (ReqLogin username password)])
        by (unfold await; by rewrite Hrej).
      by run_simpl. }
  split; [exact Hrun|]. intros roomIdOrAlias inviteCode. rewrite Hrun. run_simpl.
  unfold joinRoom. rewrite bind_get_run. cbn [client with_client negb].
  match goal with
  | |- context [try_catch ?m ?h ?c1] =>
      destruct (try_catch_trace_prefix m h c1) as [t2 ->];
      match m with
      | mbind ?k ?a => destruct (bind_trace_prefix a k c1) as [t1 ->]
      end
  end.
  unfold await.
  destruct (sdk_joinRoom sdk roomIdOrAlias _); cbn; by eexists.
Qed.

(** Without a stored token or user id, and without a stored user name and
    password, resuming a session does nothing and returns false. *)
Lemma loginWithToken_nothing_stored c :
  (forall k, k ∈ credential_slots -> localStorage c !! k = None) ->
  loginWithToken sdk c = (Ret (RBool false), c, []).
Proof.
  intros Hnone.
  assert (Hstored : stored_login sdk c = (Ret None, c, [])).
  { unfold stored_login. rewrite bind_get_run.
    by rewrite (Hnone "matrixUsername") by (unfold credential_slots; set_solver). }
  unfold loginWithToken. rewrite bind_get_run.
  rewrite (Hnone "matrixAccessToken") by (unfold credential_slots; set_solver).
  cbn [Js.truthy_opt negb orb].
  by rewrite (bind_run_ret _ _ c None c [] Hstored).
Qed.

(** After a logout or a reset, a page load finds the history and no
    session: the client it constructs holds the cache as it was last
    stored, has no room and no user, and resuming the session on it sends
    nothing and returns false. *)
Theorem session_end_then_reload c :
  fresh_start sdk c (reloaded (state_of (logout c)))
  /\ fresh_start sdk c (reloaded (state_of (reset sdk c))).
Proof.
  assert (Hended : forall c0,
            (forall k, localStorage c0 !! k =
                         if bool_decide (k ∈ credential_slots) then None
                         else localStorage c !! k)
            /\ storedCache c0 = storedCache c ->
            fresh_start sdk c (reloaded c0)).
  { intros c0 [Hstore Hstored]. unfold fresh_start. split.
    - apply loginWithToken_nothing_stored. intros k Hk.
      unfold reloaded, new_client. cbn [localStorage].
      by rewrite Hstore, bool_decide_eq_true_2.
    - unfold reloaded, new_client. cbn. rewrite Hstored.
      repeat split. rewrite Hstore.
      by rewrite bool_decide_eq_true_2 by (unfold credential_slots; set_solver). }
  split; apply Hended; apply (logout_reset_stores sdk c); [by left | by right].
Qed.

End LoginProperties.

(** ** Inlining the bundle *)

Section InlineBundleProperties.

Import InlineBundle.

Lemma append_cons ch (a b : string) : String ch a +:+ b = String ch (a +:+ b).
Proof. reflexivity. Qed.

Lemma append_assoc (a b c : string) : (a +:+ b) +:+ c = a +:+ (b +:+ c).
Proof.
  induction a as [|ch a IH]; [done|].
  change (String ch ((a +:+ b) +:+ c) = String ch (a +:+ b +:+ c)). by rewrite IH.
Qed.

Lemma startsWith_append p r : Js.startsWith p (p +:+ r) = true.
Proof.
  induction p as [|ch p IH]; [done|].
  change (String ch p +:+ r) with (String ch (p +:+ r)).
  cbn [Js.startsWith]. by rewrite Ascii.eqb_refl.
Qed.

Lemma startsWith_inv p : forall s,
  Js.startsWith p s = true -> s = p +:+ Js.substring_from (String.length p) s.
Proof.
  induction p as [|a p IH]; intros s Hs; [done|].
  destruct s as [|b s]; [done|]. cbn [Js.startsWith String.length Js.substring_from] in *.
  destruct (Ascii.eqb a b) eqn:Hab; [|done]. apply Ascii.eqb_eq in Hab as ->.
  rewrite append_cons. f_equal. by apply IH.
Qed.

Lemma split_at_first_unfold pattern s :
  split_at_first pattern s =
    if Js.startsWith pattern s
    then Some (EmptyString, Js.substring_from (String.length pattern) s)
    else match s with
         | EmptyString => None
         | String ch s' =>
             match split_at_first pattern s' with
             | Some (before, after) => Some (String ch before, after)
             | None => None
             end
         end.
Proof. by destruct s. Qed.

(** What [split_at_first] finds is an occurrence, and the first one. *)
Lemma split_at_first_sound pattern : forall s before after,
  split_at_first pattern s = Some (before, after) ->
  first_occurrence pattern before after s.
Proof.
  induction s as [|ch s IH]; intros before after Hs;
    rewrite split_at_first_unfold in Hs;
    destruct (Js.startsWith pattern _) eqn:Hstart.
  - injection Hs as <- <-. split; [by apply startsWith_inv | cbn [String.length]; lia].
  - done.
  - injection Hs as <- <-. split; [by apply startsWith_inv | cbn [String.length]; lia].
  - destruct (split_at_first pattern s) as [[b a]|] eqn:Hrec; [|done].
    injection Hs as <- <-. destruct (IH b a eq_refl) as [Heq Hmin].
    split; [rewrite append_cons; by rewrite <- Heq|].
    intros before' after' Hocc. destruct before' as [|ch' b'].
    + change ("" +:+ pattern +:+ after') with (pattern +:+ after') in Hocc.
      rewrite Hocc, startsWith_append in Hstart. done.
    + rewrite append_cons in Hocc. injection Hocc as _ Hocc.
      cbn [String.length]. specialize (Hmin b' after' Hocc). lia.
Qed.

(** Where there is an occurrence, [split_at_first] finds one. *)
Lemma split_at_first_complete pattern : forall before after,
  split_at_first pattern (before +:+ pattern +:+ after) <> None.
Proof.
  induction before as [|ch b IH]; intros after; rewrite split_at_first_unfold.
  - change ("" +:+ pattern +:+ after) with (pattern +:+ after).
    by rewrite startsWith_append.
  - destruct (Js.startsWith pattern _); [done|].
    rewrite append_cons. specialize (IH after).
    by destruct (split_at_first pattern (b +:+ pattern +:+ after)) as [[b' a']|].
Qed.

Lemma append_inj_length (a1 a2 b1 b2 : string) :
  a1 +:+ b1 = a2 +:+ b2 -> String.length a1 = String.length a2 ->
  a1 = a2 /\ b1 = b2.
Proof.
  revert a2. induction a1 as [|ch a1 IH]; intros [|ch2 a2] Heq Hlen; try done.
  rewrite !append_cons in Heq. cbn [String.length] in Hlen.
  injection Heq as -> Heq. injection Hlen as Hlen.
  destruct (IH a2 Heq Hlen) as [-> ->]. done.
Qed.

Lemma split_at_first_occurrence pattern before after s :
  first_occurrence pattern before after s ->
  split_at_first pattern s = Some (before, after).
Proof.
  intros [Heq Hmin].
  destruct (split_at_first pattern s) as [[b a]|] eqn:Hs.
  - destruct (split_at_first_sound pattern s b a Hs) as [Heq' Hmin'].
    assert (Hlen : String.length b = String.length before).
    { apply Nat.le_antisymm; [by eapply Hmin' | by eapply Hmin]. }
    rewrite Heq in Heq'.
    destruct (append_inj_length before b _ _ Heq' (eq_sym Hlen)) as [-> Hrest].
    by destruct (append_inj_length pattern pattern after a Hrest eq_refl) as [_ ->].
  - subst s. by destruct (split_at_first_complete pattern before after).
Qed.

Lemma has_dollar_append a b : has_dollar (a +:+ b) = has_dollar a || has_dollar b.
Proof.
  induction a as [|ch a IH]; [done|].
  rewrite append_cons. cbn [has_dollar]. by rewrite IH, orb_assoc.
Qed.

Lemma get_substitution_plain matched before after template :
  has_dollar template = false ->
  get_substitution matched before after template = template.
Proof.
  induction template as [|ch t IH]; [done|]. cbn [has_dollar get_substitution].
  intros Hd. apply orb_false_iff in Hd as [-> Ht]. f_equal. by apply IH.
Qed.

Lemma get_substitution_append matched before after t1 t2 :
  has_dollar t1 = false ->
  get_substitution matched before after (t1 +:+ t2)
  = t1 +:+ get_substitution matched before after t2.
Proof.
  induction t1 as [|ch t IH]; [done|]. cbn [has_dollar].
  intros Hd. apply orb_false_iff in Hd as [Hch Ht].
  rewrite !append_cons. cbn [get_substitution]. rewrite Hch. f_equal. by apply IH.
Qed.

(** A page that does not hold the reference to the bundle is written
    back as it is. *)
Theorem inline_bundle_without_tag html bundleCode :
  (forall before after, html <> before +:+ script_tag +:+ after) ->
  inline_bundle html bundleCode = html.
Proof.
  intros Hnone. unfold inline_bundle, replace.
  destruct (split_at_first script_tag html) as [[b a]|] eqn:Hs; [|done].
  destruct (split_at_first_sound _ _ _ _ Hs) as [Heq _]. by destruct (Hnone b a).
Qed.

(** The first reference to the bundle, and only the first, is replaced by
    a script element; when the bundle holds no dollar sign, that element
    holds the bundle as it is, and the rest of the page is kept. *)
Theorem inline_bundle_verbatim before after html bundleCode :
  first_occurrence script_tag before after html ->
  has_dollar bundleCode = false ->
  inline_bundle html bundleCode
  = before +:+ "<script>" +:+ bundleCode +:+ "</script>" +:+ after.
Proof.
  intros Hfirst Hplain. unfold inline_bundle, replace.
  rewrite (split_at_first_occurrence _ _ _ _ Hfirst).
  rewrite get_substitution_plain.
  - by rewrite !append_assoc.
  - by rewrite !has_dollar_append, Hplain.
Qed.

(** The bundle is not inlined as it is when it holds a replacement
    pattern: two dollar signs in a row come out as one, and a dollar sign
    followed by an ampersand comes out as the reference to the bundle. *)
Theorem inline_bundle_patterns before after html code1 code2 :
  first_occurrence script_tag before after html ->
  has_dollar code1 = false ->
  has_dollar code2 = false ->
  inline_bundle html (code1 +:+ "$$" +:+ code2)
  = before +:+ "<script>" +:+ code1 +:+ "$" +:+ code2 +:+ "</script>" +:+ after
  /\ inline_bundle html (code1 +:+ "$&" +:+ code2)
     = before +:+ "<script>" +:+ code1 +:+ script_tag +:+ code2 +:+ "</script>" +:+ after.
Proof.
  intros Hfirst H1 H2. unfold inline_bundle, replace.
  rewrite (split_at_first_occurrence _ _ _ _ Hfirst).
  assert (Htail : get_substitution script_tag before after (code2 +:+ "</script>")
                  = code2 +:+ "</script>").
  { apply get_substitution_plain. by rewrite has_dollar_append, H2. }
  split.
  - rewrite !append_assoc.
    rewrite (get_substitution_append _ _ _ "<script>") by done.
    rewrite get_substitution_append by done.
    change ("$$" +:+ code2 +:+ "</script>")
      with (String "$" (String "$" (code2 +:+ "</script>"))).
    cbn [get_substitution Ascii.eqb Bool.eqb]. rewrite Htail.
    rewrite !append_assoc. do 3 f_equal.
    by rewrite (append_cons "$" (code2 +:+ "</script>") after), append_assoc.
  - rewrite !append_assoc.
    rewrite (get_substitution_append _ _ _ "<script>") by done.
    rewrite get_substitution_append by done.
    change ("$&" +:+ code2 +:+ "</script>")
      with (String "$" (String "&" (code2 +:+ "</script>"))).
    cbn [get_substitution Ascii.eqb Bool.eqb]. rewrite Htail.
    by rewrite !append_assoc.
Qed.

End InlineBundleProperties.

(** ** Clearing all messages *)

Section ClearProperties.

Variable sdk : Sdk.

(** Marking a list of ids, one after the other, marks the records whose
    id is in the list. *)
Lemma mark_rooms_spec ids0 messages :
  fold_left (fun ms id => mark_room id ms) ids0 messages
  = map (fun m => if bool_decide (m_id m ∈ ids0) then set_redacted m else m) messages.
Proof.
  revert messages. induction ids0 as [|id rest IH]; intros messages.
  - cbn [fold_left]. induction messages as [|m l IHl]; [done|].
    cbn [map]. by rewrite <- IHl.
  - cbn [fold_left]. rewrite IH. unfold mark_room. rewrite map_map.
    apply map_ext. intros m.
    destruct (String.eqb (m_id m) id) eqn:Heq.
    + apply String.eqb_eq in Heq.
      rewrite (bool_decide_eq_true_2 (m_id m ∈ id :: rest)) by (rewrite Heq; by left).
      by destruct (bool_decide (m_id (set_redacted m) ∈ rest)).
    + apply String.eqb_neq in Heq.
      destruct (decide (m_id m ∈ rest)) as [Hin|Hout].
      * rewrite !bool_decide_eq_true_2; [done | by right | done].
      * rewrite !bool_decide_eq_false_2; [done | | done].
        intros Hin. apply elem_of_cons in Hin as [?|?]; done.
Qed.

(** The loop of redactions, when the server accepts every one of them. *)
Lemma forEach_redact_run roomId ids0 : forall c,
  (forall id, id ∈ ids0 -> redactEvent sdk roomId id = Resolved tt) ->
  forEach
    (fun eventId =>
       await (ReqRedact roomId eventId) (redactEvent sdk roomId eventId) ;;
       markRedacted roomId eventId)
    ids0 c
  = (Ret tt,
     match messageCache c !! roomId with
     | Some messages =>
         with_messageCache
           (<[roomId := fold_left (fun ms id => mark_room id ms) ids0 messages]>
              (messageCache c)) c
     | None => c
     end,
     map (fun id => Net (ReqRedact roomId id)) ids0).
Proof.
  induction ids0 as [|id rest IH]; intros c Hok.
  - cbn [forEach fold_left map]. destruct (messageCache c !! roomId) eqn:Hroom; [|done].
    rewrite insert_id by done. by rewrite with_messageCache_same.
  - cbn [forEach fold_left map].
    assert (Hone : (await (ReqRedact roomId id) (redactEvent sdk roomId id) ;;
                    markRedacted roomId id) c
                   = (Ret tt,
                      match messageCache c !! roomId with
                      | Some messages =>
                          with_messageCache
                            (<[roomId := mark_room id messages]> (messageCache c)) c
                      | None => c
                      end,
                      [Net (ReqRedact roomId id)])).
    { rewrite (bind_run_ret _ _ c tt c [Net (ReqRedact roomId id)])
        by (unfold await; rewrite Hok by (by left); done).
      rewrite markRedacted_run. by run_simpl. }
    rewrite (bind_run_ret _ _ c tt _ _ Hone).
    rewrite IH by (intros id' Hid'; apply Hok; by right). run_simpl.
    destruct (messageCache c !! roomId) as [ms|] eqn:Hroom.
    + cbn [messageCache with_messageCache]. rewrite lookup_insert_eq, insert_insert_eq.
      by destruct c.
    + by rewrite Hroom.
Qed.

Lemma clearAllMessages_run c roomId timeline :
  not_ready c = false -> room c = Some roomId ->
  getRoom sdk roomId = Some timeline ->
  ids_to_clear c roomId timeline <> [] ->
  (forall id, id ∈ ids_to_clear c roomId timeline ->
     redactEvent sdk roomId id = Resolved tt) ->
  let marked :=
    match messageCache c !! roomId with
    | Some messages =>
        with_messageCache
          (<[roomId := fold_left (fun ms id => mark_room id ms)
                         (ids_to_clear c roomId timeline) messages]>
             (messageCache c)) c
    | None => c
    end in
  clearAllMessages sdk c =
    (Ret true, state_of (_saveMessageCache sdk marked),
     map (fun id => Net (ReqRedact roomId id)) (ids_to_clear c roomId timeline)
       ++ published c "message"
            (PSystem (userId c) roomId
               ("Cleared " +:+ pretty (length (ids_to_clear c roomId timeline))
                  +:+ " messages") false true)).
Proof.
  intros Hnr Hroom Htl Hne Hok marked. unfold clearAllMessages.
  rewrite bind_get_run, Hnr, Hroom. cbn [default from_option]. unfold id.
  rewrite Htl. cbv zeta. fold (ids_to_clear c roomId timeline).
  destruct (ids_to_clear c roomId timeline) as [|id0 rest] eqn:Hids; [done|].
  apply try_catch_run_ret.
  rewrite (bind_run_ret _ _ c tt marked _ (forEach_redact_run roomId (id0 :: rest) c Hok)).
  destruct (saveMessageCache_run sdk marked) as (Ho & Ht & _).
  destruct (saveMessageCache_frame sdk marked) as (cache & stored & Hst).
  rewrite (bind_run_ret _ _ marked tt (state_of (_saveMessageCache sdk marked)) [])
    by (rewrite <- Ho, <- Ht; symmetry; apply run_eta).
  set (c2 := state_of (_saveMessageCache sdk marked)) in *.
  set (notice := PSystem _ _ _ _ _).
  assert (Hev : _triggerEvent "message" notice c2 = (Ret tt, c2, published c "message" notice)).
  { rewrite triggerEvent_run.
    - f_equal. apply published_listeners. rewrite Hst. subst marked.
      by destruct (messageCache c !! roomId).
    - apply (bool_decide_unpack ("message" ∉ object_prototype_members)). by vm_compute. }
  rewrite (bind_run_ret _ _ c2 tt c2 _ Hev).
  unfold mret, M_ret, ret. run_simpl. by rewrite !app_nil_r.
Qed.

(** When the server accepts every redaction, [clearAllMessages] redacts
    each of the user's message events of the timeline and each of the
    user's cached records that was not redacted yet, one request each and
    in that order, then publishes one notice with their number and returns
    true; afterwards every cached record of the room that the user sent
    carries the redaction mark. *)
Theorem clearAllMessages_redacts_all c roomId timeline :
  not_ready c = false -> room c = Some roomId ->
  getRoom sdk roomId = Some timeline ->
  ids_to_clear c roomId timeline <> [] ->
  (forall id, id ∈ ids_to_clear c roomId timeline ->
     redactEvent sdk roomId id = Resolved tt) ->
  let r := clearAllMessages sdk c in
  outcome_of r = Ret true
  /\ trace_of r =
       map (fun id => Net (ReqRedact roomId id)) (ids_to_clear c roomId timeline)
         ++ published c "message"
              (PSystem (userId c) roomId
                 ("Cleared " +:+ pretty (length (ids_to_clear c roomId timeline))
                    +:+ " messages") false true)
  /\ all_redacted (messageCache (state_of r)) roomId (userId c).
Proof.
  intros Hnr Hroom Htl Hne Hok r. subst r.
  rewrite (clearAllMessages_run c roomId timeline Hnr Hroom Htl Hne Hok). run_simpl.
  split; [done|]. split; [done|].
  set (ids0 := ids_to_clear c roomId timeline) in *.
  assert (Hmarked : forall ms m,
            messageCache c !! roomId = Some ms ->
            m ∈ fold_left (fun ms id => mark_room id ms) ids0 ms ->
            m_sender m = userId c -> m_redacted m = true).
  { intros ms m Hms Hin Hsender. rewrite mark_rooms_spec in Hin.
    apply list_elem_of_In, in_map_iff in Hin as (m0 & Hm & Hin0).
    destruct (decide (m_id m0 ∈ ids0)) as [Hid|Hid].
    { rewrite bool_decide_eq_true_2 in Hm by done. by subst m. }
    rewrite bool_decide_eq_false_2 in Hm by done. subst m0.
    destruct (m_redacted m) eqn:Hred; [done|]. exfalso. apply Hid.
    subst ids0. unfold ids_to_clear. apply elem_of_app. right.
    unfold own_cached_ids. rewrite Hms.
    apply list_elem_of_In, in_map_iff. exists m. split; [done|].
    apply filter_In. split; [done|].
    rewrite bool_decide_eq_true_2 by done. rewrite Hred. cbn [negb andb].
    rewrite bool_decide_eq_false_2; [done|].
    intros Hin. apply Hid. unfold ids_to_clear. apply elem_of_app. by left. }
  destruct (saveMessageCache_run sdk
              (match messageCache c !! roomId with
               | Some messages =>
                   with_messageCache
                     (<[roomId := fold_left (fun ms id => mark_room id ms) ids0 messages]>
                        (messageCache c)) c
               | None => c
               end)) as (_ & _ & ->).
  destruct (messageCache c !! roomId) as [ms|] eqn:Hms.
  - cbn [messageCache with_messageCache].
    destruct (setItem sdk _).
    + intros messages m Hl Hin. rewrite lookup_insert_eq in Hl. injection Hl as <-.
      by eapply Hmarked.
    + intros messages m Hl Hin. rewrite prune_lookup, lookup_insert_eq in Hl.
      injection Hl as <-. apply prune_room_subseteq in Hin. by eapply Hmarked.
    + intros messages m Hl Hin. rewrite lookup_insert_eq in Hl. injection Hl as <-.
      by eapply Hmarked.
  - destruct (setItem sdk _).
    + intros messages m Hl. by rewrite Hms in Hl.
    + intros messages m Hl. by rewrite prune_lookup, Hms in Hl.
    + intros messages m Hl. by rewrite Hms in Hl.
Qed.

End ClearProperties.

(** ** Failures never escape *)

Section NeverThrows.

Variable sdk : Sdk.

Ltac no_throw_leaf :=
  lazymatch goal with
  | |- no_throw (mbind _ _) => apply no_throw_bind; [|intros ?]
  | |- no_throw (try_catch _ _) => apply no_throw_try_catch; intros ?
  | |- no_throw (fmap _ _) => apply no_throw_fmap
  | |- no_throw (mret _) => apply no_throw_ret
  | |- no_throw get => apply no_throw_get
  | |- no_throw (modify _) => apply no_throw_modify
  | |- no_throw (emit _) => apply no_throw_emit
  | |- no_throw (error_event _ _) => apply no_throw_error_event
  | |- no_throw (_addMessageToCache _ _ _) => apply no_throw_add
  | |- no_throw (_saveMessageCache _) => apply no_throw_save
  | |- no_throw (markRedacted _ _) => apply no_throw_mark
  | |- no_throw (_triggerEvent ?ev _) =>
      apply no_throw_trigger;
      apply (bool_decide_unpack (ev ∉ object_prototype_members)); by vm_compute
  | |- no_throw (if ?b then _ else _) => destruct b
  | |- no_throw (match ?x with _ => _ end) => destruct x
  end.

Lemma no_throw_onRoomTimeline event roomId : no_throw (onRoomTimeline sdk event roomId).
Proof.
  unfold onRoomTimeline, onRedaction, refresh_on_membership, _updateRoomState.
  repeat no_throw_leaf.
Qed.

Lemma no_throw_clearAllMessages : no_throw (clearAllMessages sdk).
Proof. unfold clearAllMessages. repeat no_throw_leaf. Qed.

Lemma no_throw_loginWithToken : no_throw (loginWithToken sdk).
Proof. unfold loginWithToken, stored_login, login. repeat no_throw_leaf. Qed.

(** No exception escapes the client but one. Whatever the server
    answers and whatever the local store does with a write, a live event,
    a sync error, clearing all messages and resuming a session end without
    an exception, and so does every command but [/reset]: the only
    exception a command ends in is the one the session store throws at the
    write of [reset], which no handler catches. (The listeners are taken to
    return normally; [on] and [off] are not part of this: they throw on a
    name that [Object.prototype] provides.) *)
Theorem client_never_throws :
  (forall input type c e,
     outcome_of (processCommand sdk input type c) = Throw e ->
     Js.startsWith "/reset" input = true
     /\ storeSessionItem sdk "matrixReset" "true" = Some e)
  /\ (forall event roomId, no_throw (onRoomTimeline sdk event roomId))
  /\ (forall error, no_throw (onSyncError error))
  /\ no_throw (clearAllMessages sdk)
  /\ no_throw (loginWithToken sdk).
Proof.
  split.
  { intros input type c e Hthrow. split; [|by eapply processCommand_throws].
    destruct (Js.startsWith "/reset" input) eqn:Hreset; [done|].
    by destruct (no_throw_processCommand sdk input type Hreset c e). }
  split; [apply no_throw_onRoomTimeline|].
  split; [intros error; apply no_throw_error_event|].
  split; [apply no_throw_clearAllMessages | apply no_throw_loginWithToken].
Qed.

End NeverThrows.

(** ** Plain text *)

Section PlainText.

Variable sdk : Sdk.

Lemma startsWith_slash p input :
  Js.startsWith "/" input = false -> Js.startsWith (String "/" p) input = false.
Proof.
  destruct input as [|ch s]; [done|]. cbn [Js.startsWith].
  by destruct (Ascii.eqb "/" ch).
Qed.

(** An input that is not empty, does not start with a slash and is
    neither the word narrate nor a text starting with that word and a
    space is sent as it is, white space included, as a message of the given
    type: the command does what [sendMessage] does on it. *)
Theorem processCommand_plain_text input type c :
  Js.truthy input = true ->
  Js.startsWith "/" input = false ->
  String.eqb input "narrate" || Js.startsWith "narrate " input = false ->
  processCommand sdk input type c = (RBool <$> sendMessage sdk input type) c.
Proof.
  intros Hinput Hslash Hnarrate. unfold processCommand.
  rewrite Hinput, Hnarrate, Hslash, !startsWith_slash by done.
  reflexivity.
Qed.

End PlainText.

Lemma processCommand_plain_text_witness :
  Js.truthy " /roll 2d6" = true
  /\ trace_of (processCommand Demo.sdk " /roll 2d6" "chat" (Demo.in_room 0))
     = [Net (ReqSendEvent Demo.room_id (rpg_content " /roll 2d6" (plain_body "chat")))].
Proof.
  split; [reflexivity|].
  rewrite (processCommand_plain_text Demo.sdk " /roll 2d6" "chat" (Demo.in_room 0));
    reflexivity.
Defined.

(** ** Redactions seen live *)

Section LiveRedaction.

Variable sdk : Sdk.

(** A redaction event of the current room that names the redacted event
    is taken into the cache without telling any listener: afterwards every
    cached record of the room with the redacted id carries the mark, and
    nothing but the cache and its stored copy has changed. *)
Theorem live_redaction_is_silent event roomId id c :
  room c = Some roomId ->
  ev_type event = "m.room.redaction" ->
  ev_associatedId event = Some id ->
  Js.truthy id = true ->
  let r := onRoomTimeline sdk event roomId c in
  outcome_of r = Ret tt
  /\ trace_of r = []
  /\ redacted_in (messageCache (state_of r)) roomId id
  /\ exists cache stored,
       state_of r = with_storedCache stored (with_messageCache cache c).
Proof.
  intros Hroom Htype Hid Htruthy r. subst r.
  unfold onRoomTimeline, refresh_on_membership.
  rewrite bind_get_run, Hroom, Htype. rewrite bool_decide_eq_true_2 by done.
  cbn [negb String.eqb Ascii.eqb Bool.eqb andb orb].
  assert (Hrun : exists c',
            onRedaction sdk roomId event c = (Ret tt, c', [])
            /\ redacted_in (messageCache c') roomId id
            /\ exists cache stored, c' = with_storedCache stored (with_messageCache cache c)).
  { unfold onRedaction. rewrite bind_get_run, Hid.
    destruct (messageCache c !! roomId) as [ms|] eqn:Hms.
    2:{ exists c. split; [done|]. split.
        - intros messages m Hl. by rewrite Hms in Hl.
        - exists (messageCache c), (storedCache c). by destruct c. }
    rewrite Htruthy.
    exists (state_of ((markRedacted roomId id ;; _saveMessageCache sdk) c)).
    split; [|split; [apply mark_and_save_redacted|]].
    - rewrite (bind_run_ret _ _ c tt _ [] (markRedacted_run roomId id c)).
      destruct (saveMessageCache_run sdk
                  (match messageCache c !! roomId with
                   | Some messages =>
                       with_messageCache
                         (<[roomId := mark_room id messages]> (messageCache c)) c
                   | None => c
                   end)) as (Ho & Ht & _).
      rewrite Ho, Ht. by run_simpl.
    - rewrite (bind_run_ret _ _ c tt _ [] (markRedacted_run roomId id c)). run_simpl.
      rewrite Hms.
      destruct (saveMessageCache_frame sdk
                  (with_messageCache (<[roomId := mark_room id ms]> (messageCache c)) c))
        as (cache & stored & ->).
      by exists cache, stored. }
  destruct Hrun as (c' & Hrun & Hred & Hframe).
  rewrite (bind_run_ret _ _ c tt c' [] Hrun).
  unfold mret, M_ret, ret. run_simpl. by repeat split.
Qed.

End LiveRedaction.

Lemma live_redaction_is_silent_witness :
  room (Demo.in_room 2) = Some Demo.room_id
  /\ redacted_in
       (messageCache
          (state_of
             (onRoomTimeline Demo.sdk
                {| ev_id := "$r1"; ev_type := "m.room.redaction"; ev_redacted := false;
                   ev_sender := Demo.bob; ev_ts := 5000;
                   ev_content := Demo.text_content "";
                   ev_associatedId := Some "$c1" |}
                Demo.room_id (Demo.in_room 2))))
       Demo.room_id "$c1".
Proof.
  split; [reflexivity|].
  apply (live_redaction_is_silent Demo.sdk
           {| ev_id := "$r1"; ev_type := "m.room.redaction"; ev_redacted := false;
              ev_sender := Demo.bob; ev_ts := 5000;
              ev_content := Demo.text_content "";
              ev_associatedId := Some "$c1" |}
           Demo.room_id "$c1" (Demo.in_room 2)); reflexivity.
Defined.

(** ** Leaving a room *)

Section LeaveProperties.

Variable sdk : Sdk.

Lemma leaveRoom_run c roomId :
  not_ready c = false -> room c = Some roomId ->
  leaveRoom sdk c =
    match leave sdk roomId with
    | Resolved _ =>
        (Ret true,
         with_localStorage (delete "matrixRoom" (localStorage c)) (with_room None c),
         Net (ReqLeave roomId) :: published c "roomLeave" PUndefined)
    | Rejected error =>
        (Ret false, c,
         Net (ReqLeave roomId)
           :: published c "error"
                (PError "leaveRoom"
                   (Js.or_else (err_message error) "Failed to leave room")))
    end.
Proof.
  intros Hnr Hroom. unfold leaveRoom.
  rewrite bind_get_run, Hnr, Hroom. cbn [default from_option]. unfold id.
  destruct (leave sdk roomId) as [[]|error].
  - set (c1 := with_localStorage (delete "matrixRoom" (localStorage c)) (with_room None c)).
    apply try_catch_run_ret.
    rewrite (bind_run_after _ _ c tt c [Net (ReqLeave roomId)]) by done.
    rewrite (bind_run_after _ _ c tt (with_room None c) []) by done.
    rewrite (bind_run_after _ _ (with_room None c) tt c1 []) by done.
    assert (Hev : _triggerEvent "roomLeave" PUndefined c1
                  = (Ret tt, c1, published c "roomLeave" PUndefined)).
    { rewrite triggerEvent_run; [done|].
      apply (bool_decide_unpack ("roomLeave" ∉ object_prototype_members)).
      by vm_compute. }
    rewrite (bind_run_after _ _ c1 tt c1 _ Hev).
    unfold mret, M_ret, ret. rewrite !after_run. cbn [app]. by rewrite app_nil_r.
  - rewrite (try_catch_run_throw _ _ c error c [Net (ReqLeave roomId)]).
    + by rewrite refuse_run.
    + by apply bind_run_throw.
Qed.

(** Leaving the room, once the server has accepted it, clears the room of
    the client and the saved room id, publishes [roomLeave] and keeps the
    message cache; from then on the client is not in a room, so that every
    operation on the room is refused. A refusal of the server leaves the
    client as it was and is reported as one error event. *)
Theorem leaveRoom_leaves c roomId :
  not_ready c = false -> room c = Some roomId ->
  match leave sdk roomId with
  | Resolved _ =>
      let c' := state_of (leaveRoom sdk c) in
      leaveRoom sdk c =
        (Ret true,
         with_localStorage (delete "matrixRoom" (localStorage c)) (with_room None c),
         Net (ReqLeave roomId) :: published c "roomLeave" PUndefined)
      /\ not_ready c' = true
      /\ messageCache c' = messageCache c
      /\ (forall text type, sendMessage sdk text type c' = refused c' "sendMessage")
  | Rejected error =>
      leaveRoom sdk c =
        (Ret false, c,
         Net (ReqLeave roomId)
           :: published c "error"
                (PError "leaveRoom"
                   (Js.or_else (err_message error) "Failed to leave room")))
  end.
Proof.
  intros Hnr Hroom. cbv zeta. rewrite (leaveRoom_run c roomId Hnr Hroom).
  destruct (leave sdk roomId) as [[]|error]; [|done]. run_simpl.
  set (c1 := with_localStorage (delete "matrixRoom" (localStorage c)) (with_room None c)).
  assert (Hnr1 : not_ready c1 = true).
  { unfold not_ready, c1. cbn [room with_localStorage with_room Js.truthy_opt negb].
    apply orb_true_r. }
  split; [done|]. split; [done|]. split; [done|].
  intros text type. unfold sendMessage. rewrite bind_get_run, Hnr1. apply refuse_run.
Qed.

End LeaveProperties.

Lemma leaveRoom_leaves_witness :
  not_ready (Demo.in_room 2) = false
  /\ messageCache (state_of (leaveRoom Demo.sdk (Demo.in_room 2)))
     = messageCache (Demo.in_room 2).
Proof.
  split; [reflexivity|].
  apply (leaveRoom_leaves Demo.sdk (Demo.in_room 2) Demo.room_id); reflexivity.
Defined.

(** ** Logging in, then coming back *)

Section ResumeProperties.

Variable sdk : Sdk.

Lemma login_accepted_run username password response c :
  loginWithPassword sdk username password = Resolved response ->
  startClient sdk = Resolved tt ->
  store_takes_login sdk username password response ->
  let store :=
    <["matrixPassword" := password]>
      (<["matrixUsername" := username]>
         (<["matrixUserId" := user_id response]>
            (<["matrixAccessToken" := access_token response]> (localStorage c)))) in
  login sdk username password c =
    (Ret (RLogin true (Some (user_id response))),
     with_room (store !! "matrixRoom")
       (with_localStorage store
          (with_userId (Some (user_id response)) (with_client true c))),
     [Net (ReqLogin username password); Net ReqStartClient]).
Proof.
  intros Hlogin Hstart (Hs1 & Hs2 & Hs3 & Hs4) store.
  unfold login. apply try_catch_run_ret.
  rewrite (bind_run_after _ _ c tt (with_client true c) []) by done.
  rewrite (bind_run_after _ _ _ response (with_client true c)
             [Net (ReqLogin username password)])
    by (unfold await; by rewrite Hlogin).
  rewrite (bind_run_after _ _ _ tt
             (with_userId (Some (user_id response)) (with_client true c)) []) by done.
  unfold storage_set. rewrite Hs1, Hs2, Hs3, Hs4.
  rewrite (bind_run_after _ _ _ tt _ [] eq_refl).
  rewrite (bind_run_after _ _ _ tt _ [] eq_refl).
  rewrite (bind_run_after _ _ _ tt _ [] eq_refl).
  rewrite (bind_run_after _ _ _ tt _ [] eq_refl).
  cbn [localStorage with_localStorage with_userId with_client].
  fold store.
  set (c4 := with_localStorage store _).
  rewrite (bind_run_after _ _ c4 tt c4 [Net ReqStartClient])
    by (unfold await; by rewrite Hstart).
  rewrite bind_get_run.
  rewrite (bind_run_after _ _ c4 tt (with_room (localStorage c4 !! "matrixRoom") c4) [])
    by done.
  unfold mret, M_ret, ret. rewrite !after_run. cbn [app].
  subst c4. by destruct c.
Qed.

(** A login that the server accepts and whose four writes the local
    store takes stores the session: the next page load resumes it from the
    stored token alone. The login sends the login request and starts the
    protocol client; it takes the saved room id from
    the local store and joins nothing. The client a later page load
    constructs then resumes the session by starting the protocol client,
    without a login request: it has the user id of the login, the saved
    room id, and the cache as it was stored. *)
Theorem login_then_resume username password response c :
  loginWithPassword sdk username password = Resolved response ->
  startClient sdk = Resolved tt ->
  store_takes_login sdk username password response ->
  Js.truthy (access_token response) = true ->
  Js.truthy (user_id response) = true ->
  let c1 := state_of (login sdk username password c) in
  let r := loginWithToken sdk (reloaded c1) in
  outcome_of (login sdk username password c) = Ret (RLogin true (Some (user_id response)))
  /\ trace_of (login sdk username password c)
     = [Net (ReqLogin username password); Net ReqStartClient]
  /\ userId c1 = Some (user_id response)
  /\ room c1 = localStorage c !! "matrixRoom"
  /\ outcome_of r = Ret (RBool true)
  /\ trace_of r = [Net ReqStartClient]
  /\ client (state_of r) = true
  /\ userId (state_of r) = Some (user_id response)
  /\ room (state_of r) = localStorage c !! "matrixRoom"
  /\ messageCache (state_of r) = default ∅ (storedCache c).
Proof.
  intros Hlogin Hstart Htakes Htoken Huid. cbv zeta.
  rewrite (login_accepted_run username password response c Hlogin Hstart Htakes).
  cbv zeta.
  run_simpl.
  set (store := <["matrixPassword" := password]> _).
  assert (Hroom : store !! "matrixRoom" = localStorage c !! "matrixRoom").
  { subst store. by rewrite !lookup_insert_ne by done. }
  assert (Htok : store !! "matrixAccessToken" = Some (access_token response)).
  { subst store. rewrite !lookup_insert_ne by done. apply lookup_insert_eq. }
  assert (Hid : store !! "matrixUserId" = Some (user_id response)).
  { subst store. rewrite !lookup_insert_ne by done. apply lookup_insert_eq. }
  split; [done|]. split; [done|]. split; [done|]. split; [exact Hroom|].
  unfold reloaded.
  cbn [localStorage storedCache sessionStorage with_room with_localStorage
       with_userId with_client].
  set (c2 := new_client store (storedCache c) (sessionStorage c)).
  assert (Hrun : loginWithToken sdk c2 =
            (Ret (RBool true),
             with_room (store !! "matrixRoom")
               (with_userId (Some (user_id response)) (with_client true c2)),
             [Net ReqStartClient])).
  { unfold loginWithToken. rewrite bind_get_run.
    change (localStorage c2) with store. rewrite Htok, Hid.
    cbn [Js.truthy_opt]. rewrite Htoken, Huid. cbn [negb orb].
    apply try_catch_run_ret.
    rewrite (bind_run_after _ _ c2 tt (with_client true c2) []) by done.
    rewrite (bind_run_after _ _ _ tt
               (with_userId (Some (user_id response)) (with_client true c2)) []) by done.
    rewrite (bind_run_after _ _ _ tt
               (with_userId (Some (user_id response)) (with_client true c2))
               [Net ReqStartClient])
      by (unfold await; by rewrite Hstart).
    rewrite bind_get_run.
    rewrite (bind_run_after _ _ _ tt
               (with_room (store !! "matrixRoom")
                  (with_userId (Some (user_id response)) (with_client true c2))) [])
      by done.
    unfold mret, M_ret, ret. by rewrite !after_run. }
  rewrite Hrun. run_simpl. by repeat split.
Qed.

End ResumeProperties.

Lemma login_then_resume_witness :
  loginWithPassword Demo.sdk "alice" "secret"
    = Resolved {| user_id := Demo.alice; access_token := "syt_token" |}
  /\ trace_of
       (loginWithToken Demo.sdk
          (reloaded (state_of (login Demo.sdk "alice" "secret" (new_client ∅ None ∅)))))
     = [Net ReqStartClient].
Proof.
  split; [reflexivity|].
  apply (login_then_resume Demo.sdk "alice" "secret"
           {| user_id := Demo.alice; access_token := "syt_token" |}
           (new_client ∅ None ∅)); try reflexivity.
  repeat split.
Defined.

(** ** The properties at work *)

Lemma live_message_published_once_witness :
  room (Demo.in_room 0) = Some Demo.room_id
  /\ onRoomTimeline Demo.sdk Demo.fetched_event Demo.room_id
       (state_of (onRoomTimeline Demo.sdk Demo.fetched_event Demo.room_id
                    (Demo.in_room 0)))
     = (Ret tt,
        state_of (onRoomTimeline Demo.sdk Demo.fetched_event Demo.room_id
                    (Demo.in_room 0)),
        []).
Proof.
  split; [reflexivity|].
  apply (live_message_published_once Demo.sdk Demo.fetched_event Demo.room_id
           (Demo.in_room 0)); reflexivity.
Defined.

Lemma own_echo_ignored_witness :
  outcome_of (sendMessage Demo.sdk "hello" "chat" (Demo.in_room 0)) = Ret true
  /\ delivered_once Demo.sdk (Demo.in_room 0)
       (sendMessage Demo.sdk "hello" "chat" (Demo.in_room 0)).
Proof.
  split; [reflexivity|].
  exact (proj1 (own_echo_ignored Demo.sdk (Demo.in_room 0)) "hello" "chat").
Defined.

Lemma deleteLastMessage_redacts_last_own_witness :
  is_own_message_event (Demo.in_room 0) Examples.own_event = true
  /\ trace_of (deleteLastMessage Examples.timeline_sdk (Demo.in_room 0))
     = [Net (ReqRedact Demo.room_id "$a1")].
Proof.
  split; [reflexivity|].
  apply (deleteLastMessage_redacts_last_own Examples.timeline_sdk (Demo.in_room 0)
           Demo.room_id [Demo.fetched_event] Examples.own_event [Examples.topic_event]);
    [reflexivity | reflexivity | reflexivity | reflexivity |].
  repeat constructor.
Defined.

Lemma deleteLastMessage_falls_back_to_cache_witness :
  not_ready Examples.after_hello = false
  /\ exists m rest,
       newest_of (own_cached Examples.after_hello Demo.room_id) m
       /\ trace_of (deleteLastMessage Demo.sdk Examples.after_hello)
          = Net (ReqRedact Demo.room_id (m_id m)) :: rest
       /\ Forall (fun ef => is_net ef = false) rest.
Proof.
  split; [reflexivity|].
  apply (deleteLastMessage_falls_back_to_cache Demo.sdk Examples.after_hello
           Demo.room_id []); [reflexivity | reflexivity | reflexivity | constructor].
Defined.

Lemma clearAllMessages_redacts_all_witness :
  ids_to_clear Examples.after_hello Demo.room_id [] = ["$sent"]
  /\ all_redacted
       (messageCache (state_of (clearAllMessages Demo.sdk Examples.after_hello)))
       Demo.room_id (Some Demo.alice).
Proof.
  split; [reflexivity|].
  apply (clearAllMessages_redacts_all Demo.sdk Examples.after_hello Demo.room_id []);
    [reflexivity | reflexivity | reflexivity | by vm_compute | reflexivity].
Defined.

Lemma login_rejected_keeps_client_witness :
  loginWithPassword Examples.locked_sdk "alice" "guess" = Rejected Examples.wrong_password
  /\ client (state_of (login Examples.locked_sdk "alice" "guess" (new_client ∅ None ∅)))
     = true.
Proof.
  split; [reflexivity|].
  destruct (login_rejected_keeps_client Examples.locked_sdk "alice" "guess"
              Examples.wrong_password (new_client ∅ None ∅) eq_refl) as [Hrun _].
  rewrite Hrun. reflexivity.
Defined.

Lemma inline_bundle_without_tag_witness :
  InlineBundle.inline_bundle Examples.bare_page "console.log(1)" = Examples.bare_page.
Proof.
  apply (inline_bundle_without_tag Examples.bare_page "console.log(1)").
  intros before after Heq.
  pose proof (split_at_first_complete InlineBundle.script_tag before after) as Hfound.
  rewrite <- Heq in Hfound. by vm_compute in Hfound.
Defined.

Lemma inline_bundle_verbatim_witness :
  InlineBundle.has_dollar "console.log(1)" = false
  /\ InlineBundle.inline_bundle Examples.page "console.log(1)"
     = "<html><body><script>console.log(1)</script></body></html>".
Proof.
  split; [reflexivity|].
  apply (inline_bundle_verbatim "<html><body>" "</body></html>" Examples.page
           "console.log(1)"); [|reflexivity].
  apply split_at_first_sound. reflexivity.
Defined.

Lemma inline_bundle_patterns_witness :
  InlineBundle.has_dollar "price = '" = false
  /\ InlineBundle.inline_bundle Examples.page "price = '$$5'"
     = "<html><body><script>price = '$5'</script></body></html>".
Proof.
  split; [reflexivity|].
  apply (inline_bundle_patterns "<html><body>" "</body></html>" Examples.page
           "price = '" "5'"); [|reflexivity|reflexivity].
  apply split_at_first_sound. reflexivity.
Defined.

(** ** Dice notation: what [rollDice] takes for a notation *)

Section NotationProperties.

Local Open Scope N_scope.

Lemma digit_of_spec c :
  match digit_of c with
  | Some d => Js.is_digit c = true /\ Js.digit_value c = d
  | None => Js.is_digit c = false
  end.
Proof. destruct c as [[] [] [] [] [] [] [] []]; vm_compute; by repeat split. Qed.

Lemma all_digits_numeral s :
  all_digits s = true <-> is_Some (numeral_value s).
Proof.
  induction s as [|c s IH]; cbn [all_digits numeral_value]; [by split; eauto|].
  pose proof (digit_of_spec c) as Hc.
  destruct (digit_of c) as [d|].
  - destruct Hc as [-> _]. cbn [andb]. rewrite IH.
    destruct (numeral_value s); split; intros [x Hx]; by eauto.
  - rewrite Hc. cbn [andb]. split; [done | by intros [x Hx]].
Qed.

Lemma parseInt_acc_value s : forall acc v,
  numeral_value s = Some v ->
  Js.parseInt_acc acc s = acc * 10 ^ N.of_nat (String.length s) + v.
Proof.
  induction s as [|c s IH]; intros acc v Hv; cbn [numeral_value] in Hv.
  - injection Hv as <-. cbn. lia.
  - pose proof (digit_of_spec c) as Hc.
    destruct (digit_of c) as [d|]; [|done].
    destruct (numeral_value s) as [w|] eqn:Hw; [|done].
    injection Hv as <-. destruct Hc as [_ Hd].
    cbn [Js.parseInt_acc String.length]. rewrite (IH _ w eq_refl), Hd.
    rewrite Nat2N.inj_succ, N.pow_succ_r'. lia.
Qed.

Lemma parseInt_value s v : numeral_value s = Some v -> Js.parseInt s = v.
Proof.
  intros Hv. unfold Js.parseInt. rewrite (parseInt_acc_value s 0 v Hv). lia.
Qed.

(** The longest prefix of digits is a prefix, and it is made of digits. *)
Lemma span_digits_spec s :
  s = (Js.span_digits s).1 +:+ (Js.span_digits s).2
  /\ all_digits (Js.span_digits s).1 = true
  /\ match (Js.span_digits s).2 with
     | String c _ => Js.is_digit c = false
     | EmptyString => True
     end.
Proof.
  induction s as [|c s IH]; [done|].
  unfold Js.span_digits; fold Js.span_digits.
  destruct (Js.is_digit c) eqn:Hc.
  - destruct (Js.span_digits s) as [d r]. cbn [fst snd] in *.
    destruct IH as (Heq & Hd & Hr).
    split; [by rewrite Heq at 1|]. split; [|done].
    cbn [all_digits]. by rewrite Hc, Hd.
  - cbn [fst snd]. by repeat split.
Qed.

(** The matcher of [rollDice] accepts exactly the notations that read as
    a count, the letter d and a number of sides, and takes them for these
    numbers. *)
Lemma parse_notation_reads notation count sides :
  parse_notation notation = Some (count, sides) <-> reads_as notation count sides.
Proof.
  split.
  - unfold parse_notation, match_notation.
    destruct (span_digits_spec notation) as (Heq & Ha & Hrest).
    destruct (Js.span_digits notation) as [a rest]. cbn [fst snd] in *.
    destruct a as [|a0 a']; [done|]. destruct rest as [|c rest']; [done|].
    destruct (Ascii.eqb c "d") eqn:Hc.
    2:{ destruct c as [[] [] [] [] [] [] [] []]; done. }
    apply Ascii.eqb_eq in Hc as ->.
    destruct (span_digits_spec rest') as (Heq' & Hb & Htail).
    destruct (Js.span_digits rest') as [b tail]. cbn [fst snd] in *.
    destruct b as [|b0 b']; [by destruct tail|]. destruct tail as [|t tail']; [|done].
    intros [= <- <-].
    apply all_digits_numeral in Ha as [va Hva]. apply all_digits_numeral in Hb as [vb Hvb].
    exists (String a0 a'), (String b0 b'). split.
    { rewrite Heq, Heq'. by rewrite append_empty_r. }
    split; (split; [done|]); [rewrite Hva | rewrite Hvb]; f_equal; symmetry;
      by apply parseInt_value.
  - intros (a & b & -> & [Hane Hva] & [Hbne Hvb]).
    unfold parse_notation, match_notation.
    rewrite span_digits_app;
      [|by apply all_digits_numeral; eexists | done].
    destruct a as [|a0 a']; [done|].
    change ("d" +:+ b) with (String "d" b). cbv iota beta.
    rewrite <- (append_empty_r b) at 1.
    rewrite span_digits_app; [|by apply all_digits_numeral; eexists | done].
    destruct b as [|b0 b']; [done|].
    by rewrite (parseInt_value _ _ Hva), (parseInt_value _ _ Hvb).
Qed.

Lemma parse_notation_malformed notation :
  parse_notation notation = None <-> malformed notation.
Proof.
  split.
  - intros Hnone count sides Hreads.
    apply parse_notation_reads in Hreads. congruence.
  - intros Hmal. destruct (parse_notation notation) as [[count sides]|] eqn:Hp; [|done].
    by destruct (Hmal count sides); apply parse_notation_reads.
Qed.

(** C2, as the code has it. A notation that is not a numeral, the letter
    d and a numeral (the count and the sides in decimal digits, one digit
    at least each, and nothing before, between or after) is rejected, and
    so is one that reads as N dice of M sides with N above 100 or M above
    1000: [rollDice] returns the failure value, and no roll result. *)
Theorem rollDice_rejects_notation rng notation :
  (malformed notation
   \/ exists count sides,
        reads_as notation count sides /\ (100 < count \/ 1000 < sides)) ->
  rollDice rng notation = None.
Proof.
  intros [Hmal | (count & sides & Hreads & Hrange)].
  - apply parse_notation_malformed in Hmal.
    unfold parse_notation, rollDice in *.
    by destruct (match_notation notation) as [[c s]|].
  - apply parse_notation_reads in Hreads.
    rewrite (rollDice_unfold _ _ _ _ Hreads).
    destruct (N.ltb_spec 100 count); [done|].
    destruct (N.ltb_spec 1000 sides); [done|]. lia.
Qed.

Lemma rollDice_rejects_notation_witness :
  malformed "2x6" /\ malformed "d6" /\ malformed "2d6; DROP"
  /\ reads_as "101d6" 101 6
  /\ rollDice (fun _ => 0) "2x6" = None
  /\ rollDice (fun _ => 0) "d6" = None
  /\ rollDice (fun _ => 0) "2d6; DROP" = None
  /\ rollDice (fun _ => 0) "101d6" = None.
Proof.
  assert (H1 : malformed "2x6") by (by apply parse_notation_malformed).
  assert (H2 : malformed "d6") by (by apply parse_notation_malformed).
  assert (H3 : malformed "2d6; DROP") by (by apply parse_notation_malformed).
  assert (H4 : reads_as "101d6" 101 6) by (by apply parse_notation_reads).
  split; [exact H1|]. split; [exact H2|]. split; [exact H3|]. split; [exact H4|].
  split; [apply (rollDice_rejects_notation (fun _ => 0) "2x6"); by left|].
  split; [apply (rollDice_rejects_notation (fun _ => 0) "d6"); by left|].
  split; [apply (rollDice_rejects_notation (fun _ => 0) "2d6; DROP"); by left|].
  apply (rollDice_rejects_notation (fun _ => 0) "101d6").
  right. exists 101, 6. split; [exact H4 | left; lia].
Defined.

End NotationProperties.

(** ** Redaction marks where the code sets them *)

Section MarkAndSave.

Variable sdk : Sdk.











End MarkAndSave.



(** ** A fetched page of history *)

Section FetchedPage.

Variable sdk : Sdk.

Lemma fresh_events_taken_up events : forall processed e,
  e ∈ fresh_events processed events <-> exists i, taken_up processed events i e.
Proof.
  induction events as [|e0 rest IH]; intros processed e; cbn [fresh_events].
  { split; [by intros ?%elem_of_nil | by intros (i & ? & _)]. }
  assert (Hskip : (ev_redacted e0 = true \/ ev_id e0 ∈ processed) ->
            (e ∈ fresh_events processed rest
             <-> exists i, taken_up processed (e0 :: rest) i e)).
  { intros Hwhy. rewrite IH. split.
    - intros (i & Hi & Htype & Hred & Hnew & Hfirst).
      exists (S i). split; [done|]. do 3 (split; [done|]).
      intros [|j] e' Hj He' Hred'.
      + injection He' as <-. destruct Hwhy as [Hr|Hin]; [congruence|].
        intros Heq. apply Hnew. by rewrite <- Heq.
      + apply (Hfirst j); [lia | done | done].
    - intros ([|i] & Hi & Htype & Hred & Hnew & Hfirst).
      + injection Hi as ->. destruct Hwhy as [Hr|Hin]; [congruence | done].
      + exists i. split; [done|]. do 3 (split; [done|]).
        intros j e' Hj He' Hred'. apply (Hfirst (S j)); [lia | done | done]. }
  destruct (ev_redacted e0) eqn:Hred0; [apply Hskip; by left|].
  destruct (decide (ev_id e0 ∈ processed)) as [Hin|Hnew0].
  { rewrite bool_decide_eq_true_2 by done. apply Hskip. by right. }
  rewrite bool_decide_eq_false_2 by done.
  rewrite elem_of_app, IH. split.
  - intros [Hhead | (i & Hi & Htype & Hred & Hnew & Hfirst)].
    + destruct (String.eqb (ev_type e0) "m.room.message") eqn:Htype0;
        [|by apply elem_of_nil in Hhead].
      apply list_elem_of_singleton in Hhead as ->. apply String.eqb_eq in Htype0.
      exists 0%nat. split; [done|]. do 3 (split; [done|]). intros j e' Hj. lia.
    + exists (S i). split; [done|]. do 2 (split; [done|]).
      split; [intros Hin; apply Hnew, elem_of_union; by right|].
      intros [|j] e' Hj He' Hred'.
      * injection He' as <-. intros Heq. apply Hnew, elem_of_union. left.
        by apply elem_of_singleton.
      * apply (Hfirst j); [lia | done | done].
  - intros ([|i] & Hi & Htype & Hred & Hnew & Hfirst).
    + injection Hi as ->. left. rewrite Htype.
      change (String.eqb "m.room.message" "m.room.message") with true.
      by apply list_elem_of_singleton.
    + right. exists i. split; [done|]. do 2 (split; [done|]). split.
      * assert (Hne : ev_id e0 <> ev_id e)
          by (apply (Hfirst 0%nat e0); [lia | done | done]).
        intros [Hin|Hin]%elem_of_union; [|done].
        apply elem_of_singleton in Hin. congruence.
      * intros j e' Hj He' Hred'. apply (Hfirst (S j)); [lia | done | done].
Qed.

Lemma historical_message_roomState c c' roomId event :
  roomState c' = roomState c ->
  historical_message c' roomId event = historical_message c roomId event.
Proof. intros Heq. unfold historical_message, member_powerLevel. by rewrite Heq. Qed.

Lemma replay_of_listeners c c' msgs :
  listeners c' = listeners c -> replay_of c' msgs = replay_of c msgs.
Proof. intros Heq. unfold replay_of, published. by rewrite Heq. Qed.

Lemma seen_after_redacted processed event rest :
  ev_redacted event = true ->
  seen_after processed (event :: rest) = seen_after processed rest.
Proof. intros Hred. unfold seen_after. cbn [List.filter]. by rewrite Hred. Qed.

Lemma seen_after_seen processed event rest :
  ev_id event ∈ processed ->
  seen_after processed (event :: rest) = seen_after processed rest.
Proof.
  intros Hin. unfold seen_after. cbn [List.filter].
  destruct (ev_redacted event); cbn [negb]; [done|].
  cbn [map list_to_set]. apply set_eq. intros x.
  rewrite !elem_of_union, elem_of_singleton. intuition (subst; auto).
Qed.

Lemma seen_after_new processed event rest :
  ev_redacted event = false ->
  seen_after processed (event :: rest) = seen_after ({[ev_id event]} ∪ processed) rest.
Proof.
  intros Hred. unfold seen_after. cbn [List.filter]. rewrite Hred. cbn [negb].
  cbn [map list_to_set]. apply set_eq. intros x. rewrite !elem_of_union. tauto.
Qed.

(** A pass of the loader over a list of events: the events it takes up go
    into the cache in page order, and they are published only when the
    loading flag is clear. *)
Lemma processEvents_from_fresh roomId events : forall processed n c,
  let fresh := fresh_events processed events in
  let msgs := map (historical_message c roomId) fresh in
  processEvents_from sdk roomId (processed, n) events c =
    (Ret (seen_after processed events, (n + length fresh)%nat),
     cached_all sdk roomId msgs c,
     if isLoadingHistory c then [] else replay_of c msgs).
Proof.
  induction events as [|event rest IH]; intros processed n c; cbv zeta.
  { cbn. unfold seen_after. cbn. rewrite Nat.add_0_r.
    rewrite (right_id_L ∅ (∪) processed).
    by destruct (isLoadingHistory c). }
  cbn [processEvents_from fresh_events].
  destruct (ev_redacted event) eqn:Hred.
  { assert (Hstep : processEvent sdk roomId (processed, n) event c
                    = (Ret (processed, n), c, [])).
    { unfold processEvent. by rewrite Hred, orb_true_r. }
    rewrite (bind_run_after _ _ c (processed, n) c [] Hstep).
    rewrite IH, after_run. cbv zeta. cbn [app].
    by rewrite seen_after_redacted. }
  destruct (decide (ev_id event ∈ processed)) as [Hin|Hnew].
  { rewrite bool_decide_eq_true_2 by done.
    assert (Hstep : processEvent sdk roomId (processed, n) event c
                    = (Ret (processed, n), c, [])).
    { unfold processEvent. by rewrite bool_decide_eq_true_2 by done. }
    rewrite (bind_run_after _ _ c (processed, n) c [] Hstep).
    rewrite IH, after_run. cbv zeta. cbn [app].
    by rewrite seen_after_seen. }
  rewrite bool_decide_eq_false_2 by done.
  rewrite (seen_after_new processed event rest Hred).
  destruct (String.eqb (ev_type event) "m.room.message") eqn:Htype.
  - apply String.eqb_eq in Htype.
    pose proof (processEvent_message sdk roomId processed n event c Htype Hred Hnew)
      as Hstep. cbv zeta in Hstep.
    set (msg := historical_message c roomId event) in *.
    set (c1 := state_of (_addMessageToCache sdk roomId msg c)) in *.
    rewrite (bind_run_after _ _ c _ c1 _ Hstep).
    rewrite IH, after_run. cbv zeta.
    destruct (addMessageToCache_frame sdk roomId msg c) as (cache & stored & Hc1).
    fold c1 in Hc1.
    assert (HrS : roomState c1 = roomState c) by (by rewrite Hc1).
    assert (Hls : listeners c1 = listeners c) by (by rewrite Hc1).
    assert (Hld : isLoadingHistory c1 = isLoadingHistory c) by (by rewrite Hc1).
    rewrite Hld, (replay_of_listeners c c1) by done.
    rewrite (map_ext (historical_message c1 roomId) (historical_message c roomId))
      by (intros; by apply historical_message_roomState).
    cbn [app map length cached_all fold_left]. fold msg. fold c1.
    replace (n + S (length (fresh_events ({[ev_id event]} ∪ processed) rest)))%nat
      with (S n + length (fresh_events ({[ev_id event]} ∪ processed) rest))%nat by lia.
    unfold cached_all. destruct (isLoadingHistory c); [done|].
    unfold replay_of. cbn [map concat]. reflexivity.
  - assert (Hstep : processEvent sdk roomId (processed, n) event c
                    = (Ret ({[ev_id event]} ∪ processed, n), c, [])).
    { unfold processEvent. rewrite bool_decide_eq_false_2 by done.
      by rewrite Hred, Htype. }
    rewrite (bind_run_after _ _ c _ c [] Hstep).
    rewrite IH, after_run. cbv zeta. reflexivity.
Qed.

(** As long as the store does not answer with the quota error, a record
    the cache holds stays in it. *)
Lemma addMessageToCache_keeps roomId message id c :
  (forall written, setItem sdk written <> QuotaExceeded) ->
  has_id id (default [] (messageCache c !! roomId)) = true ->
  has_id id
    (default [] (messageCache (state_of (_addMessageToCache sdk roomId message c))
                 !! roomId)) = true.
Proof.
  intros Hnever Hhas. rewrite addMessageToCache_cache. cbv zeta.
  destruct (has_id (m_id message) _); [done|].
  set (cache1 := <[roomId := _]> (messageCache c)).
  assert (Hroom : has_id id (default [] (cache1 !! roomId)) = true).
  { subst cache1. rewrite lookup_insert_eq.
    change (has_id id (default [] (messageCache c !! roomId) ++ [message]) = true).
    rewrite has_id_app. apply orb_true_iff. by left. }
  destruct (setItem sdk cache1) eqn:Hset; [done | by destruct (Hnever cache1) | done].
Qed.

Lemma cached_all_keeps roomId id msgs : forall c,
  (forall written, setItem sdk written <> QuotaExceeded) ->
  has_id id (default [] (messageCache c !! roomId)) = true ->
  has_id id (default [] (messageCache (cached_all sdk roomId msgs c) !! roomId)) = true.
Proof.
  induction msgs as [|msg rest IH]; intros c Hnever Hhas; [done|].
  cbn [cached_all fold_left]. apply IH; [done|]. by apply addMessageToCache_keeps.
Qed.

Lemma cached_all_has_id roomId msgs : forall c m,
  (forall written, setItem sdk written <> QuotaExceeded) ->
  m ∈ msgs ->
  has_id (m_id m) (default [] (messageCache (cached_all sdk roomId msgs c) !! roomId))
    = true.
Proof.
  induction msgs as [|msg rest IH]; intros c m Hnever Hin;
    [by apply elem_of_nil in Hin|].
  cbn [cached_all fold_left]. apply elem_of_cons in Hin as [->|Hin].
  - apply cached_all_keeps; [done|]. apply addMessageToCache_has_id.
  - by apply IH.
Qed.

Lemma replay_of_In c msgs m h :
  m ∈ msgs ->
  h ∈ default [] (listeners c !! channel_of m) ->
  In (Invoke h (channel_of m) (PMessage m)) (replay_of c msgs).
Proof.
  intros Hm Hh. unfold replay_of. apply in_concat.
  exists (published c (channel_of m) (PMessage m)). split.
  - apply in_map_iff. exists m. split; [done|]. by apply list_elem_of_In.
  - unfold published. apply in_map_iff. exists h. split; [done|].
    by apply list_elem_of_In.
Qed.

(** C1, as the code has it. The loader goes over a fetched backward page
    that has events as follows. The events it takes up are the message
    events that are not redacted and whose id is not processed yet (before
    the page, or by an earlier event of the page that is not redacted). For
    each of them, in page order, it builds the Message and puts it into
    the cache of the room; it publishes them, each on the roll, scene or
    message channel of its type tag, only when the loading flag is clear.
    It asks for the next page when the page has a token and at least one
    event was taken up. As long as the store does not answer with the quota
    error, the room holds a record with the id of every event taken up.
    Inside [joinRoom] the flag is set around the load, so a join publishes
    no fetched event: every message record a join hands to a listener was
    in the room's cache before the join. *)
Theorem loadHistory_page roomId processed page events script c :
  chunk page = Some events ->
  events <> [] ->
  let fresh := fresh_events processed events in
  let msgs := map (historical_message c roomId) fresh in
  let c1 := cached_all sdk roomId msgs c in
  let shown := if isLoadingHistory c then [] else replay_of c msgs in
  paginateBackward sdk (Resolved (Some page) :: script) roomId processed c =
    (if Js.truthy_opt (page_end page) && (0 <? length fresh)%nat then
       after (Net (ReqMessages roomId 100) :: shown ++ [Sleep 500])
         (paginateBackward sdk script roomId (seen_after processed events) c1)
     else (Ret false, c1, Net (ReqMessages roomId 100) :: shown))
  /\ (forall e, e ∈ fresh <-> exists i, taken_up processed events i e)
  /\ (forall i e,
        taken_up processed events i e ->
        let msg := historical_message c roomId e in
        m_id msg = ev_id e
        /\ msg ∈ msgs
        /\ (isLoadingHistory c = false ->
            forall h, h ∈ default [] (listeners c !! channel_of msg) ->
                      In (Invoke h (channel_of msg) (PMessage msg)) shown)
        /\ ((forall written, setItem sdk written <> QuotaExceeded) ->
            has_id (ev_id e) (default [] (messageCache c1 !! roomId)) = true))
  /\ (isLoadingHistory c = true -> shown = [])
  /\ (forall roomIdOrAlias inviteCode c0 h ev m,
        In (Invoke h ev (PMessage m))
           (trace_of (joinRoom sdk roomIdOrAlias inviteCode c0)) ->
        exists joined,
          sdk_joinRoom sdk roomIdOrAlias
            (if Js.truthy_opt inviteCode then inviteCode else None) = Resolved joined
          /\ m ∈ default [] (messageCache c0 !! ri_roomId joined)).
Proof.
  intros Hchunk Hsome. cbv zeta.
  set (fresh := fresh_events processed events).
  set (msgs := map (historical_message c roomId) fresh).
  set (c1 := cached_all sdk roomId msgs c).
  set (shown := if isLoadingHistory c then [] else replay_of c msgs).
  pose proof (processEvents_from_fresh roomId events processed 0%nat c) as Hpass.
  cbv zeta in Hpass. fold fresh msgs c1 shown in Hpass. cbn [Nat.add] in Hpass.
  change (processEvents_from sdk roomId (processed, 0%nat) events c)
    with (processEvents sdk roomId processed events c) in Hpass.
  split.
  { destruct events as [|event events']; [done|].
    rewrite (paginateBackward_page sdk roomId processed page event events' script c
               (seen_after processed (event :: events')) (length fresh) Hchunk)
      by (by rewrite Hpass).
    rewrite Hpass. run_simpl.
    destruct (Js.truthy_opt (page_end page) && (0 <? length fresh)%nat); [|done].
    rewrite <- (run_eta (paginateBackward sdk script roomId _ c1)) at 4.
    rewrite after_run. cbn [app]. by rewrite <- app_assoc. }
  split; [intros e; apply fresh_events_taken_up|].
  split.
  { intros i e Htaken.
    assert (Hfresh : e ∈ fresh) by (apply fresh_events_taken_up; by exists i).
    assert (Hmsg : historical_message c roomId e ∈ msgs)
      by (subst msgs; apply list_elem_of_fmap; by exists e).
    split; [done|]. split; [done|]. split.
    - intros Hclear h Hh. subst shown. rewrite Hclear. by apply replay_of_In.
    - intros Hnever.
      apply (cached_all_has_id roomId msgs c (historical_message c roomId e) Hnever Hmsg). }
  split; [by intros Hset; subst shown; rewrite Hset|].
  intros roomIdOrAlias inviteCode c0 h ev m Hin.
  pose proof (joinRoom_replays sdk roomIdOrAlias inviteCode c0) as Hall.
  cbv zeta in Hall. rewrite Forall_forall in Hall.
  apply list_elem_of_In, Hall in Hin. cbn [replayed] in Hin.
  destruct (sdk_joinRoom sdk roomIdOrAlias _) as [joined|error].
  - by exists joined.
  - by apply elem_of_nil in Hin.
Qed.

End FetchedPage.

Lemma loadHistory_page_witness :
  let roomId := Demo.room_id in
  let c := Demo.in_room 2 in
  let events := [Examples.withdrawn_event; Demo.fetched_event; Examples.topic_event;
                 Examples.own_event; Demo.fetched_event] in
  let fresh := fresh_events ∅ events in
  let msgs := map (historical_message c roomId) fresh in
  let c1 := cached_all Demo.sdk roomId msgs c in
  let shown := if isLoadingHistory c then [] else replay_of c msgs in
  fresh = [Demo.fetched_event; Examples.own_event]
  /\ paginateBackward Demo.sdk [Resolved (Some Examples.history_page)] roomId ∅ c =
       (if Js.truthy_opt (page_end Examples.history_page) && (0 <? length fresh)%nat then
          after (Net (ReqMessages roomId 100) :: shown ++ [Sleep 500])
            (paginateBackward Demo.sdk [] roomId (seen_after ∅ events) c1)
        else (Ret false, c1, Net (ReqMessages roomId 100) :: shown))
  /\ (forall e, e ∈ fresh <-> exists i, taken_up ∅ events i e)
  /\ (forall i e,
        taken_up ∅ events i e ->
        let msg := historical_message c roomId e in
        m_id msg = ev_id e
        /\ msg ∈ msgs
        /\ (isLoadingHistory c = false ->
            forall h, h ∈ default [] (listeners c !! channel_of msg) ->
                      In (Invoke h (channel_of msg) (PMessage msg)) shown)
        /\ ((forall written, setItem Demo.sdk written <> QuotaExceeded) ->
            has_id (ev_id e) (default [] (messageCache c1 !! roomId)) = true))
  /\ (isLoadingHistory c = true -> shown = [])
  /\ (forall roomIdOrAlias inviteCode c0 h ev m,
        In (Invoke h ev (PMessage m))
           (trace_of (joinRoom Demo.sdk roomIdOrAlias inviteCode c0)) ->
        exists joined,
          sdk_joinRoom Demo.sdk roomIdOrAlias
            (if Js.truthy_opt inviteCode then inviteCode else None) = Resolved joined
          /\ m ∈ default [] (messageCache c0 !! ri_roomId joined)).
Proof.
  cbv zeta. split; [reflexivity|].
  apply (loadHistory_page Demo.sdk Demo.room_id ∅ Examples.history_page
           [Examples.withdrawn_event; Demo.fetched_event; Examples.topic_event;
            Examples.own_event; Demo.fetched_event]
           [] (Demo.in_room 2)); [reflexivity | discriminate].
Defined.
